(** * The refinement driver of pragmatic: [include/Refine.h]

    A shallow embedding of [Refine<real_t, index_t>] for [real_t = double]
    and [index_t = int], in the build without OpenMP ([get_tid] returns 0
    and [nthreads] is 1, the pragmas are comments) and with MPI support
    compiled in ([nprocs] and [rank] are data of the driver).

    - [double] is the binary64 type of the kernel ([PrimFloat.float]);
    - [int] and [size_t] values are [Z], with the conversions written out;
    - a [std::vector] is a [list]; an access outside its bounds stops the
      run with [Fail OutOfBounds], an [assert] that does not hold with
      [Fail AssertFailed]. The one exception is [lnn2gnn]: the two-split
      branch of a triangle reads it at the ids of new vertices, which lie
      beyond its end, and the run goes on with what is found there; such a
      read gives [stray k];
    - the mesh, the surface and the element property are collaborators
      whose code is in other headers: what [Refine.h] needs of them is
      either modelled from the specification or taken as a member of the
      class [Collaborators]. *)

From Stdlib Require Import ZArith List Lia Bool Floats.
From stdpp Require Import base list gmap.
Import ListNotations.
Local Open Scope Z_scope.

(** ** Outcomes *)

Inductive error : Set :=
| OutOfBounds      (* a vector or array is accessed outside its bounds *)
| AssertFailed     (* an [assert] of the source does not hold *)
| BadAlloc         (* a container is resized to a negative size *)
| Uninitialised    (* a value is read before it was assigned *)
| OutOfFuel.       (* the propagation loop was cut by the model *)

Inductive result (A : Type) : Type :=
| Ok (a : A)
| Fail (e : error).
Arguments Ok {A} a.
Arguments Fail {A} e.

Definition bind {A B : Type} (r : result A) (k : A -> result B) : result B :=
  match r with
  | Ok a => k a
  | Fail e => Fail e
  end.

Notation "'do' x <- r ; k" := (bind r (fun x => k))
  (at level 10, x name, r at level 100, k at level 200).
Notation "'do' ' p <- r ; k" := (bind r (fun x => let 'p := x in k))
  (at level 10, p pattern, r at level 100, k at level 200).

(** A loop over a list whose body may stop the run. *)
Fixpoint foldM {A S : Type} (f : S -> A -> result S) (s : S) (l : list A) : result S :=
  match l with
  | [] => Ok s
  | x :: rest => do s' <- f s x; foldM f s' rest
  end.

(** ** Machine integers *)

(** [std::numeric_limits<int>::max()], the pending-marked sentinel. *)
Definition index_max : Z := 2147483647.

(** Conversion of an integer value to [int] (two's complement, 32 bits). *)
Definition to_index (z : Z) : Z := (z + 2 ^ 31) mod 2 ^ 32 - 2 ^ 31.

(** Arithmetic of [size_t] (64 bits, unsigned). *)
Definition to_size (z : Z) : Z := z mod 2 ^ 64.

(** ** Vectors *)

(** [v.size()], [v[i]] and [v[i] = x]. *)
Definition size {A : Type} (v : list A) : Z := Z.of_nat (length v).

Definition vget {A : Type} (v : list A) (i : Z) : result A :=
  if 0 <=? i then
    match v !! Z.to_nat i with
    | Some x => Ok x
    | None => Fail OutOfBounds
    end
  else Fail OutOfBounds.

Definition vset {A : Type} (v : list A) (i : Z) (x : A) : result (list A) :=
  if (0 <=? i) && (i <? size v) then Ok (<[Z.to_nat i := x]> v)
  else Fail OutOfBounds.

(** [len] consecutive entries from [off] on: a pointer into a vector that is
    read at the offsets 0 .. len-1. *)
Definition slice {A : Type} (v : list A) (off len : Z) : result (list A) :=
  if (0 <=? off) && (0 <=? len) && (off + len <=? size v)
  then Ok (take (Z.to_nat len) (drop (Z.to_nat off) v))
  else Fail OutOfBounds.

(** [v.resize(n, x)]. *)
Definition vresize {A : Type} (v : list A) (n : Z) (x : A) : result (list A) :=
  if n <? 0 then Fail BadAlloc else Ok (resize (Z.to_nat n) x v).

(** [memcpy(&dst[off], &src[0], len * sizeof)]. *)
Definition memcpy {A : Type} (dst : list A) (off : Z) (src : list A) (len : Z)
  : result (list A) :=
  if (0 <=? off) && (0 <=? len) && (off + len <=? size dst) && (len <=? size src)
  then Ok (take (Z.to_nat off) dst ++ take (Z.to_nat len) src
             ++ drop (Z.to_nat (off + len)) dst)
  else Fail OutOfBounds.

(** [refined_edges[i][k] = x]. *)
Definition set_slot (refined_edges : list (list Z)) (i k x : Z) : result (list (list Z)) :=
  do row <- vget refined_edges i;
  do row' <- vset row k x;
  vset refined_edges i row'.

(** [refined_edges[i][k]]. *)
Definition get_slot (refined_edges : list (list Z)) (i k : Z) : result Z :=
  do row <- vget refined_edges i;
  vget row k.

(** ** Edges *)

(** Modelled from the spec: the class [Edge], declared in another header. An
    undirected edge of an element, identified by its two vertices;
    [connected] gives a vertex shared with another edge or -1, [contains]
    tells whether a vertex is an endpoint. *)
Record Edge : Set := mkEdge { e_first : Z; e_second : Z }.

Definition Edge_of (nid0 nid1 : Z) : Edge :=
  mkEdge (Z.min nid0 nid1) (Z.max nid0 nid1).

Definition Edge_eqb (a b : Edge) : bool :=
  (e_first a =? e_first b) && (e_second a =? e_second b).

Definition connected (a b : Edge) : Z :=
  if (e_first a =? e_first b) || (e_first a =? e_second b) then e_first a
  else if (e_second a =? e_first b) || (e_second a =? e_second b) then e_second a
  else -1.

Definition contains (a : Edge) (nid : Z) : bool :=
  (nid =? e_first a) || (nid =? e_second a).

(** Modelled from the spec: the class [DirectedEdge]. "A pair (gid_lo, gid_hi)
    [...] optionally annotated with the LID of the vertex inserted on it":
    [de_id] is [None] until the vertex gets its id. *)
Record DirectedEdge : Set := mkDirectedEdge {
  de_first : Z;
  de_second : Z;
  de_id : option Z
}.

Definition with_id (v : DirectedEdge) (id : Z) : DirectedEdge :=
  mkDirectedEdge (de_first v) (de_second v) (Some id).

(** ** The mesh *)

(** Modelled from the spec: the state of [Mesh<real_t, index_t>] that the
    driver reads and writes (section 3 and section 6 of the specification). *)
Record Mesh : Type := mkMesh {
  ndims : Z;
  _coords : list float;          (* d entries per vertex *)
  metric : list float;           (* d*d entries per vertex *)
  _ENList : list Z;              (* nloc entries per element *)
  NNList : list (list Z);        (* neighbours of every vertex *)
  NEList : list (list Z);        (* elements around every vertex *)
  recv : list (list Z);
  send : list (list Z);
  recv_halo : list Z;
  send_halo : list Z
}.

Definition nloc_of (d : Z) : Z := if d =? 2 then 3 else 4.

(** Modelled from the spec: [get_number_nodes], "coordinate/metric arrays
    [...] have length equal to the current vertex count". *)
Definition get_number_nodes (m : Mesh) : Z := size (_coords m) / ndims m.

(** Modelled from the spec: [get_number_elements], the element array holds
    [nloc] entries per element. *)
Definition get_number_elements (m : Mesh) : Z := size (_ENList m) / nloc_of (ndims m).

(** Modelled from the spec: [get_element(i)], a view of the [nloc] vertices of
    element [i]. *)
Definition get_element (m : Mesh) (i : Z) : result (list Z) :=
  slice (_ENList m) (i * nloc_of (ndims m)) (nloc_of (ndims m)).

(** Modelled from the spec: [get_coords(n)], the d coordinates of vertex
    [n]. *)
Definition get_coords (m : Mesh) (n : Z) : result (list float) :=
  slice (_coords m) (n * ndims m) (ndims m).

(** Modelled from the spec: [get_metric(n)], the d*d metric entries of vertex
    [n]. *)
Definition get_metric (m : Mesh) (n : Z) : result (list float) :=
  slice (metric m) (n * (ndims m * ndims m)) (ndims m * ndims m).

Definition set_ENList (m : Mesh) (l : list Z) : Mesh :=
  mkMesh (ndims m) (_coords m) (metric m) l (NNList m) (NEList m)
         (recv m) (send m) (recv_halo m) (send_halo m).

(** Modelled from the spec: [erase_element(i)], "an erased element is marked
    by setting its first LID to a negative sentinel". *)
Definition erase_element (m : Mesh) (i : Z) : result Mesh :=
  do l <- vset (_ENList m) (i * nloc_of (ndims m)) (-1);
  Ok (set_ENList m l).

(** ** The collaborators *)

(** What the diagnostic of [refine_edge] prints. *)
Record Diagnostic : Set := mkDiagnostic {
  diag_m0 : float;
  diag_m1 : float;
  diag_weight : float
}.

Class Collaborators : Type := {
  (** [Mesh::calc_edge_length(nid0, nid1)] *)
  calc_edge_length : Mesh -> Z -> Z -> float;
  (** [ElementProperty::length(x0, x1, m)] *)
  property_length : list float -> list float -> list float -> float;
  (** [ElementProperty::area] and [ElementProperty::volume], on the
      coordinates of the vertices *)
  property_area : list (list float) -> float;
  property_volume : list (list float) -> float;
  (** [MPI_Scan] of the vertex counts, own count subtracted *)
  scan_offset : Z;
  (** [Mesh::halo_update]: the value received for a ghost vertex *)
  halo_gid : Z -> option Z;
  (** what the other ranks add to [new_edges_size] in [MPI_Allreduce],
      per sweep of the propagation loop *)
  remote_new_edges : nat -> Z;
  (** the surface and [Surface::refine(refined_edges, lnn2gnn)] *)
  Surface : Type;
  surface_refine : Surface -> list (list Z) -> list Z -> Surface;
  (** [Mesh::create_adjancy()] *)
  create_adjancy : Mesh -> Mesh;
  (** what a read of [lnn2gnn] past its end finds in memory *)
  stray : Z -> Z
}.

(** ** The driver *)

(** The buffers of the (one) worker and the error stream. *)
Record Worker : Type := mkWorker {
  newVertices : list DirectedEdge;
  newCoords : list float;
  newMetric : list float;
  newElements : list Z;
  splitCnt : Z;
  threadIdx : Z;
  cerr : list Diagnostic
}.

Definition empty_worker : Worker := mkWorker [] [] [] [] 0 0 [].

(** [get_tid()] without OpenMP. *)
Definition get_tid : Z := 0.

Section Driver.
Context `{Collaborators}.

(** [lnn2gnn[k]]. *)
Definition gnn (lnn2gnn : list Z) (k : Z) : Z :=
  match (if 0 <=? k then lnn2gnn !! Z.to_nat k else None) with
  | Some g => g
  | None => stray k
  end.

(** The swap at the head of [refine_edge], [mark_edge] and [get_new_vertex]:
    "we want the lesser gnn first". *)
Definition lesser_first (lnn2gnn : list Z) (n0 n1 : Z) : Z * Z :=
  if gnn lnn2gnn n0 >? gnn lnn2gnn n1 then (n1, n0) else (n0, n1).

(** [a + weight*(b - a)], for a coordinate or a metric entry. *)
Definition interpolate (weight a b : float) : float := (a + weight * (b - a))%float.

(** The loop over the d*d metric entries of [refine_edge]. *)
Fixpoint push_metric (weight : float) (m0 m1 : list float)
    (metric_buf : list float) (log : list Diagnostic) : list float * list Diagnostic :=
  match m0, m1 with
  | a :: m0', b :: m1' =>
      let m := interpolate weight a b in
      push_metric weight m0' m1' (metric_buf ++ [m])
        (if is_nan m then log ++ [mkDiagnostic a b weight] else log)
  | _, _ => (metric_buf, log)
  end.

(** [1.0/(1.0 + sqrt(property->length(x0, x1, m0)/property->length(x0, x1, m1)))]. *)
Definition edge_weight (x0 x1 m0 m1 : list float) : float :=
  (1 / (1 + sqrt (property_length x0 x1 m0 / property_length x0 x1 m1)))%float.

(** [refine_edge(n0, n1, newVertices, coords, metric)], on the buffers of the
    worker. *)
Definition refine_edge (m : Mesh) (lnn2gnn : list Z) (n0 n1 : Z) (w : Worker)
  : result Worker :=
  let '(n0, n1) := lesser_first lnn2gnn n0 n1 in
  let vertices := newVertices w
                  ++ [mkDirectedEdge (gnn lnn2gnn n0) (gnn lnn2gnn n1) None] in
  do x0 <- get_coords m n0;
  do m0 <- get_metric m n0;
  do x1 <- get_coords m n1;
  do m1 <- get_metric m n1;
  let weight := edge_weight x0 x1 m0 m1 in
  let coords := newCoords w ++ zip_with (interpolate weight) x0 x1 in
  let '(metric_buf, log) := push_metric weight m0 m1 (newMetric w) (cerr w) in
  Ok (mkWorker vertices coords metric_buf (newElements w) (splitCnt w) (threadIdx w) log).

(** [while(NNList[n0][pos] != n1) ++pos], on the entries from [pos] on. *)
Fixpoint scan_neighbours (nn : list Z) (n1 : Z) (pos : Z) : result Z :=
  match nn with
  | [] => Fail OutOfBounds
  | x :: rest => if x =? n1 then Ok pos else scan_neighbours rest n1 (pos + 1)
  end.

(** [mark_edge(n0, n1, refined_edges)]. *)
Definition mark_edge (m : Mesh) (lnn2gnn : list Z) (n0 n1 : Z)
    (refined_edges : list (list Z)) : result (list (list Z)) :=
  let '(n0, n1) := lesser_first lnn2gnn n0 n1 in
  do nn <- vget (NNList m) n0;
  do pos <- scan_neighbours nn n1 0;
  set_slot refined_edges n0 (2 * pos) index_max.

(** The position of [n1] in a neighbour list, if it occurs. *)
Fixpoint find_neighbour (nn : list Z) (n1 : Z) (pos : Z) : option Z :=
  match nn with
  | [] => None
  | x :: rest => if x =? n1 then Some pos else find_neighbour rest n1 (pos + 1)
  end.

(** Modelled from the spec: [Mesh::get_new_vertex], "LID of new vertex on edge
    (a,b) or -1"; "the pair is only populated at the endpoint with the lesser
    GID", so the slot read is the one of that endpoint, and an edge that is
    not in its neighbour list has no new vertex. *)
Definition get_new_vertex (m : Mesh) (lnn2gnn : list Z) (n0 n1 : Z)
    (refined_edges : list (list Z)) : result Z :=
  let '(n0, n1) := lesser_first lnn2gnn n0 n1 in
  do nn <- vget (NNList m) n0;
  match find_neighbour nn n1 0 with
  | Some pos => get_slot refined_edges n0 (2 * pos)
  | None => Ok (-1)
  end.

(** *** Numbering and ownership *)

(** "Calculate the global numbering offset for this partition." *)
Definition gnn_offset (nprocs : Z) : Z :=
  if nprocs >? 1 then scan_offset else 0.

(** [lnn2gnn[i] = gnn_offset+i] for every vertex, then the halo update. *)
Definition init_lnn2gnn (nprocs NNodes : Z) : list Z :=
  map (fun i => match halo_gid i with
                | Some g => g
                | None => to_index (gnn_offset nprocs + i)
                end)
      (seqZ 0 NNodes).

(** [gnn2lnn[lnn2gnn[i]] = i], in the order of the vertices. *)
Definition init_gnn2lnn (gnn2lnn : gmap Z Z) (lnn2gnn : list Z) (NNodes : Z)
  : gmap Z Z :=
  fold_left (fun g i => <[gnn lnn2gnn i := i]> g) (seqZ 0 NNodes) gnn2lnn.

(** [node_owner[*it] = i] for every entry of [recv[i]]. *)
Definition owners_from_recv (nprocs : Z) (recv_lists : list (list Z))
    (node_owner : list Z) : result (list Z) :=
  foldM (fun owner i =>
           do received <- vget recv_lists i;
           foldM (fun owner it => vset owner it i) owner received)
        node_owner (seqZ 0 nprocs).

(** "Calculate node ownership." *)
Definition init_node_owner (rank nprocs : Z) (m : Mesh) (NNodes : Z)
  : result (list Z) :=
  let node_owner := replicate (Z.to_nat NNodes) rank in
  if nprocs >? 1 then owners_from_recv nprocs (recv m) node_owner
  else Ok node_owner.

(** *** Edge selection *)

(** [splitCnt[tid]++]. *)
Definition bump_splitCnt (w : Worker) : Worker :=
  mkWorker (newVertices w) (newCoords w) (newMetric w) (newElements w)
           (to_size (splitCnt w + 1)) (threadIdx w) (cerr w).

(** The three statements that stage a new vertex on the edge at position
    [it] of vertex [i]: offset, tag, [refine_edge]. *)
Definition stage_edge (m : Mesh) (lnn2gnn : list Z) (i it otherVertex : Z)
    (st : list (list Z) * Worker) : result (list (list Z) * Worker) :=
  let '(refined_edges, w) := st in
  do re1 <- set_slot refined_edges i (2 * it) (to_index (splitCnt w));
  do re2 <- set_slot re1 i (2 * it + 1) get_tid;
  do w' <- refine_edge m lnn2gnn i otherVertex (bump_splitCnt w);
  Ok (re2, w').

(** The loop over the neighbours of vertex [i], from position [it] on. *)
Fixpoint select_edges (L_max : float) (m : Mesh) (lnn2gnn : list Z) (i it : Z)
    (nn : list Z) (st : list (list Z) * Worker) : result (list (list Z) * Worker) :=
  match nn with
  | [] => Ok st
  | otherVertex :: rest =>
      do st' <- (if gnn lnn2gnn i <? gnn lnn2gnn otherVertex then
                   let length := calc_edge_length m i otherVertex in
                   if (L_max <? length)%float
                   then stage_edge m lnn2gnn i it otherVertex st
                   else Ok st
                 else Ok st);
      select_edges L_max m lnn2gnn i (it + 1) rest st'
  end.

(** The body of the loop over the vertices: the row of [i] is allocated,
    then its edges are examined. *)
Definition select_vertex (L_max : float) (m : Mesh) (lnn2gnn : list Z)
    (st : list (list Z) * Worker) (i : Z) : result (list (list Z) * Worker) :=
  let '(refined_edges, w) := st in
  do nn <- vget (NNList m) i;
  do row <- vget refined_edges i;
  do re <- vset refined_edges i (resize (Z.to_nat (2 * size nn)) (-1) row);
  select_edges L_max m lnn2gnn i 0 nn (re, w).

(** "Loop through all edges and select them for refinement if its length is
    greater than L_max in transformed space." *)
Definition edge_selection (L_max : float) (m : Mesh) (lnn2gnn : list Z) (NNodes : Z)
  : result (list (list Z) * Worker) :=
  foldM (select_vertex L_max m lnn2gnn)
        (replicate (Z.to_nat NNodes) [], empty_worker) (seqZ 0 NNodes).

(** *** Conforming propagation (3D) *)

(** The pairs [(n[j], n[k])], [j < k], in the order of the two nested loops. *)
Fixpoint element_edges (n : list Z) : list (Z * Z) :=
  match n with
  | [] => []
  | a :: rest => map (pair a) rest ++ element_edges rest
  end.

(** "Find what edges have been split in this element." *)
Definition split_set (m : Mesh) (lnn2gnn : list Z) (refined_edges : list (list Z))
    (n : list Z) : result (list Edge) :=
  foldM (fun acc '(a, b) =>
           do v <- get_new_vertex m lnn2gnn a b refined_edges;
           Ok (if v >=? 0 then acc ++ [Edge_of a b] else acc))
        [] (element_edges n).

(** "Refine unsplit edges": the marked slots and how many edges were marked. *)
Definition mark_unsplit (m : Mesh) (lnn2gnn : list Z) (n : list Z)
    (splits : list Edge) (refined_edges : list (list Z))
  : result (list (list Z) * Z) :=
  foldM (fun '(re, marked) '(a, b) =>
           if existsb (Edge_eqb (Edge_of a b)) splits then Ok (re, marked)
           else do re' <- mark_edge m lnn2gnn a b re; Ok (re', marked + 1))
        (refined_edges, 0) (element_edges n).

(** [(n0 == e.first) ? e.second : e.first]. *)
Definition other_end (e : Edge) (n0 : Z) : Z :=
  if n0 =? e_first e then e_second e else e_first e.

(** The vertices shared by pairs of three edges, as a set. *)
Definition shared_vertices (s0 s1 s2 : Edge) : list Z :=
  remove_dups
    (filter (fun nid => 0 <= nid) [connected s0 s1; connected s0 s2; connected s1 s2]).

(** The body of the loop over the elements: the case table. The state is
    [refined_edges] and [new_edges_size]. *)
Definition propagate_element (m : Mesh) (lnn2gnn : list Z)
    (st : list (list Z) * Z) (i : Z) : result (list (list Z) * Z) :=
  let '(refined_edges, new_edges_size) := st in
  do n <- get_element m i;
  do first <- vget n 0;
  if first <? 0 then Ok st else
  do splits <- split_set m lnn2gnn refined_edges n;
  match splits with
  | [s0; s1] =>
      let n0 := connected s0 s1 in
      if n0 >=? 0 then
        do re <- mark_edge m lnn2gnn (other_end s0 n0) (other_end s1 n0) refined_edges;
        Ok (re, new_edges_size + 1)
      else Ok st
  | [s0; s1; s2] =>
      if size (shared_vertices s0 s1 s2) =? 3 then Ok st
      else
        do '(re, _) <- mark_unsplit m lnn2gnn n splits refined_edges;
        Ok (re, new_edges_size)
  | [_; _; _; _] =>
      do '(re, _) <- mark_unsplit m lnn2gnn n splits refined_edges;
      Ok (re, new_edges_size)
  | [_; _; _; _; _] =>
      do '(re, marked) <- mark_unsplit m lnn2gnn n splits refined_edges;
      Ok (re, new_edges_size + marked)
  | _ => Ok st
  end.

(** One pass over the elements, from [new_edges_size = 0]. *)
Definition propagate_sweep (m : Mesh) (lnn2gnn : list Z) (NElements : Z)
    (refined_edges : list (list Z)) : result (list (list Z) * Z) :=
  foldM (propagate_element m lnn2gnn) (refined_edges, 0) (seqZ 0 NElements).

(** "Loop through all edges and refine those which have been marked". *)
Fixpoint realise_edges (m : Mesh) (lnn2gnn : list Z) (i it : Z) (nn : list Z)
    (st : list (list Z) * Worker) : result (list (list Z) * Worker) :=
  match nn with
  | [] => Ok st
  | otherVertex :: rest =>
      do v <- get_slot (fst st) i (2 * it);
      do st' <- (if v =? index_max then stage_edge m lnn2gnn i it otherVertex st
                 else Ok st);
      realise_edges m lnn2gnn i (it + 1) rest st'
  end.

(** The body of the loop over the vertices of that pass. *)
Definition realise_vertex (m : Mesh) (lnn2gnn : list Z)
    (st : list (list Z) * Worker) (i : Z) : result (list (list Z) * Worker) :=
  do nn <- vget (NNList m) i;
  realise_edges m lnn2gnn i 0 nn st.

(** The loop [for(;;)]: [sweep] counts the sweeps already made, [fuel] bounds
    the sweeps the model follows. *)
Fixpoint propagate (fuel sweep : nat) (nprocs : Z) (m : Mesh) (lnn2gnn : list Z)
    (NNodes NElements : Z) (st : list (list Z) * Worker)
  : result (list (list Z) * Worker) :=
  match fuel with
  | O => Fail OutOfFuel
  | S fuel' =>
      do '(re, new_edges_size) <- propagate_sweep m lnn2gnn NElements (fst st);
      let total := if nprocs >? 1 then new_edges_size + remote_new_edges sweep
                   else new_edges_size in
      if total =? 0 then Ok (re, snd st)
      else
        do st' <- foldM (realise_vertex m lnn2gnn) (re, snd st) (seqZ 0 NNodes);
        propagate fuel' (S sweep) nprocs m lnn2gnn NNodes NElements st'
  end.

(** *** Insertion of the new vertices *)

(** A loop that rewrites every entry of a vector, and may stop the run. *)
Fixpoint mapM {A B : Type} (f : A -> result B) (l : list A) : result (list B) :=
  match l with
  | [] => Ok []
  | x :: rest => do y <- f x; do ys <- mapM f rest; Ok (y :: ys)
  end.

(** "Fix IDs of new vertices in refined_edges": one row, the iterator
    advancing by two slots. *)
Fixpoint fix_ids (threadIdxs : list Z) (row : list Z) : result (list Z) :=
  match row with
  | [] => Ok []
  | v :: tag :: rest =>
      do v' <- (if v =? -1 then Ok v
                else do t <- vget threadIdxs tag; Ok (to_index (v + t)));
      do rest' <- fix_ids threadIdxs rest;
      Ok (v' :: tag :: rest')
  | [_] => Fail OutOfBounds
  end.

Definition set_vertex_arrays (m : Mesh) (coords met : list float)
    (nelist nnlist : list (list Z)) : Mesh :=
  mkMesh (ndims m) coords met (_ENList m) nnlist nelist
         (recv m) (send m) (recv_halo m) (send_halo m).

(** The offset of the worker's block after the prefix sum over the workers:
    with one worker the [while] loop is not entered. *)
Definition block_start (count cnt : Z) : Z :=
  to_size (cnt + to_size (count - cnt)).

(** "Insert new vertices into mesh": the containers are resized, the
    buffers copied behind the original vertices, the new vertices get their
    ids and the staged slots of [refined_edges] become ids. *)
Definition insert_vertices (m : Mesh) (node_owner : list Z) (NNodes : Z)
    (refined_edges : list (list Z)) (w : Worker)
  : result (Mesh * list Z * list (list Z) * Worker) :=
  let idx := block_start NNodes (splitCnt w) in
  let newSize := to_index (to_size (idx + splitCnt w)) in
  let d := ndims m in
  do coords <- vresize (_coords m) (d * newSize) 0%float;
  do met <- vresize (metric m) (d * d * newSize) 0%float;
  do nelist <- vresize (NEList m) newSize [];
  do nnlist <- vresize (NNList m) newSize [];
  do owner <- vresize node_owner newSize (-1);
  do coords' <- memcpy coords (d * idx) (newCoords w) (d * splitCnt w);
  do met' <- memcpy met (d * d * idx) (newMetric w) (d * d * splitCnt w);
  if negb (size (newVertices w) =? splitCnt w) then Fail AssertFailed else
  let vertices := imap (fun i v => with_id v (to_index (idx + Z.of_nat i)))
                       (newVertices w) in
  do re <- mapM (fix_ids [idx]) refined_edges;
  Ok (set_vertex_arrays m coords' met' nelist nnlist, owner, re,
      mkWorker vertices (newCoords w) (newMetric w) (newElements w)
               (splitCnt w) idx (cerr w)).

(** *** Element refinement *)

(** [append_element] for each child, then [splitCnt[tid] += k]. *)
Definition emit (children : list (list Z)) (k : Z) (w : Worker) : Worker :=
  mkWorker (newVertices w) (newCoords w) (newMetric w)
           (fold_left (fun ENList elem => ENList ++ elem) children (newElements w))
           (to_size (splitCnt w + k)) (threadIdx w) (cerr w).

(** The first position [j], from [pos] on, whose entry satisfies [p]. *)
Fixpoint find_first (p : Z -> bool) (l : list Z) (pos : Z) : option (Z * Z) :=
  match l with
  | [] => None
  | x :: rest => if p x then Some (pos, x) else find_first p rest (pos + 1)
  end.

(** The two arguments given to [calc_edge_length] for the first and for the
    second diagonal of the two-split triangle. *)
Definition diagonal0_args (lnn2gnn : list Z) (vertexID0 rotated1 : Z) : Z * Z :=
  if gnn lnn2gnn vertexID0 <? gnn lnn2gnn rotated1
  then (vertexID0, rotated1) else (rotated1, vertexID0).

Definition diagonal1_args (lnn2gnn : list Z) (vertexID1 rotated2 : Z) : Z * Z :=
  if gnn lnn2gnn vertexID1 <? rotated2
  then (vertexID1, rotated2) else (rotated2, vertexID1).

(** [offset = ldiag0 < ldiag1 ? 0 : 1]. *)
Definition diagonal_offset (ldiag0 ldiag1 : float) : Z :=
  if (ldiag0 <? ldiag1)%float then 0 else 1.

(** The children of the two-split triangle. *)
Definition two_split_children (rotated_ele vertexID : list Z) (offset : Z)
  : result (list (list Z)) :=
  do r0 <- vget rotated_ele 0;
  do r1 <- vget rotated_ele 1;
  do r2 <- vget rotated_ele 2;
  do v0 <- vget vertexID 0;
  do v1 <- vget vertexID 1;
  do voff <- vget vertexID offset;
  do roff <- vget rotated_ele (offset + 1);
  Ok [[r0; v1; v0]; [voff; r1; r2]; [v0; v1; roff]].

(** The body for a triangle. [None] is [continue]: the parent is kept. *)
Definition refine_2d (m : Mesh) (lnn2gnn : list Z) (refined_edges : list (list Z))
    (n : list Z) (w : Worker) : result (option Worker) :=
  do n0 <- vget n 0;
  do n1 <- vget n 1;
  do n2 <- vget n 2;
  do nv0 <- get_new_vertex m lnn2gnn n1 n2 refined_edges;
  do nv1 <- get_new_vertex m lnn2gnn n2 n0 refined_edges;
  do nv2 <- get_new_vertex m lnn2gnn n0 n1 refined_edges;
  let newVertex := [nv0; nv1; nv2] in
  let refine_cnt := size (filter (fun v => 0 <= v) newVertex) in
  if refine_cnt =? 0 then Ok None
  else if refine_cnt =? 1 then
    match find_first (fun v => v >=? 0) newVertex 0 with
    | None => Fail AssertFailed
    | Some (j, vertexID) =>
        do r0 <- vget n (j mod 3);
        do r1 <- vget n ((j + 1) mod 3);
        do r2 <- vget n ((j + 2) mod 3);
        Ok (Some (emit [[r0; r1; vertexID]; [r0; vertexID; r2]] 2 w))
    end
  else if refine_cnt =? 2 then
    match find_first (fun v => v <? 0) newVertex 0 with
    | None => Fail Uninitialised
    | Some (j, _) =>
        do v0 <- vget newVertex ((j + 1) mod 3);
        do v1 <- vget newVertex ((j + 2) mod 3);
        do r0 <- vget n (j mod 3);
        do r1 <- vget n ((j + 1) mod 3);
        do r2 <- vget n ((j + 2) mod 3);
        let '(a0, b0) := diagonal0_args lnn2gnn v0 r1 in
        let ldiag0 := calc_edge_length m a0 b0 in
        let '(a1, b1) := diagonal1_args lnn2gnn v1 r2 in
        let ldiag1 := calc_edge_length m a1 b1 in
        let offset := diagonal_offset ldiag0 ldiag1 in
        do children <- two_split_children [r0; r1; r2] [v0; v1] offset;
        Ok (Some (emit children 3 w))
    end
  else if refine_cnt =? 3 then
    Ok (Some (emit [[n0; nv2; nv1]; [n1; nv0; nv2]; [n2; nv1; nv0]; [nv0; nv1; nv2]] 4 w))
  else Ok (Some w).

(** [newVertex] and [splitEdges] of a tetrahedron. *)
Definition split_edges (m : Mesh) (lnn2gnn : list Z) (refined_edges : list (list Z))
    (n : list Z) : result (list Z * list Edge) :=
  foldM (fun '(newVertex, splitEdges) '(a, b) =>
           do vertexID <- get_new_vertex m lnn2gnn a b refined_edges;
           Ok (if vertexID >=? 0
               then (newVertex ++ [vertexID], splitEdges ++ [Edge_of a b])
               else (newVertex, splitEdges)))
        ([], []) (element_edges n).

(** The templates of a tetrahedron, by the number of split edges. [None] is
    [continue]; a count without a branch leaves the worker as it is. *)
Definition apply_3d_template (n newVertex : list Z) (splitEdges : list Edge)
    (w : Worker) : result (option Worker) :=
  match newVertex, splitEdges with
  | [], _ => Ok None
  | [v0], s0 :: _ =>
      match filter (fun x => negb (contains s0 x)) n with
      | [oe0; oe1] =>
          Ok (Some (emit [[e_first s0; v0; oe0; oe1]; [e_second s0; v0; oe0; oe1]] 2 w))
      | _ :: _ :: _ :: _ => Fail OutOfBounds
      | _ => Fail Uninitialised
      end
  | [v0; v1], s0 :: s1 :: _ =>
      Ok (Some (emit [[e_first s0; v0; e_first s1; v1];
                      [e_first s0; v0; e_second s1; v1];
                      [e_second s0; v0; e_first s1; v1];
                      [e_second s0; v0; e_second s1; v1]] 4 w))
  | [v0; v1; v2], s0 :: s1 :: s2 :: _ =>
      let m0 := e_first s0 in
      let m1 := v0 in
      let m2 := e_second s0 in
      let '(m3, m4, m5) :=
        if contains s1 m2
        then (v1, (if negb (e_first s1 =? m2) then e_first s1 else e_second s1), v2)
        else (v2, (if negb (e_first s2 =? m2) then e_first s2 else e_second s2), v1) in
      let m6 :=
        match find_first (fun x => negb (x =? m0) && negb (x =? m2) && negb (x =? m4)) n 0 with
        | Some (_, x) => x
        | None => -1
        end in
      Ok (Some (emit [[m0; m1; m5; m6]; [m1; m2; m3; m6];
                      [m5; m3; m4; m6]; [m1; m3; m5; m6]] 4 w))
  | [v0; v1; v2; v3; v4; v5], _ =>
      do n0 <- vget n 0;
      do n1 <- vget n 1;
      do n2 <- vget n 2;
      do n3 <- vget n 3;
      Ok (Some (emit [[n0; v0; v1; v2]; [n1; v3; v0; v4]; [n2; v1; v3; v5];
                      [v0; v3; v1; v4]; [v0; v4; v1; v2]; [v1; v3; v5; v4];
                      [v1; v4; v5; v2]; [v2; v4; v5; n3]] 8 w))
  | _, _ => Ok (Some w)
  end.

(** The body for a tetrahedron. *)
Definition refine_3d (m : Mesh) (lnn2gnn : list Z) (refined_edges : list (list Z))
    (n : list Z) (w : Worker) : result (option Worker) :=
  do '(newVertex, splitEdges) <- split_edges m lnn2gnn refined_edges n;
  apply_3d_template n newVertex splitEdges w.

(** The body of the loop over the elements, up to and with "Remove parent
    element". *)
Definition refine_element (lnn2gnn : list Z) (refined_edges : list (list Z))
    (st : Mesh * Worker) (i : Z) : result (Mesh * Worker) :=
  let '(m, w) := st in
  do n <- get_element m i;
  do first <- vget n 0;
  if first <? 0 then Ok st else
  do r <- (if ndims m =? 2 then refine_2d m lnn2gnn refined_edges n w
           else refine_3d m lnn2gnn refined_edges n w);
  match r with
  | None => Ok st
  | Some w' => do m' <- erase_element m i; Ok (m', w')
  end.

(** [splitCnt[tid] = 0]. *)
Definition reset_splitCnt (w : Worker) : Worker :=
  mkWorker (newVertices w) (newCoords w) (newMetric w) (newElements w)
           0 (threadIdx w) (cerr w).

(** "Perform element refinement": the loop over the elements, then the
    children are appended to the element list of the mesh. *)
Definition element_refinement (m : Mesh) (lnn2gnn : list Z)
    (refined_edges : list (list Z)) (NElements : Z) (w : Worker)
  : result (Mesh * Worker) :=
  do '(m1, w1) <- foldM (refine_element lnn2gnn refined_edges)
                        (m, reset_splitCnt w) (seqZ 0 NElements);
  let idx := block_start NElements (splitCnt w1) in
  let newSize := to_index (to_size (idx + splitCnt w1)) in
  let nloc := nloc_of (ndims m1) in
  do enlist <- vresize (_ENList m1) (nloc * newSize) 0;
  do enlist' <- memcpy enlist (nloc * idx) (newElements w1) (nloc * splitCnt w1);
  Ok (set_ENList m1 enlist',
      mkWorker (newVertices w1) (newCoords w1) (newMetric w1) (newElements w1)
               (splitCnt w1) idx (cerr w1)).

(** *** The halo *)

(** [std::set<int>]: increasing, without repetition. *)
Fixpoint set_insert (x : Z) (s : list Z) : list Z :=
  match s with
  | [] => [x]
  | y :: rest =>
      if x <? y then x :: s
      else if y <? x then y :: set_insert x rest
      else s
  end.

(** Modelled from the spec: the order of [DirectedEdge] in a [std::set],
    "set iteration of (gid_lo,gid_hi) pairs". *)
Definition de_ltb (a b : DirectedEdge) : bool :=
  (de_first a <? de_first b)
  || ((de_first a =? de_first b) && (de_second a <? de_second b)).

Fixpoint de_insert (x : DirectedEdge) (s : list DirectedEdge) : list DirectedEdge :=
  match s with
  | [] => [x]
  | y :: rest =>
      if de_ltb x y then x :: s
      else if de_ltb y x then y :: de_insert x rest
      else s
  end.

(** [gnn2lnn[g]] of a [std::map]: an absent key reads as 0. *)
Definition lnn_of (gnn2lnn : gmap Z Z) (g : Z) : Z :=
  default 0 (gnn2lnn !! g).

(** The body of the loop over [newVertices[i]] that fills [lut_newVertices]
    and sets the owner of every new vertex. *)
Definition assign_owner (gnn2lnn : gmap Z Z)
    (st : gmap Z DirectedEdge * list Z) (vert : DirectedEdge)
  : result (gmap Z DirectedEdge * list Z) :=
  let '(lut_newVertices, node_owner) := st in
  match de_id vert with
  | None => Fail Uninitialised
  | Some id =>
      match lut_newVertices !! id with
      | Some _ => Fail AssertFailed
      | None =>
          do owner0 <- vget node_owner (lnn_of gnn2lnn (de_first vert));
          do owner1 <- vget node_owner (lnn_of gnn2lnn (de_second vert));
          let owner := Z.min owner0 owner1 in
          do node_owner' <- vset node_owner id owner;
          Ok (<[id := vert]> lut_newVertices, node_owner')
      end
  end.

Definition assign_owners (gnn2lnn : gmap Z Z) (node_owner : list Z)
    (vertices : list DirectedEdge) : result (gmap Z DirectedEdge * list Z) :=
  foldM (assign_owner gnn2lnn) (∅, node_owner) vertices.

(** [lut_newVertices[n]]. *)
Definition lut_get (lut : gmap Z DirectedEdge) (n : Z) : result DirectedEdge :=
  match lut !! n with
  | Some v => Ok v
  | None => Fail Uninitialised
  end.

Definition add_to (sets : list (list DirectedEdge)) (p : Z) (v : DirectedEdge)
  : result (list (list DirectedEdge)) :=
  do s <- vget sets p;
  vset sets p (de_insert v s).

(** The loop over the vertices of an element that strides a halo. The state
    is [send_additional] and [recv_additional]. *)
Definition halo_vertex (rank origNNodes : Z) (node_owner : list Z)
    (lut : gmap Z DirectedEdge) (processes : list Z)
    (st : list (list DirectedEdge) * list (list DirectedEdge)) (nj : Z)
  : result (list (list DirectedEdge) * list (list DirectedEdge)) :=
  let '(send_additional, recv_additional) := st in
  if nj <? origNNodes then Ok st else
  do owner <- vget node_owner nj;
  do v <- lut_get lut nj;
  if owner =? rank then
    do sends <- foldM (fun acc ip => if ip =? rank then Ok acc else add_to acc ip v)
                      send_additional processes;
    Ok (sends, recv_additional)
  else
    do recvs <- add_to recv_additional owner v;
    Ok (send_additional, recvs).

(** The body of the loop over the new elements. *)
Definition halo_element (rank origNNodes : Z) (node_owner : list Z)
    (lut : gmap Z DirectedEdge)
    (st : Mesh * (list (list DirectedEdge) * list (list DirectedEdge))) (i : Z)
  : result (Mesh * (list (list DirectedEdge) * list (list DirectedEdge))) :=
  let '(m, additional) := st in
  do n <- get_element m i;
  do first <- vget n 0;
  if first <? 0 then Ok st else
  do owners <- mapM (vget node_owner) n;
  let processes := fold_left (fun s p => set_insert p s) owners [] in
  if existsb (Z.eqb (-1)) processes then Fail AssertFailed else
  if negb (existsb (Z.eqb rank) processes) then
    do m' <- erase_element m i; Ok (m', additional)
  else if size processes =? 1 then Ok st
  else
    do additional' <- foldM (halo_vertex rank origNNodes node_owner lut processes)
                            additional n;
    Ok (m, additional').

Definition id_of (v : DirectedEdge) : result Z :=
  match de_id v with
  | Some id => Ok id
  | None => Fail Uninitialised
  end.

(** [lists[i].push_back(it->id)] and [halo.insert(it->id)] for every entry of
    [additional[i]]. *)
Definition extend_halo (nprocs : Z) (additional : list (list DirectedEdge))
    (lists : list (list Z)) (halo : list Z) : result (list (list Z) * list Z) :=
  foldM (fun '(lists, halo) i =>
           do entries <- vget additional i;
           foldM (fun '(lists, halo) it =>
                    do id <- id_of it;
                    do l <- vget lists i;
                    do lists' <- vset lists i (l ++ [id]);
                    Ok (lists', set_insert id halo))
                 (lists, halo) entries)
        (lists, halo) (seqZ 0 nprocs).

Definition set_halo (m : Mesh) (sends : list (list Z)) (send_set : list Z)
    (recvs : list (list Z)) (recv_set : list Z) : Mesh :=
  mkMesh (ndims m) (_coords m) (metric m) (_ENList m) (NNList m) (NEList m)
         recvs sends recv_set send_set.

(** "Time to ammend halo", for [nprocs > 1]. *)
Definition amend_halo (rank nprocs : Z) (gnn2lnn : gmap Z Z) (m : Mesh)
    (node_owner : list Z) (w : Worker) (origNNodes origNElements NElements : Z)
  : result (Mesh * list Z) :=
  do '(lut, owner) <- assign_owners gnn2lnn node_owner (newVertices w);
  let empty := replicate (Z.to_nat nprocs) [] in
  do '(m1, (send_additional, recv_additional)) <-
     foldM (halo_element rank origNNodes owner lut) (m, (empty, empty))
           (seqZ origNElements (NElements - origNElements));
  do '(sends, send_set) <- extend_halo nprocs send_additional (send m1) (send_halo m1);
  do '(recvs, recv_set) <- extend_halo nprocs recv_additional (recv m1) (recv_halo m1);
  Ok (set_halo m1 sends send_set recvs recv_set, owner).

(** The block [if(nprocs>1){ ... }]. *)
Definition halo_phase (rank nprocs : Z) (gnn2lnn : gmap Z Z) (m : Mesh)
    (node_owner : list Z) (w : Worker) (origNNodes origNElements NElements : Z)
  : result (Mesh * list Z) :=
  if nprocs >? 1
  then amend_halo rank nprocs gnn2lnn m node_owner w origNNodes origNElements NElements
  else Ok (m, node_owner).

(** *** Orientation *)

(** The body of "Fix orientations of new elements". *)
Definition fix_orientation (m : Mesh) (i : Z) : result Mesh :=
  let nloc := nloc_of (ndims m) in
  do n <- slice (_ENList m) (i * nloc) nloc;
  do n0 <- vget n 0;
  if n0 <? 0 then Ok m else
  do xs <- mapM (get_coords m) n;
  let av := if ndims m =? 2 then property_area xs else property_volume xs in
  if (av <? 0)%float then
    do n1 <- vget n 1;
    do l <- vset (_ENList m) (i * nloc) n1;
    do l' <- vset l (i * nloc + 1) n0;
    Ok (set_ENList m l')
  else Ok m.

(** *** [refine] *)

(** The members of the driver that [refine] reads and writes. *)
Record Refine : Type := mkRefine {
  rank : Z;
  nprocs : Z;
  lnn2gnn : list Z;
  gnn2lnn : gmap Z Z;
  node_owner : list Z
}.

(** What a call of [refine] leaves behind. *)
Record Refined : Type := mkRefined {
  out_mesh : Mesh;
  out_surface : Surface;
  out_driver : Refine;
  out_refined_edges : list (list Z);
  out_newVertices : list DirectedEdge;
  out_cerr : list Diagnostic
}.

(** [refine(L_max)]. *)
Definition refine (fuel : nat) (r : Refine) (m : Mesh) (surface : Surface)
    (L_max : float) : result Refined :=
  let NNodes := get_number_nodes m in
  let origNNodes := NNodes in
  let NElements := get_number_elements m in
  let origNElements := NElements in
  (* Establish global node numbering. *)
  let l2g := init_lnn2gnn (nprocs r) NNodes in
  let g2l := init_gnn2lnn (gnn2lnn r) l2g NNodes in
  (* Calculate node ownership. *)
  do owner <- init_node_owner (rank r) (nprocs r) m NNodes;
  (* Select the edges longer than L_max. *)
  do st <- edge_selection L_max m l2g NNodes;
  (* Conforming refinement. *)
  do '(re, w) <- (if ndims m =? 3
                  then propagate fuel 0 (nprocs r) m l2g NNodes NElements st
                  else Ok st);
  (* Insert new vertices into mesh. *)
  do '(m1, owner1, re1, w1) <- insert_vertices m owner NNodes re w;
  (* Perform element refinement. *)
  do '(m2, w2) <- element_refinement m1 l2g re1 NElements w1;
  let NNodes := get_number_nodes m2 in
  let NElements := get_number_elements m2 in
  (* Time to ammend halo. *)
  if negb (size owner1 =? NNodes) then Fail AssertFailed else
  do '(m3, owner3) <- halo_phase (rank r) (nprocs r) g2l m2 owner1 w2
                                 origNNodes origNElements NElements;
  (* Fix orientations of new elements. *)
  do m4 <- foldM fix_orientation m3
                 (seqZ NElements (get_number_elements m3 - NElements));
  (* Finally, refine surface; tidy up. *)
  Ok (mkRefined (create_adjancy m4) (surface_refine surface re1 l2g)
                (mkRefine (rank r) (nprocs r) l2g g2l owner3) re1
                (newVertices w2) (cerr w2)).

End Driver.

(** ** The other members of the driver *)

(** [append_element(elem, ENList)]: the first [nloc] entries of [elem] are
    pushed to the end of [ENList]. *)
Definition append_element (nloc : Z) (elem : list Z) (ENList : list Z)
  : result (list Z) :=
  do entries <- slice elem 0 nloc;
  Ok (ENList ++ entries).




(** *** The prefix sum over the workers *)

(** With OpenMP the two prefix sums of [refine] run on [nthreads] workers:
    [threadIdx] has one entry per worker, every worker executes the loop
    [while(blockSize < threadIdx.size())], and the barriers separate the
    reads of a round from its writes. A round is modelled as one step on the
    whole vector. *)

(** Arithmetic of [unsigned int] (32 bits). *)
Definition to_unsigned (z : Z) : Z := z mod 2 ^ 32.

(** [tmp] of worker [tid]: [threadIdx[tid - ((tid & (blockSize - 1)) + 1)]]
    if [(tid & blockSize) != 0], and 0 otherwise. *)
Definition scan_read (blockSize : Z) (threadIdx : list Z) (tid : Z) : result Z :=
  if negb (Z.land tid blockSize =? 0) then
    do x <- vget threadIdx
                 (to_unsigned
                    (tid - to_unsigned (Z.land tid (to_unsigned (blockSize - 1)) + 1)));
    Ok (to_unsigned x)
  else Ok 0.

(** One round: every worker reads its [tmp], then [threadIdx[tid] += tmp]. *)
Definition scan_round (blockSize : Z) (threadIdx : list Z) : result (list Z) :=
  do tmps <- mapM (scan_read blockSize threadIdx) (seqZ 0 (size threadIdx));
  Ok (zip_with (fun x tmp => to_size (x + tmp)) threadIdx tmps).

(** The loop [while(blockSize < threadIdx.size())], [blockSize] doubling;
    [fuel] bounds the rounds the model follows. *)
Fixpoint scan_rounds (fuel : nat) (blockSize : Z) (threadIdx : list Z)
  : result (list Z) :=
  match fuel with
  | O => Fail OutOfFuel
  | S fuel' =>
      if blockSize <? size threadIdx then
        do threadIdx' <- scan_round blockSize threadIdx;
        scan_rounds fuel' (to_unsigned (Z.shiftl blockSize 1)) threadIdx'
      else Ok threadIdx
  end.

(** [threadIdx] after [threadIdx[tid] = splitCnt[tid]], the loop and
    [threadIdx[tid] += count - splitCnt[tid]], where [count] is [NNodes] for
    the vertices and [NElements] for the elements. *)
Definition block_starts (fuel : nat) (count : Z) (splitCnt : list Z)
  : result (list Z) :=
  do sums <- scan_rounds fuel 1 splitCnt;
  Ok (zip_with (fun s cnt => to_size (s + to_size (count - cnt))) sums splitCnt).

(** [newSize = threadIdx[nthreads - 1] + splitCnt[nthreads - 1]]. *)
Definition new_size (nthreads : Z) (threadIdx splitCnt : list Z) : result Z :=
  do idx <- vget threadIdx (nthreads - 1);
  do cnt <- vget splitCnt (nthreads - 1);
  Ok (to_index (to_size (idx + cnt))).

(** ** Reference definitions for the statements *)

(** What [refine_edge] prints for the metric entries [m0], [m1] of the two
    ends: one diagnostic for every interpolated entry that is NaN. *)
Definition nan_diagnostics (weight : float) (m0 m1 : list float) : list Diagnostic :=
  map (fun p => mkDiagnostic (fst p) (snd p) weight)
      (filter (fun p => is_nan (interpolate weight (fst p) (snd p)) = true)
              (zip m0 m1)).

(** A new vertex as the ownership loop expects it: it has its id, beyond the
    [origNNodes] original vertices and inside [node_owner], and [gnn2lnn]
    sends the two GIDs of its edge to original vertices. *)
Definition well_placed (gnn2lnn : gmap Z Z) (origNNodes owners : Z)
    (v : DirectedEdge) : Prop :=
  (exists id : Z, de_id v = Some id /\ origNNodes <= id < owners) /\
  0 <= lnn_of gnn2lnn (de_first v) < origNNodes /\
  0 <= lnn_of gnn2lnn (de_second v) < origNNodes.

(** The recorded owner of the new vertex [v] is the lesser of the recorded
    owners of the two ends of its edge. *)
Definition owner_is_min (gnn2lnn : gmap Z Z) (node_owner : list Z)
    (v : DirectedEdge) : Prop :=
  exists id o0 o1 : Z,
    de_id v = Some id /\
    node_owner !! Z.to_nat (lnn_of gnn2lnn (de_first v)) = Some o0 /\
    node_owner !! Z.to_nat (lnn_of gnn2lnn (de_second v)) = Some o1 /\
    node_owner !! Z.to_nat id = Some (Z.min o0 o1).

(** A mesh as the driver expects it: the arrays have the sizes that the
    vertex and element counts give, the counts fit an [int], and the vertices
    of every element that is not erased exist. *)
Record well_formed (m : Mesh) : Prop := {
  wf_dims : 0 < ndims m;
  wf_coords : size (_coords m) = ndims m * get_number_nodes m;
  wf_metric : size (metric m) = ndims m * ndims m * get_number_nodes m;
  wf_NNList : size (NNList m) = get_number_nodes m;
  wf_NEList : size (NEList m) = get_number_nodes m;
  wf_ENList : size (_ENList m) = nloc_of (ndims m) * get_number_elements m;
  wf_nodes : get_number_nodes m < 2 ^ 31;
  wf_elements : get_number_elements m < 2 ^ 31;
  wf_vertices :
    forall i n first,
      get_element m i = Ok n -> n !! 0%nat = Some first -> 0 <= first ->
      Forall (fun v => 0 <= v < get_number_nodes m) n
}.

(** The receive lists of a run on [nprocs] ranks name existing vertices. *)
Definition halo_in_range (nprocs : Z) (m : Mesh) : Prop :=
  1 < nprocs ->
  nprocs <= size (recv m) /\
  Forall (Forall (fun it => 0 <= it < get_number_nodes m)) (recv m).

(** [refined_edges] with every slot unset. *)
Definition unset_edges (m : Mesh) : list (list Z) :=
  map (fun nn => replicate (2 * length nn) (-1)) (NNList m).

(** The test of the edge-selection pass for the edge from [i] to its
    neighbour [u]. *)
Definition selected `{Collaborators} (L_max : float) (m : Mesh) (l2g : list Z)
    (i u : Z) : bool :=
  (gnn l2g i <? gnn l2g u) && (L_max <? calc_edge_length m i u)%float.

(** The two slots of position [t] of a row of [refined_edges]: staged (an
    offset below [bound] and the tag of the worker) or unset. *)
Definition slot_staged (row : list Z) (t : nat) (bound : Z) : Prop :=
  (exists off : Z, row !! (2 * t)%nat = Some off /\ 0 <= off < bound) /\
  row !! (2 * t + 1)%nat = Some get_tid.

Definition slot_unset (row : list Z) (t : nat) : Prop :=
  row !! (2 * t)%nat = Some (-1) /\ row !! (2 * t + 1)%nat = Some (-1).

Definition slot_settled `{Collaborators} (L_max : float) (m : Mesh) (l2g : list Z)
    (i : Z) (row : list Z) (bound : Z) (t : nat) (u : Z) : Prop :=
  if selected L_max m l2g i u then slot_staged row t bound else slot_unset row t.

(** Every entry of every neighbour list is a vertex of the mesh. *)
Definition neighbours_in_range (m : Mesh) : Prop :=
  Forall (Forall (fun u => 0 <= u < get_number_nodes m)) (NNList m).

(** Entry [k] of the triple [l] rotated by [j]: [l[(j+k)%3]]. *)
Definition rotated (l : list Z) (j k : nat) : Z :=
  nth ((j + k) mod 3) l 0.

(** ** Reference definitions for the further properties *)

(** The sum of the entries of a vector of counters. *)
Definition sum_of (l : list Z) : Z := foldr Z.add 0 l.

(** The sum of the entries [a .. b-1]. *)
Definition segment (l : list Z) (a b : Z) : Z :=
  sum_of (take (Z.to_nat (b - a)) (drop (Z.to_nat a) l)).

(** [threadIdx] before the round with [blockSize = 2^k]: worker [x] holds the
    sum of the counters of its block of [2^k] workers, up to its own. *)
Definition scanned (l : list Z) (k : Z) (threadIdx : list Z) : Prop :=
  length threadIdx = length l /\
  forall x : Z, 0 <= x < size l ->
    threadIdx !! Z.to_nat x = Some (segment l (x - x mod 2 ^ k) (x + 1)).

(** The collaborators [C] with another [ElementProperty::area] and
    [ElementProperty::volume]. *)
Definition with_orientation (C : Collaborators)
    (area volume : list (list float) -> float) : Collaborators := {|
  calc_edge_length := @calc_edge_length C;
  property_length := @property_length C;
  property_area := area;
  property_volume := volume;
  scan_offset := @scan_offset C;
  halo_gid := @halo_gid C;
  remote_new_edges := @remote_new_edges C;
  Surface := @Surface C;
  surface_refine := @surface_refine C;
  create_adjancy := @create_adjancy C;
  stray := @stray C
|}.

(** All that a run leaves behind, as a tuple. *)
Definition outcome `{Collaborators} (r : result Refined)
  : result (Mesh * Surface * Refine * list (list Z) * list DirectedEdge
            * list Diagnostic) :=
  do o <- r;
  Ok (out_mesh o, out_surface o, out_driver o, out_refined_edges o,
      out_newVertices o, out_cerr o).

(** [m'] has the dimension of [m] and an element array of the same length. *)
Definition same_shape (m m' : Mesh) : Prop :=
  ndims m' = ndims m /\ length (_ENList m') = length (_ENList m).

(** The vertex data of [m'] is the one of [m]. *)
Definition same_vertices (m m' : Mesh) : Prop :=
  ndims m' = ndims m /\ _coords m' = _coords m /\ metric m' = metric m /\
  NNList m' = NNList m /\ NEList m' = NEList m.

(** The halo of [m'] is the one of [m]. *)
Definition same_halo (m m' : Mesh) : Prop :=
  recv m' = recv m /\ send m' = send m /\
  recv_halo m' = recv_halo m /\ send_halo m' = send_halo m.

(** Vertex [v] is in the receive list of rank [p]. *)
Definition listed (m : Mesh) (p : nat) (v : Z) : Prop :=
  exists received : list Z, recv m !! p = Some received /\ v ∈ received.

(** The record that [refine_edge] pushes for the edge between [i] and [u]. *)
Definition edge_record `{Collaborators} (l2g : list Z) (i u : Z) : DirectedEdge :=
  mkDirectedEdge (gnn l2g (fst (lesser_first l2g i u)))
                 (gnn l2g (snd (lesser_first l2g i u))) None.

(** The coordinates and the metric that [refine_edge] computes for the new
    vertex of the edge between [i] and [u]. *)
Definition new_point `{Collaborators} (m : Mesh) (l2g : list Z) (i u : Z)
  : result (list float * list float) :=
  let lo := fst (lesser_first l2g i u) in
  let hi := snd (lesser_first l2g i u) in
  do x0 <- get_coords m lo;
  do m0 <- get_metric m lo;
  do x1 <- get_coords m hi;
  do m1 <- get_metric m hi;
  let weight := edge_weight x0 x1 m0 m1 in
  Ok (zip_with (interpolate weight) x0 x1, zip_with (interpolate weight) m0 m1).

(** The buffers of a worker are in step: the counter is the number of new
    vertices, and the coordinate and metric buffers hold d and d*d entries
    for each of them. *)
Definition in_step (m : Mesh) (w : Worker) : Prop :=
  splitCnt w = to_size (size (newVertices w)) /\
  size (newCoords w) = ndims m * size (newVertices w) /\
  size (newMetric w) = ndims m * ndims m * size (newVertices w).

(** Entries [k*len .. (k+1)*len - 1] of a buffer. *)
Definition block (buf : list float) (k len : Z) : list float :=
  take (Z.to_nat len) (drop (Z.to_nat (k * len)) buf).

(** Every slot that holds an offset names a staged vertex: the vertex at
    that offset is the one of the edge of the slot, and its blocks of the
    buffers are the point computed for that edge. *)
Definition linked `{Collaborators} (m : Mesh) (l2g : list Z)
    (re : list (list Z)) (w : Worker) : Prop :=
  forall (i t : nat) (row : list Z) (off : Z),
    re !! i = Some row -> row !! (2 * t)%nat = Some off ->
    off <> -1 -> off <> index_max ->
    0 <= off < size (newVertices w) /\
    exists (nn : list Z) (u : Z) (x mm : list float),
      NNList m !! i = Some nn /\ nn !! t = Some u /\
      newVertices w !! Z.to_nat off = Some (edge_record l2g (Z.of_nat i) u) /\
      new_point m l2g (Z.of_nat i) u = Ok (x, mm) /\
      block (newCoords w) off (ndims m) = x /\
      block (newMetric w) off (ndims m * ndims m) = mm.

(** The state of the passes that stage new vertices. *)
Definition staging `{Collaborators} (m : Mesh) (l2g : list Z)
    (st : list (list Z) * Worker) : Prop :=
  in_step m (snd st) /\
  newElements (snd st) = [] /\
  (size (newVertices (snd st)) < 2 ^ 31 -> linked m l2g (fst st) (snd st)).

(** [l'] is [l] but for first entries of elements, overwritten with -1. *)
Definition erased_from (nloc : Z) (l l' : list Z) : Prop :=
  length l' = length l /\
  forall (k : nat) (x : Z),
    l' !! k = Some x ->
    l !! k = Some x \/ (x = -1 /\ Z.of_nat k mod nloc = 0).

(** The worker [w'] is [w] with [count] more elements of [nloc] entries in
    its buffer and its counter advanced by [count]. *)
Definition emitted (nloc : Z) (w w' : Worker) (count : Z) : Prop :=
  0 <= count /\
  (exists added : list Z,
      newElements w' = newElements w ++ added /\ size added = nloc * count) /\
  splitCnt w' = to_size (splitCnt w + count) /\
  newVertices w' = newVertices w /\ newCoords w' = newCoords w /\
  newMetric w' = newMetric w /\ threadIdx w' = threadIdx w /\ cerr w' = cerr w.

(** The state of the loop over the elements after [n] elements. *)
Definition refining (m : Mesh) (w : Worker) (n : nat) (st : Mesh * Worker) : Prop :=
  same_vertices m (fst st) /\ same_halo m (fst st) /\
  erased_from (nloc_of (ndims m)) (_ENList m) (_ENList (fst st)) /\
  exists count : Z,
    count <= 8 * Z.of_nat n /\ emitted (nloc_of (ndims m)) w (snd st) count.

(** The lists [lists'] are the lists [lists] with ids from [from] on
    appended, all of them members of [halo']. *)
Definition appended (from : Z) (halo' : list Z) (lists lists' : list (list Z)) : Prop :=
  length lists' = length lists /\
  forall (p : nat) (l : list Z),
    lists !! p = Some l ->
    exists ids : list Z,
      lists' !! p = Some (l ++ ids) /\
      Forall (fun id => from <= id /\ id ∈ halo') ids.

(** A new vertex that has its id, from [from] on. *)
Definition identified (from : Z) (v : DirectedEdge) : Prop :=
  exists id : Z, de_id v = Some id /\ from <= id.

(** Every entry that holds an offset is kept; an unset entry may have
    become the sentinel. *)
Definition marks_only (re re' : list (list Z)) : Prop :=
  length re' = length re /\
  forall (i : nat) (row : list Z),
    re !! i = Some row ->
    exists row' : list Z,
      re' !! i = Some row' /\ length row' = length row /\
      forall (j : nat) (x : Z),
        row !! j = Some x ->
        row' !! j = Some x \/ (x < 0 /\ row' !! j = Some index_max).

(** Every slot that holds the offset of a staged vertex is kept. *)
Definition staged_kept (re re' : list (list Z)) : Prop :=
  length re' = length re /\
  forall (i : nat) (row : list Z),
    re !! i = Some row ->
    exists row' : list Z,
      re' !! i = Some row' /\ length row' = length row /\
      forall (t : nat) (x : Z),
        row !! (2 * t)%nat = Some x -> 0 <= x -> x <> index_max ->
        row' !! (2 * t)%nat = Some x.

(** The vertices of an element have pairwise distinct GIDs. *)
Definition proper_element `{Collaborators} (l2g : list Z) (n : list Z) : Prop :=
  NoDup (map (gnn l2g) n).

(** The vertex buffers of a worker have only been appended to. *)
Definition grown (w w' : Worker) : Prop :=
  prefix (newVertices w) (newVertices w') /\
  prefix (newCoords w) (newCoords w') /\
  prefix (newMetric w) (newMetric w').



(** A child of the element with vertices [n] whose edges carry the new
    vertices [split]: [nloc] vertices, each a vertex of the parent or one of
    the new vertices, and at least one of them new. *)
Definition child_of (nloc : nat) (n split c : list Z) : Prop :=
  length c = nloc /\
  Forall (fun v => v ∈ n \/ v ∈ split) c /\
  Exists (fun v => v ∈ split) c.

(** The number of children of a tetrahedron with [k] split edges, where the
    source has a template. *)
Definition template_size (k : nat) : option nat :=
  match k with
  | 1%nat => Some 2%nat
  | 2%nat => Some 4%nat
  | 3%nat => Some 4%nat
  | 6%nat => Some 8%nat
  | _ => None
  end.

(** ** Concrete collaborators and meshes *)

Module Example.

(** The length of the segment [x0 x1] under the constant metric [M]
    (row-major d*d entries): the square root of (x1-x0)^T M (x1-x0). *)
Definition difference (x0 x1 : list float) : list float :=
  zip_with (fun a b => (b - a)%float) x0 x1.

Definition dot (u v : list float) : float :=
  fold_left (fun acc p => (acc + fst p * snd p)%float) (zip u v) 0%float.

Fixpoint rows (d : nat) (M : list float) (k : nat) : list (list float) :=
  match k with
  | O => []
  | S k' => take d M :: rows d (drop d M) k'
  end.

Definition metric_length (x0 x1 M : list float) : float :=
  let v := difference x0 x1 in
  sqrt (dot v (map (dot v) (rows (length v) M (length v)))).

(** The edge length of the mesh: the metric is the mean of the two ends. *)
Definition mean_metric_length (m : Mesh) (a b : Z) : float :=
  match get_coords m a, get_coords m b, get_metric m a, get_metric m b with
  | Ok x0, Ok x1, Ok m0, Ok m1 =>
      metric_length x0 x1 (zip_with (fun p q => ((p + q) * 0.5)%float) m0 m1)
  | _, _, _, _ => (-1)%float
  end.

(** A run on one partition or on a partition whose numbering starts at
    [offset]; no ghost vertices, nothing marked elsewhere, a surface without
    state. [past_end] is what lies behind [lnn2gnn]. *)
Definition collaborators (offset : Z) (past_end : Z -> Z) : Collaborators := {|
  calc_edge_length := mean_metric_length;
  property_length := metric_length;
  property_area := fun _ => 1%float;
  property_volume := fun _ => 1%float;
  scan_offset := offset;
  halo_gid := fun _ => None;
  remote_new_edges := fun _ => 0;
  Surface := unit;
  surface_refine := fun s _ _ => s;
  create_adjancy := fun m => m;
  stray := past_end
|}.

Definition serial : Collaborators := collaborators 0 (fun _ => 0).

Definition identity2 : list float := [1; 0; 0; 1]%float.
Definition identity3 : list float := [1; 0; 0; 0; 1; 0; 0; 0; 1]%float.

(** The unit triangle A=(0,0), B=(1,0), C=(0,1) with the identity metric. *)
Definition unit_triangle : Mesh := {|
  ndims := 2;
  _coords := [0; 0; 1; 0; 0; 1]%float;
  metric := identity2 ++ identity2 ++ identity2;
  _ENList := [0; 1; 2];
  NNList := [[1; 2]; [0; 2]; [0; 1]];
  NEList := [[0]; [0]; [0]];
  recv := [[]]; send := [[]]; recv_halo := []; send_halo := []
|}.

(** The tetrahedron (0,0,0), (1,0,0), (0,1,0), (0,0,1), identity metric. *)
Definition unit_tetrahedron : Mesh := {|
  ndims := 3;
  _coords := [0; 0; 0; 1; 0; 0; 0; 1; 0; 0; 0; 1]%float;
  metric := identity3 ++ identity3 ++ identity3 ++ identity3;
  _ENList := [0; 1; 2; 3];
  NNList := [[1; 2; 3]; [0; 2; 3]; [0; 1; 3]; [0; 1; 2]];
  NEList := [[0]; [0]; [0]; [0]];
  recv := [[]]; send := [[]]; recv_halo := []; send_halo := []
|}.

(** The triangle A=(0,0), B=(1,1), C=(0,1) whose vertex A carries an
    infinite metric entry. *)
Definition corrupt_triangle : Mesh := {|
  ndims := 2;
  _coords := [0; 0; 1; 1; 0; 1]%float;
  metric := [infinity; 0; 0; 1]%float ++ identity2 ++ identity2;
  _ENList := [0; 1; 2];
  NNList := [[1; 2]; [0; 2]; [0; 1]];
  NEList := [[0]; [0]; [0]];
  recv := [[]]; send := [[]]; recv_halo := []; send_halo := []
|}.

(** The isosceles triangle A=(0,2), B=(-1/2,0), C=(1/2,0), identity metric. *)
Definition isosceles_triangle : Mesh := {|
  ndims := 2;
  _coords := [0; 2; -0.5; 0; 0.5; 0]%float;
  metric := identity2 ++ identity2 ++ identity2;
  _ENList := [0; 1; 2];
  NNList := [[1; 2]; [0; 2]; [0; 1]];
  NEList := [[0]; [0]; [0]];
  recv := [[]]; send := [[]]; recv_halo := []; send_halo := []
|}.

(** The triangle A=(0,0), B=(1,0), C=(1,1/2) as the whole mesh of rank 1 of
    two ranks: rank 0 holds ten vertices, so the GIDs here are 10, 11, 12;
    the word behind [lnn2gnn] holds 5. *)
Definition second_rank : Collaborators := collaborators 10 (fun _ => 5).

Definition skew_triangle : Mesh := {|
  ndims := 2;
  _coords := [0; 0; 1; 0; 1; 0.5]%float;
  metric := identity2 ++ identity2 ++ identity2;
  _ENList := [0; 1; 2];
  NNList := [[1; 2]; [0; 2]; [0; 1]];
  NEList := [[0]; [0]; [0]];
  recv := [[]; []]; send := [[]; []]; recv_halo := []; send_halo := []
|}.

Definition driver_of_second_rank : Refine := mkRefine 1 2 [] ∅ [].

(** A needle: the vertex (0,0,0) far from the small face (2,0,0),
    (2,1/2,0), (2,0,1/2); identity metric. The three edges at vertex 0 are
    longer than 1, the three edges of the small face are shorter. *)
Definition needle_tetrahedron : Mesh := {|
  ndims := 3;
  _coords := [0; 0; 0; 2; 0; 0; 2; 0.5; 0; 2; 0; 0.5]%float;
  metric := identity3 ++ identity3 ++ identity3 ++ identity3;
  _ENList := [0; 1; 2; 3];
  NNList := [[1; 2; 3]; [0; 2; 3]; [0; 1; 3]; [0; 1; 2]];
  NEList := [[0]; [0]; [0]; [0]];
  recv := [[]]; send := [[]]; recv_halo := []; send_halo := []
|}.

(** The rows of [refined_edges] of a tetrahedron 0 1 2 3 whose edges (0,1),
    (0,2), (0,3) and (1,2) carry the new vertices 4, 5, 6 and 7. *)
Definition four_split_edges : list (list Z) :=
  [[4; 0; 5; 0; 6; 0]; [-1; -1; 7; 0; -1; -1]; [-1; -1; -1; -1; -1; -1];
   [-1; -1; -1; -1; -1; -1]].

(** The skew triangle on rank 1 of two when its vertex 1 is a ghost owned by
    rank 0, where it has the GID 4. *)
Definition second_rank_with_ghost : Collaborators := {|
  calc_edge_length := mean_metric_length;
  property_length := metric_length;
  property_area := fun _ => 1%float;
  property_volume := fun _ => 1%float;
  scan_offset := 10;
  halo_gid := fun i => if i =? 1 then Some 4 else None;
  remote_new_edges := fun _ => 0;
  Surface := unit;
  surface_refine := fun s _ _ => s;
  create_adjancy := fun m => m;
  stray := fun _ => 5
|}.

Definition skew_triangle_with_ghost : Mesh := {|
  ndims := 2;
  _coords := [0; 0; 1; 0; 1; 0.5]%float;
  metric := identity2 ++ identity2 ++ identity2;
  _ENList := [0; 1; 2];
  NNList := [[1; 2]; [0; 2]; [0; 1]];
  NEList := [[0]; [0]; [0]];
  recv := [[1]; []]; send := [[]; []]; recv_halo := [1]; send_halo := []
|}.

(** The isosceles triangle with the new vertices 3 (on the edge 0 1) and 4
    (on the edge 0 2) inserted, before its subdivision. *)
Definition isosceles_with_new_vertices : Mesh := {|
  ndims := 2;
  _coords := [0; 2; -0.5; 0; 0.5; 0; -0.25; 1; 0.25; 1]%float;
  metric := identity2 ++ identity2 ++ identity2 ++ identity2 ++ identity2;
  _ENList := [0; 1; 2];
  NNList := [[1; 2]; [0; 2]; [0; 1]; []; []];
  NEList := [[0]; [0]; [0]; []; []];
  recv := [[]]; send := [[]]; recv_halo := []; send_halo := []
|}.

Definition isosceles_refined_edges : list (list Z) :=
  [[3; 0; 4; 0]; [-1; -1; -1; -1]; [-1; -1; -1; -1]].

(** A fresh driver on rank 0 of one. *)
Definition driver : Refine := mkRefine 0 1 [] ∅ [].

(** The counters of three workers, and the vertex count they start from. *)
Definition three_workers : list Z := [2; 0; 3].

(** The rows of [refined_edges] of a tetrahedron 0 1 2 3 whose edges (0,1),
    (0,2) and (0,3) carry the new vertices 4, 5 and 6. *)
Definition three_split_edges : list (list Z) :=
  [[4; 0; 5; 0; 6; 0]; [-1; -1; -1; -1; -1; -1]; [-1; -1; -1; -1; -1; -1];
   [-1; -1; -1; -1; -1; -1]].

End Example.

(** ** Properties *)

(** *** Vectors *)

Lemma bind_ok {A B : Type} (r : result A) (k : A -> result B) (b : B) :
  bind r k = Ok b -> exists a, r = Ok a /\ k a = Ok b.
Proof. destruct r as [a|e]; simpl; intros Hb; [eauto | discriminate]. Qed.

Lemma vget_ok {A : Type} (v : list A) (i : Z) (x : A) :
  0 <= i -> v !! Z.to_nat i = Some x -> vget v i = Ok x.
Proof.
  intros Hi Hx. unfold vget.
  destruct (Z.leb_spec 0 i); [|lia]. now rewrite Hx.
Qed.

Lemma vget_nat {A : Type} (v : list A) (k : nat) (x : A) :
  v !! k = Some x -> vget v (Z.of_nat k) = Ok x.
Proof. intros Hx. apply vget_ok; [lia|]. now rewrite Nat2Z.id. Qed.

Lemma vset_ok {A : Type} (v : list A) (i : Z) (x : A) :
  0 <= i < size v -> vset v i x = Ok (<[Z.to_nat i := x]> v).
Proof.
  intros Hi. unfold vset.
  destruct (Z.leb_spec 0 i); [|lia]. destruct (Z.ltb_spec i (size v)); [|lia].
  reflexivity.
Qed.

Lemma vset_inv {A : Type} (v v' : list A) (i : Z) (x : A) :
  vset v i x = Ok v' -> 0 <= i < size v /\ v' = <[Z.to_nat i := x]> v.
Proof.
  unfold vset. destruct (Z.leb_spec 0 i); [|discriminate].
  destruct (Z.ltb_spec i (size v)); [|discriminate].
  simpl. intros [= <-]. auto.
Qed.

Lemma slice_inv {A : Type} (v s : list A) (off len : Z) :
  slice v off len = Ok s ->
  0 <= off /\ 0 <= len /\ off + len <= size v /\
  s = take (Z.to_nat len) (drop (Z.to_nat off) v) /\ size s = len.
Proof.
  unfold slice, size.
  destruct (Z.leb_spec 0 off); [|discriminate].
  destruct (Z.leb_spec 0 len); [|discriminate].
  destruct (Z.leb_spec (off + len) (Z.of_nat (length v))); [|discriminate].
  simpl. intros [= <-]. repeat split; try assumption.
  rewrite length_take, length_drop. lia.
Qed.

Lemma slice_ok {A : Type} (v : list A) (off len : Z) :
  0 <= off -> 0 <= len -> off + len <= size v ->
  slice v off len = Ok (take (Z.to_nat len) (drop (Z.to_nat off) v)).
Proof.
  intros Ho Hl Hs. unfold slice.
  destruct (Z.leb_spec 0 off); [|lia].
  destruct (Z.leb_spec 0 len); [|lia].
  destruct (Z.leb_spec (off + len) (size v)); [|lia].
  reflexivity.
Qed.

(** *** Machine integers *)

Lemma to_index_small (z : Z) : 0 <= z < 2 ^ 31 -> to_index z = z.
Proof. intros Hz. unfold to_index. rewrite Z.mod_small; lia. Qed.

Lemma to_size_small (z : Z) : 0 <= z < 2 ^ 31 -> to_size z = z.
Proof. intros Hz. unfold to_size. rewrite Z.mod_small; lia. Qed.

(** *** The mark primitive *)

Lemma scan_neighbours_found (nn : list Z) (n1 pos : Z) :
  n1 ∈ nn ->
  exists k : nat,
    scan_neighbours nn n1 pos = Ok (pos + Z.of_nat k) /\
    nn !! k = Some n1 /\
    (forall q : nat, (q < k)%nat -> nn !! q <> Some n1).
Proof.
  revert pos. induction nn as [|x rest IH]; intros pos Hin.
  - inversion Hin.
  - simpl. destruct (Z.eqb_spec x n1) as [->|Hne].
    + exists 0%nat. split; [f_equal; lia|]. split; [reflexivity|]. intros q Hq. lia.
    + assert (Hrest : n1 ∈ rest).
      { apply elem_of_cons in Hin as [Heq|Hin]; [congruence|assumption]. }
      destruct (IH (pos + 1) Hrest) as (k & Hscan & Hk & Hbefore).
      exists (S k). split; [rewrite Hscan; f_equal; lia|].
      split; [exact Hk|].
      intros [|q] Hq; simpl; [congruence|]. apply Hbefore. lia.
Qed.

Lemma scan_neighbours_missing (nn : list Z) (n1 pos : Z) :
  n1 ∉ nn -> scan_neighbours nn n1 pos = Fail OutOfBounds.
Proof.
  revert pos. induction nn as [|x rest IH]; intros pos Hnot; [reflexivity|].
  simpl. destruct (Z.eqb_spec x n1) as [->|Hne].
  - exfalso. apply Hnot. apply elem_of_cons. now left.
  - apply IH. intros Hin. apply Hnot. apply elem_of_cons. now right.
Qed.

Section MarkEdge.
Context `{Collaborators}.
Variables (m : Mesh) (l2g : list Z) (n0 n1 : Z) (refined_edges : list (list Z)).

(** The two endpoints after the swap. *)
Let lo : Z := fst (lesser_first l2g n0 n1).
Let hi : Z := snd (lesser_first l2g n0 n1).

(** C10. With the endpoints ordered by GID ([lo] the lesser), [nn] the
    neighbour list of [lo] and [row] its row of [refined_edges], of twice the
    length: if [hi] occurs in [nn] the scan of [mark_edge] stops at the first
    position of [hi], that position is inside [nn], the slot written is
    inside [row], and the call returns; if [hi] does not occur in [nn] the
    scan reads past the end of [nn]. *)
Theorem mark_edge_needs_neighbour (nn row : list Z) :
  0 <= lo ->
  NNList m !! Z.to_nat lo = Some nn ->
  refined_edges !! Z.to_nat lo = Some row ->
  length row = (2 * length nn)%nat ->
  (hi ∈ nn ->
     exists pos : nat,
       (pos < length nn)%nat /\ nn !! pos = Some hi /\
       (forall q : nat, (q < pos)%nat -> nn !! q <> Some hi) /\
       (2 * pos < length row)%nat /\
       mark_edge m l2g n0 n1 refined_edges
       = Ok (<[Z.to_nat lo := <[(2 * pos)%nat := index_max]> row]> refined_edges))
  /\ (hi ∉ nn -> mark_edge m l2g n0 n1 refined_edges = Fail OutOfBounds).
Proof.
  intros Hlo Hnn Hrow Hlen.
  assert (Hunf : forall r, mark_edge m l2g n0 n1 r
                 = (do nn <- vget (NNList m) lo;
                    do pos <- scan_neighbours nn hi 0;
                    set_slot r lo (2 * pos) index_max)).
  { intros r. unfold mark_edge, lo, hi. now destruct (lesser_first l2g n0 n1). }
  split.
  - intros Hin.
    destruct (scan_neighbours_found nn hi 0 Hin) as (k & Hscan & Hk & Hfirst).
    exists k.
    assert (Hklt : (k < length nn)%nat) by (eapply lookup_lt_Some; eauto).
    repeat split; try assumption; [lia|].
    rewrite Hunf, (vget_ok _ _ _ Hlo Hnn). simpl. rewrite Hscan. simpl.
    unfold set_slot. rewrite (vget_ok _ _ _ Hlo Hrow). simpl.
    rewrite vset_ok by (unfold size; lia). simpl.
    rewrite vset_ok.
    + do 2 f_equal. f_equal. lia.
    + apply lookup_lt_Some in Hrow. unfold size. lia.
  - intros Hnot.
    rewrite Hunf, (vget_ok _ _ _ Hlo Hnn). simpl.
    now rewrite scan_neighbours_missing.
Qed.

End MarkEdge.

(** On the unit triangle, marking the edge (2, 0): vertex 0 has the lesser
    GID and vertex 2 is its second neighbour. *)
Lemma mark_edge_needs_neighbour_witness :
  exists pos : nat,
    (pos < 2)%nat /\ [1; 2] !! pos = Some 2 /\
    (forall q : nat, (q < pos)%nat -> [1; 2] !! q <> Some 2) /\
    (2 * pos < 4)%nat /\
    @mark_edge Example.serial Example.unit_triangle [0; 1; 2] 2 0
               [[-1; -1; -1; -1]; [-1; -1; -1; -1]; [-1; -1; -1; -1]]
    = Ok (<[0%nat := <[(2 * pos)%nat := index_max]> [-1; -1; -1; -1]]>
            [[-1; -1; -1; -1]; [-1; -1; -1; -1]; [-1; -1; -1; -1]]).
Proof.
  destruct (@mark_edge_needs_neighbour Example.serial Example.unit_triangle
              [0; 1; 2] 2 0
              [[-1; -1; -1; -1]; [-1; -1; -1; -1]; [-1; -1; -1; -1]]
              [1; 2] [-1; -1; -1; -1]) as [Hfound _].
  - vm_compute. discriminate.
  - reflexivity.
  - reflexivity.
  - reflexivity.
  - apply Hfound. vm_compute. apply elem_of_cons. right. apply elem_of_cons. now left.
Defined.

(** *** The new vertex of an edge *)

Lemma push_metric_spec (weight : float) (m0 m1 buf : list float) (log : list Diagnostic) :
  push_metric weight m0 m1 buf log
  = (buf ++ zip_with (interpolate weight) m0 m1, log ++ nan_diagnostics weight m0 m1).
Proof.
  revert m1 buf log. induction m0 as [|a m0 IH]; intros [|b m1] buf log; simpl;
    try (unfold nan_diagnostics; simpl; now rewrite !app_nil_r).
  rewrite IH, <- !app_assoc. simpl. f_equal.
  unfold nan_diagnostics. simpl. rewrite filter_cons. simpl.
  destruct (is_nan (interpolate weight a b)) eqn:Hnan.
  - rewrite decide_True by reflexivity. simpl. now rewrite <- app_assoc.
  - rewrite decide_False by discriminate. reflexivity.
Qed.

Lemma length_zip_with_same {A B C : Type} (f : A -> B -> C) (l : list A) (k : list B) :
  length l = length k -> length (zip_with f l k) = length l.
Proof.
  revert k. induction l as [|a l IH]; intros [|b k]; simpl; try congruence; auto.
Qed.

Section RefineEdge.
Context `{Collaborators}.
Variables (m : Mesh) (l2g : list Z).

Lemma refine_edge_ordered (lo hi : Z) (x0 x1 m0 m1 : list float) (w : Worker) (n0 n1 : Z) :
  lesser_first l2g n0 n1 = (lo, hi) ->
  get_coords m lo = Ok x0 -> get_metric m lo = Ok m0 ->
  get_coords m hi = Ok x1 -> get_metric m hi = Ok m1 ->
  refine_edge m l2g n0 n1 w
  = Ok (mkWorker
          (newVertices w ++ [mkDirectedEdge (gnn l2g lo) (gnn l2g hi) None])
          (newCoords w ++ zip_with (interpolate (edge_weight x0 x1 m0 m1)) x0 x1)
          (newMetric w ++ zip_with (interpolate (edge_weight x0 x1 m0 m1)) m0 m1)
          (newElements w) (splitCnt w) (threadIdx w)
          (cerr w ++ nan_diagnostics (edge_weight x0 x1 m0 m1) m0 m1)).
Proof.
  intros Hord Hx0 Hm0 Hx1 Hm1. unfold refine_edge. rewrite Hord, Hx0, Hm0, Hx1, Hm1.
  simpl. now rewrite push_metric_spec.
Qed.

(** C7. For an edge whose endpoint [lo] has the lower GID, with [x0], [m0]
    the coordinates and metric of [lo], [x1], [m1] those of the other endpoint
    and w = 1/(1 + sqrt(L(x0,x1,m0)/L(x0,x1,m1))): in whichever order the two
    endpoints are passed, [refine_edge] appends x0 + w*(x1 - x0) entry by
    entry to the coordinate buffer (d entries) and m0 + w*(m1 - m0) entry by
    entry to the metric buffer (d*d entries), and records the edge
    (GID(lo), GID(hi)). *)
Theorem refine_edge_interpolates (lo hi : Z) (x0 x1 m0 m1 : list float)
    (w : Worker) (n0 n1 : Z) :
  gnn l2g lo < gnn l2g hi ->
  (n0, n1) = (lo, hi) \/ (n0, n1) = (hi, lo) ->
  get_coords m lo = Ok x0 -> get_metric m lo = Ok m0 ->
  get_coords m hi = Ok x1 -> get_metric m hi = Ok m1 ->
  let weight :=
    (1 / (1 + sqrt (property_length x0 x1 m0 / property_length x0 x1 m1)))%float in
  exists w' : Worker,
    refine_edge m l2g n0 n1 w = Ok w' /\
    newCoords w'
    = newCoords w ++ zip_with (fun a b => (a + weight * (b - a))%float) x0 x1 /\
    newMetric w'
    = newMetric w ++ zip_with (fun a b => (a + weight * (b - a))%float) m0 m1 /\
    size (newCoords w') = size (newCoords w) + ndims m /\
    size (newMetric w') = size (newMetric w) + ndims m * ndims m /\
    newVertices w'
    = newVertices w ++ [mkDirectedEdge (gnn l2g lo) (gnn l2g hi) None].
Proof.
  intros Hlt Hargs Hx0 Hm0 Hx1 Hm1 weight.
  assert (Hord : lesser_first l2g n0 n1 = (lo, hi)).
  { unfold lesser_first. destruct Hargs as [[= -> ->]|[= -> ->]].
    - destruct (Z.gtb_spec (gnn l2g lo) (gnn l2g hi)); [lia|reflexivity].
    - destruct (Z.gtb_spec (gnn l2g hi) (gnn l2g lo)); [reflexivity|lia]. }
  eexists. split; [eapply refine_edge_ordered; eauto|]. simpl.
  destruct (slice_inv _ _ _ _ Hx0) as (_ & _ & _ & _ & Lx0).
  destruct (slice_inv _ _ _ _ Hx1) as (_ & _ & _ & _ & Lx1).
  destruct (slice_inv _ _ _ _ Hm0) as (_ & _ & _ & _ & Lm0).
  destruct (slice_inv _ _ _ _ Hm1) as (_ & _ & _ & _ & Lm1).
  unfold size in *.
  repeat split; try reflexivity.
  - rewrite length_app, length_zip_with_same by lia. lia.
  - rewrite length_app, length_zip_with_same by lia. lia.
Qed.

(** C3, as the code has it. Whatever the metric entries of the two ends
    (NaN included), [refine_edge] does not stop: it returns, every
    interpolated entry is appended to the metric buffer, and the error stream
    grows by one diagnostic (the two contributing entries and the weight) for
    every interpolated entry that is NaN. *)
Theorem refine_edge_logs_nan (lo hi : Z) (x0 x1 m0 m1 : list float)
    (w : Worker) (n0 n1 : Z) :
  lesser_first l2g n0 n1 = (lo, hi) ->
  get_coords m lo = Ok x0 -> get_metric m lo = Ok m0 ->
  get_coords m hi = Ok x1 -> get_metric m hi = Ok m1 ->
  exists w' : Worker,
    refine_edge m l2g n0 n1 w = Ok w' /\
    newMetric w'
    = newMetric w ++ zip_with (interpolate (edge_weight x0 x1 m0 m1)) m0 m1 /\
    cerr w' = cerr w ++ nan_diagnostics (edge_weight x0 x1 m0 m1) m0 m1.
Proof.
  intros Hord Hx0 Hm0 Hx1 Hm1.
  eexists. split; [eapply refine_edge_ordered; eauto|]. simpl. auto.
Qed.

End RefineEdge.

(** On the unit triangle, the edge between vertex 1 and vertex 0, passed with
    the greater GID first: the weight is 1/2. *)
Lemma refine_edge_interpolates_witness :
  exists w' : Worker,
    @refine_edge Example.serial Example.unit_triangle [0; 1; 2] 1 0 empty_worker = Ok w' /\
    newCoords w' = [0.5; 0]%float /\
    newMetric w' = [1; 0; 0; 1]%float /\
    newVertices w' = [mkDirectedEdge 0 1 None].
Proof.
  destruct (@refine_edge_interpolates Example.serial Example.unit_triangle [0; 1; 2]
              0 1 [0; 0]%float [1; 0]%float Example.identity2 Example.identity2
              empty_worker 1 0)
    as (w' & Hrun & Hcoords & Hmetric & _ & _ & Hvertices);
    try reflexivity.
  - now right.
  - exists w'. repeat split; assumption.
Defined.

(** On the triangle with an infinite metric entry at A, the edge A B: the
    weight is 0 and the first interpolated metric entry is NaN. *)
Lemma refine_edge_logs_nan_witness :
  exists w' : Worker,
    @refine_edge Example.serial Example.corrupt_triangle [0; 1; 2] 0 1 empty_worker = Ok w' /\
    newMetric w' = [nan; 0; 0; 1]%float /\
    cerr w' = [mkDiagnostic infinity 1 0].
Proof.
  destruct (@refine_edge_logs_nan Example.serial Example.corrupt_triangle [0; 1; 2]
              0 1 [0; 0]%float [1; 1]%float [infinity; 0; 0; 1]%float Example.identity2
              empty_worker 0 1)
    as (w' & Hrun & Hmetric & Hcerr);
    try reflexivity.
  exists w'. repeat split; assumption.
Defined.

(** C3, the claim as stated fails. On the triangle with an infinite metric
    entry at A, the new vertex of the edge A B gets a NaN metric entry;
    [refine] prints one diagnostic and returns with the NaN stored in the
    metric of the mesh. *)
Lemma refine_continues_after_nan :
  exists o : @Refined Example.serial,
    @refine Example.serial 1 Example.driver Example.corrupt_triangle tt 1.25%float = Ok o /\
    existsb is_nan (metric (out_mesh o)) = true /\
    out_cerr o = [mkDiagnostic infinity 1 0] /\
    _ENList (out_mesh o) = [-1; 1; 2; 2; 0; 3; 2; 3; 1].
Proof.
  eexists. split; [vm_compute; reflexivity|]. repeat split.
Qed.

(** *** Order of binary64 values *)

Lemma SFcompare_antisym (f1 f2 : spec_float) :
  SFcompare f2 f1 = option_map CompOpp (SFcompare f1 f2).
Proof.
  destruct f1 as [s1|s1| |s1 m1 e1], f2 as [s2|s2| |s2 m2 e2]; simpl;
    try reflexivity;
    try (destruct s1; reflexivity); try (destruct s2; reflexivity);
    try (destruct s1, s2; reflexivity).
  destruct s1, s2; simpl; try reflexivity;
    pose proof (Z.compare_antisym e1 e2) as He;
    pose proof (Pos.compare_cont_antisym m1 m2 Eq) as Hm;
    destruct (Z.compare e1 e2), (Z.compare e2 e1); simpl in He, Hm |- *;
    try discriminate He; try reflexivity.
  - do 2 f_equal. symmetry. exact Hm.
  - f_equal. symmetry. exact Hm.
Qed.

Lemma ltb_of_eqb (a b : float) : (a =? b)%float = true -> (a <? b)%float = false.
Proof.
  rewrite FloatAxioms.eqb_spec, FloatAxioms.ltb_spec. unfold SFeqb, SFltb.
  destruct (SFcompare (Prim2SF a) (Prim2SF b)) as [[| |]|]; congruence.
Qed.

Lemma ltb_of_leb (a b : float) : (a <=? b)%float = true -> (b <? a)%float = false.
Proof.
  rewrite FloatAxioms.leb_spec, FloatAxioms.ltb_spec. unfold SFleb, SFltb.
  rewrite (SFcompare_antisym (Prim2SF a) (Prim2SF b)).
  destruct (SFcompare (Prim2SF a) (Prim2SF b)) as [[| |]|]; simpl; congruence.
Qed.

(** *** The two-split triangle *)

Lemma two_split_children_ok (r0 r1 r2 v0 v1 : Z) (ldiag0 ldiag1 : float) :
  two_split_children [r0; r1; r2] [v0; v1] (diagonal_offset ldiag0 ldiag1)
  = Ok (if (ldiag0 <? ldiag1)%float
        then [[r0; v1; v0]; [v0; r1; r2]; [v0; v1; r1]]
        else [[r0; v1; v0]; [v1; r1; r2]; [v0; v1; r2]]).
Proof. unfold diagonal_offset. destruct (ldiag0 <? ldiag1)%float; reflexivity. Qed.

Section TwoSplit.
Context `{Collaborators}.
Variables (m : Mesh) (l2g : list Z) (refined_edges : list (list Z)).
Variables (n0 n1 n2 nv0 nv1 nv2 : Z) (j : nat).

(** The triangle and the new vertices of its edges, rotated so that the
    edge without a new vertex is opposite the first vertex. *)
Let r (k : nat) : Z := rotated [n0; n1; n2] j k.
Let v0 : Z := rotated [nv0; nv1; nv2] j 1.
Let v1 : Z := rotated [nv0; nv1; nv2] j 2.

(** The lengths of diagonal 0 (from [vertexID[0]] to [rotated_ele[1]]) and
    of diagonal 1 (from [vertexID[1]] to [rotated_ele[2]]), as computed. *)
Let ldiag0 : float :=
  calc_edge_length m (fst (diagonal0_args l2g v0 (r 1))) (snd (diagonal0_args l2g v0 (r 1))).
Let ldiag1 : float :=
  calc_edge_length m (fst (diagonal1_args l2g v1 (r 2))) (snd (diagonal1_args l2g v1 (r 2))).

(** C5, as the code has it. For a triangle with exactly two split edges,
    the children are fixed by a strict comparison of the two diagonal
    lengths: the children of diagonal 0 are emitted exactly when its length
    is strictly less than the length of diagonal 1; when the two lengths are
    equal, the children are those of diagonal 1. *)
Theorem two_split_takes_second_diagonal_on_tie (w : Worker) :
  (j < 3)%nat ->
  get_new_vertex m l2g n1 n2 refined_edges = Ok nv0 ->
  get_new_vertex m l2g n2 n0 refined_edges = Ok nv1 ->
  get_new_vertex m l2g n0 n1 refined_edges = Ok nv2 ->
  rotated [nv0; nv1; nv2] j 0 < 0 -> 0 <= v0 -> 0 <= v1 ->
  refine_2d m l2g refined_edges [n0; n1; n2] w
  = Ok (Some (emit (if (ldiag0 <? ldiag1)%float
                    then [[r 0; v1; v0]; [v0; r 1; r 2]; [v0; v1; r 1]]
                    else [[r 0; v1; v0]; [v1; r 1; r 2]; [v0; v1; r 2]]) 3 w))
  /\ ((ldiag0 =? ldiag1)%float = true ->
      refine_2d m l2g refined_edges [n0; n1; n2] w
      = Ok (Some (emit [[r 0; v1; v0]; [v1; r 1; r 2]; [v0; v1; r 2]] 3 w))).
Proof.
  intros Hj Hnv0 Hnv1 Hnv2 Hneg Hv0 Hv1.
  assert (Hrun : refine_2d m l2g refined_edges [n0; n1; n2] w
                 = Ok (Some (emit (if (ldiag0 <? ldiag1)%float
                                   then [[r 0; v1; v0]; [v0; r 1; r 2]; [v0; v1; r 1]]
                                   else [[r 0; v1; v0]; [v1; r 1; r 2]; [v0; v1; r 2]])
                                  3 w))).
  { unfold refine_2d.
    change (vget [n0; n1; n2] 0) with (Ok n0).
    change (vget [n0; n1; n2] 1) with (Ok n1).
    change (vget [n0; n1; n2] 2) with (Ok n2).
    cbn [bind]. rewrite Hnv0, Hnv1, Hnv2. cbn [bind]. cbv zeta.
    unfold ldiag0, ldiag1, v0, v1, r in *. clear ldiag0 ldiag1 v0 v1 r.
    destruct j as [|[|[|j']]]; [| | |lia]; unfold rotated in *;
      cbn [Nat.add Nat.modulo Nat.divmod fst snd Nat.sub nth] in *;
      rewrite !filter_cons, filter_nil;
      repeat (first [rewrite decide_True by lia | rewrite decide_False by lia]);
      cbn [size length Z.of_nat Pos.of_succ_nat Pos.succ Z.eqb Pos.eqb find_first];
      repeat match goal with
             | |- context [?a <? 0] =>
                 destruct (Z.ltb_spec a 0); [try lia|try lia]
             end;
      cbn [Z.add Z.modulo Z.div_eucl Z.pos_div_eucl Z.ltb Z.leb Z.compare Pos.compare
           Pos.compare_cont Z.mul Pos.mul Z.sub Z.opp Z.pos_sub Pos.add Z.succ_double
           Z.pred_double Z.double snd fst Pos.succ];
      repeat match goal with
             | |- context [vget ?l ?i] =>
                 let x := eval cbv in (vget l i) in change (vget l i) with x
             end;
      cbn [bind];
      repeat match goal with
             | |- context [diagonal0_args ?a ?b ?c] => destruct (diagonal0_args a b c)
             | |- context [diagonal1_args ?a ?b ?c] => destruct (diagonal1_args a b c)
             end;
      cbn [fst snd]; rewrite two_split_children_ok; reflexivity. }
  split; [exact Hrun|].
  intros Htie. rewrite Hrun, (ltb_of_eqb _ _ Htie). reflexivity.
Qed.

End TwoSplit.

(** The isosceles triangle with its two long sides split: the two diagonals
    have the same length and the children are those of diagonal 1. *)
Lemma two_split_takes_second_diagonal_on_tie_witness :
  @refine_2d Example.serial Example.isosceles_with_new_vertices [0; 1; 2]
             Example.isosceles_refined_edges [0; 1; 2] empty_worker
  = Ok (Some (emit [[0; 3; 4]; [3; 1; 2]; [4; 3; 2]] 3 empty_worker)).
Proof.
  refine (proj2 (@two_split_takes_second_diagonal_on_tie Example.serial
                   Example.isosceles_with_new_vertices [0; 1; 2]
                   Example.isosceles_refined_edges 0 1 2 (-1) 4 3 0 empty_worker
                   _ _ _ _ _ _ _) _).
  - lia.
  - reflexivity.
  - reflexivity.
  - reflexivity.
  - reflexivity.
  - vm_compute. discriminate.
  - vm_compute. discriminate.
  - vm_compute. reflexivity.
Defined.

(** C5, the claim as stated fails. On the isosceles triangle with the two
    long sides split, both diagonals have length 5/4; the children are those
    of diagonal 1 (new vertex 3 to vertex 2), not those of diagonal 0. *)
Lemma equal_diagonals_take_second :
  exists o : @Refined Example.serial,
    @refine Example.serial 1 Example.driver Example.isosceles_triangle tt 1.5%float = Ok o /\
    @calc_edge_length Example.serial (out_mesh o) 4 1 = 1.25%float /\
    @calc_edge_length Example.serial (out_mesh o) 3 2 = 1.25%float /\
    diagonal_offset 1.25 1.25 = 1 /\
    _ENList (out_mesh o) = [-1; 1; 2; 0; 3; 4; 3; 1; 2; 4; 3; 2].
Proof.
  eexists. split; [vm_compute; reflexivity|]. repeat split.
Qed.

(** The first diagonal and the edge-selection pass do order by GID. *)
Lemma diagonal0_args_ordered `{Collaborators} (l2g : list Z) (v0 r1 : Z) :
  gnn l2g (fst (diagonal0_args l2g v0 r1)) <= gnn l2g (snd (diagonal0_args l2g v0 r1)).
Proof.
  unfold diagonal0_args.
  destruct (Z.ltb_spec (gnn l2g v0) (gnn l2g r1)); simpl; lia.
Qed.

(** C6, the defect. On rank 1 of two (GIDs 10, 11, 12; the word behind
    [lnn2gnn] holds 5) the skew triangle has its edges (0,1) and (0,2) split,
    by the new vertices 3 and 4. For the second diagonal the code compares
    [lnn2gnn[3]] = 5 with the LID 2 instead of the GID 12, and so passes
    vertex 2 first, although the lower GID belongs to vertex 3; the first
    diagonal, compared by GIDs, is passed with the lower GID first. *)
Theorem second_diagonal_orders_by_lid :
  let l2g := @init_lnn2gnn Example.second_rank 2 3 in
  l2g = [10; 11; 12] /\
  (exists o : @Refined Example.second_rank,
     @refine Example.second_rank 1 Example.driver_of_second_rank
             Example.skew_triangle tt 0.75%float = Ok o /\
     out_refined_edges o = [[3; 0; 4; 0]; [-1; -1; -1; -1]; [-1; -1; -1; -1]] /\
     _ENList (out_mesh o) = [-1; 1; 2; 0; 3; 4; 4; 1; 2; 4; 3; 1]) /\
  @diagonal1_args Example.second_rank l2g 3 2 = (2, 3) /\
  @gnn Example.second_rank l2g 3 = 5 /\
  @gnn Example.second_rank l2g 2 = 12 /\
  @diagonal0_args Example.second_rank l2g 4 1 = (4, 1) /\
  @gnn Example.second_rank l2g 4 = 5 /\
  @gnn Example.second_rank l2g 1 = 11.
Proof.
  cbv zeta. split; [reflexivity|]. split.
  - eexists. split; [vm_compute; reflexivity|]. split; reflexivity.
  - repeat split.
Qed.

(** *** Conforming propagation *)

(** C1, the defect. On the needle with L_max = 1 the three edges at vertex 0
    are staged by the edge selection. The first sweep of the propagation loop
    finds three split edges with a single shared vertex and marks the three
    edges of the small face, but leaves [new_edges_size] at 0 (the branches
    for three and for four split edges do not count their marks, the
    branches for two and for five do). The loop exits in that sweep, with
    three slots still holding the sentinel; the pass that fixes the ids then
    reads [threadIdx] at the tag -1 of such a slot. *)
Theorem propagation_exits_with_pending_marks :
  let m := Example.needle_tetrahedron in
  let l2g := [0; 1; 2; 3] in
  let staged := [[0; 0; 1; 0; 2; 0]; [-1; -1; -1; -1; -1; -1];
                 [-1; -1; -1; -1; -1; -1]; [-1; -1; -1; -1; -1; -1]] in
  let marked := [[0; 0; 1; 0; 2; 0]; [-1; -1; index_max; -1; index_max; -1];
                 [-1; -1; -1; -1; index_max; -1]; [-1; -1; -1; -1; -1; -1]] in
  exists w : Worker,
    @edge_selection Example.serial 1 m l2g 4 = Ok (staged, w) /\
    @propagate_sweep Example.serial m l2g 1 staged = Ok (marked, 0) /\
    @propagate Example.serial 1 0 1 m l2g 4 1 (staged, w) = Ok (marked, w) /\
    get_slot marked 1 2 = Ok index_max /\
    @refine Example.serial 1 Example.driver m tt 1 = Fail OutOfBounds.
Proof.
  cbv zeta. eexists. split; [vm_compute; reflexivity|].
  repeat split; vm_compute; reflexivity.
Qed.

(** *** The templates of a tetrahedron *)

(** C2, as the code has it. A tetrahedron that reaches the subdivision with
    four or five split edges matches no template: the templates report
    nothing (there is no error outcome for a split count), and no child is
    appended; the buffers and the counter of the worker stay as they are. *)
Theorem no_template_for_four_or_five `{Collaborators} (m : Mesh) (l2g : list Z)
    (refined_edges : list (list Z)) (n newVertex : list Z) (splitEdges : list Edge)
    (w : Worker) :
  split_edges m l2g refined_edges n = Ok (newVertex, splitEdges) ->
  length newVertex = 4%nat \/ length newVertex = 5%nat ->
  exists r : option Worker,
    refine_3d m l2g refined_edges n w = Ok r /\
    (forall w' : Worker, r = Some w' -> w' = w).
Proof.
  intros Hsplit Hcnt. exists (Some w). split; [|now intros w' [= <-]].
  unfold refine_3d. rewrite Hsplit. simpl.
  destruct newVertex as [|v0 [|v1 [|v2 [|v3 [|v4 [|v5 rest]]]]]];
    simpl in Hcnt; try (exfalso; lia); reflexivity.
Qed.

(** The tetrahedron 0 1 2 3 with four split edges. *)
Lemma no_template_for_four_or_five_witness :
  exists r : option Worker,
    @refine_3d Example.serial Example.unit_tetrahedron [0; 1; 2; 3]
               Example.four_split_edges [0; 1; 2; 3] empty_worker = Ok r /\
    (forall w' : Worker, r = Some w' -> w' = empty_worker).
Proof.
  apply (@no_template_for_four_or_five Example.serial Example.unit_tetrahedron
           [0; 1; 2; 3] Example.four_split_edges [0; 1; 2; 3] [4; 5; 6; 7]
           [Edge_of 0 1; Edge_of 0 2; Edge_of 0 3; Edge_of 1 2] empty_worker).
  - reflexivity.
  - left. reflexivity.
Defined.

(** C2, the claim as stated fails. For the tetrahedron 0 1 2 3 with four
    split edges the body of the subdivision loop returns without an error,
    appends no child and erases the parent. *)
Lemma four_split_edges_erased_without_children :
  @refine_element Example.serial [0; 1; 2; 3] Example.four_split_edges
                  (Example.unit_tetrahedron, empty_worker) 0
  = Ok (set_ENList Example.unit_tetrahedron [-1; 1; 2; 3], empty_worker).
Proof. vm_compute. reflexivity. Qed.

(** *** Ownership of the new vertices *)

Section Owners.
Variables (g2l : gmap Z Z) (origNNodes : Z).

Lemma assign_owners_from (vertices : list DirectedEdge) :
  forall (lut : gmap Z DirectedEdge) (owner : list Z),
    Forall (well_placed g2l origNNodes (size owner)) vertices ->
    NoDup (de_id <$> vertices) ->
    (forall v id, v ∈ vertices -> de_id v = Some id -> lut !! id = None) ->
    exists (lut' : gmap Z DirectedEdge) (owner' : list Z),
      foldM (assign_owner g2l) (lut, owner) vertices = Ok (lut', owner') /\
      length owner' = length owner /\
      (forall k : nat,
          (forall v, v ∈ vertices -> de_id v <> Some (Z.of_nat k)) ->
          owner' !! k = owner !! k) /\
      (forall v id, v ∈ vertices -> de_id v = Some id ->
          exists o0 o1 : Z,
            owner !! Z.to_nat (lnn_of g2l (de_first v)) = Some o0 /\
            owner !! Z.to_nat (lnn_of g2l (de_second v)) = Some o1 /\
            owner' !! Z.to_nat id = Some (Z.min o0 o1)).
Proof.
  induction vertices as [|v rest IH]; intros lut owner Hplaced Hdup Hfresh.
  - exists lut, owner. simpl. repeat split; auto.
    intros v id Hin. inversion Hin.
  - apply Forall_cons in Hplaced as [Hv Hrest].
    destruct Hv as ((id & Hid & Hrange) & Hfirst & Hsecond).
    simpl in Hdup. apply NoDup_cons in Hdup as [Hnotin Hdup].
    assert (Hlut : lut !! id = None) by (eapply Hfresh; [apply elem_of_cons; now left|exact Hid]).
    destruct (lookup_lt_is_Some_2 owner (Z.to_nat (lnn_of g2l (de_first v))))
      as [o0 Ho0]; [unfold size in Hrange; lia|].
    destruct (lookup_lt_is_Some_2 owner (Z.to_nat (lnn_of g2l (de_second v))))
      as [o1 Ho1]; [unfold size in Hrange; lia|].
    set (owner1 := <[Z.to_nat id := Z.min o0 o1]> owner).
    assert (Hstep : assign_owner g2l (lut, owner) v = Ok (<[id := v]> lut, owner1)).
    { unfold assign_owner. rewrite Hid, Hlut.
      rewrite (vget_ok _ _ o0) by (try lia; exact Ho0). simpl.
      rewrite (vget_ok _ _ o1) by (try lia; exact Ho1). simpl.
      rewrite vset_ok by lia. reflexivity. }
    assert (Hsize1 : size owner1 = size owner).
    { unfold owner1, size. now rewrite length_insert. }
    destruct (IH (<[id := v]> lut) owner1) as (lut' & owner' & Hrun & Hlen & Hframe & Hmin).
    + rewrite Hsize1. exact Hrest.
    + exact Hdup.
    + intros v' id' Hin' Hid'.
      rewrite lookup_insert_ne.
      * eapply Hfresh; [apply elem_of_cons; right; exact Hin'|exact Hid'].
      * intros Heq. apply Hnotin. rewrite Hid, Heq, <- Hid'.
        apply list_elem_of_fmap_2. exact Hin'.
    + exists lut', owner'. cbn [foldM]. rewrite Hstep. cbn [bind].
      split; [exact Hrun|]. split; [rewrite Hlen; unfold owner1; apply length_insert|].
      split.
      * intros k Hk. rewrite Hframe.
        -- unfold owner1. apply list_lookup_insert_ne.
           intros Heq. apply (Hk v); [apply elem_of_cons; now left|].
           rewrite Hid. f_equal. lia.
        -- intros v' Hin'. apply Hk. apply elem_of_cons. now right.
      * intros v' id' Hin' Hid'.
        apply elem_of_cons in Hin' as [->|Hin'].
        -- assert (id' = id) as -> by congruence.
           exists o0, o1. repeat split; try assumption.
           rewrite Hframe.
           ++ unfold owner1. apply list_lookup_insert_eq. unfold size in Hrange. lia.
           ++ intros v' Hin' Heq. apply Hnotin.
              replace (de_id v) with (de_id v') by (rewrite Heq, Hid; f_equal; lia).
              apply list_elem_of_fmap_2. exact Hin'.
        -- destruct (Hmin v' id' Hin' Hid') as (p0 & p1 & Hp0 & Hp1 & Hp).
           rewrite Forall_forall in Hrest.
           destruct (Hrest v' Hin') as (_ & Hf' & Hs').
           exists p0, p1. repeat split; try assumption.
           ++ rewrite <- Hp0. unfold owner1. symmetry. apply list_lookup_insert_ne. lia.
           ++ rewrite <- Hp1. unfold owner1. symmetry. apply list_lookup_insert_ne. lia.
Qed.

End Owners.

(** The halo block: [owner] is [node_owner] as the insertion of the vertices
    leaves it, and the new vertices are well placed with distinct ids. *)
Lemma halo_phase_owner (rank nprocs : Z) (g2l : gmap Z Z) (m m' : Mesh)
    (owner0 owner owner' : list Z) (w : Worker) (newSize : nat)
    (origNNodes origNElements NElements : Z) :
  size owner0 = origNNodes ->
  owner = resize newSize (-1) owner0 ->
  Forall (well_placed g2l origNNodes (size owner)) (newVertices w) ->
  NoDup (de_id <$> newVertices w) ->
  halo_phase rank nprocs g2l m owner w origNNodes origNElements NElements
  = Ok (m', owner') ->
  (1 < nprocs ->
     forall v, v ∈ newVertices w -> owner_is_min g2l owner' v) /\
  (nprocs <= 1 ->
     forall v id, v ∈ newVertices w -> de_id v = Some id ->
       owner' !! Z.to_nat id = Some (-1)).
Proof.
  intros Hsize0 Hresize Hplaced Hdup Hrun. unfold halo_phase in Hrun. split.
  - intros Hmulti. destruct (Z.gtb_spec nprocs 1); [|lia].
    unfold amend_halo in Hrun.
    apply bind_ok in Hrun as ([lut owner1] & Hassign & Hrun).
    apply bind_ok in Hrun as ([m1 [sends recvs]] & _ & Hrun).
    apply bind_ok in Hrun as ([s1 s2] & _ & Hrun).
    apply bind_ok in Hrun as ([r1 r2] & _ & Hrun).
    injection Hrun as _ <-.
    destruct (assign_owners_from g2l origNNodes (newVertices w) ∅ owner Hplaced Hdup)
      as (lut' & owner'' & Hassign' & _ & Hframe & Hmin).
    { intros. apply lookup_empty. }
    unfold assign_owners in Hassign. rewrite Hassign' in Hassign.
    injection Hassign as _ <-.
    intros v Hin.
    rewrite Forall_forall in Hplaced.
    destruct (Hplaced v Hin) as ((id & Hid & _) & Hfirst & Hsecond).
    destruct (Hmin v id Hin Hid) as (o0 & o1 & Ho0 & Ho1 & Ho).
    assert (Hold : forall k, 0 <= k < origNNodes ->
                     owner'' !! Z.to_nat k = owner !! Z.to_nat k).
    { intros k Hk. apply Hframe. intros v' Hin' Heq.
      destruct (Hplaced v' Hin') as ((id' & Hid' & Hrange) & _).
      rewrite Hid' in Heq. injection Heq as ->. lia. }
    exists id, o0, o1. repeat split; try assumption.
    + now rewrite Hold.
    + now rewrite Hold.
  - intros Hserial. destruct (Z.gtb_spec nprocs 1); [lia|].
    injection Hrun as _ <-.
    intros v id Hin Hid.
    rewrite Forall_forall in Hplaced.
    destruct (Hplaced v Hin) as ((id' & Hid' & Hrange) & _).
    assert (id' = id) as -> by congruence.
    subst owner. unfold size in *. rewrite length_resize in Hrange.
    apply lookup_resize_new; lia.
Qed.

Lemma foldM_preserves {A S : Type} (P : S -> Prop) (f : S -> A -> result S) (l : list A) :
  (forall s x s', f s x = Ok s' -> P s -> P s') ->
  forall s s', foldM f s l = Ok s' -> P s -> P s'.
Proof.
  intros Hstep. induction l as [|x rest IH]; intros s s' Hrun Hs.
  - injection Hrun as <-. exact Hs.
  - cbn [foldM] in Hrun. apply bind_ok in Hrun as (s1 & Hs1 & Hrun).
    eapply IH; [exact Hrun|]. eapply Hstep; eauto.
Qed.

Lemma vresize_inv {A : Type} (v v' : list A) (n : Z) (x : A) :
  vresize v n x = Ok v' -> 0 <= n /\ v' = resize (Z.to_nat n) x v.
Proof.
  unfold vresize. destruct (Z.ltb_spec n 0); [discriminate|].
  intros [= <-]. auto.
Qed.

Lemma memcpy_inv {A : Type} (dst src r : list A) (off len : Z) :
  memcpy dst off src len = Ok r -> 0 <= off /\ 0 <= len /\ off + len <= size dst.
Proof.
  unfold memcpy.
  destruct (Z.leb_spec 0 off); [|discriminate].
  destruct (Z.leb_spec 0 len); [|discriminate].
  destruct (Z.leb_spec (off + len) (size dst)); [|discriminate].
  auto.
Qed.

Lemma block_start_count (count cnt : Z) :
  0 <= count < 2 ^ 64 -> block_start count cnt = count.
Proof.
  intros Hc. unfold block_start, to_size. rewrite Zplus_mod_idemp_r.
  replace (cnt + (count - cnt)) with count by lia. now apply Z.mod_small.
Qed.

Lemma to_index_le (y : Z) : 0 <= y -> to_index y <= y /\ to_index y < 2 ^ 31.
Proof.
  intros Hy. unfold to_index.
  pose proof (Z.mod_le (y + 2 ^ 31) (2 ^ 32)).
  pose proof (Z.mod_pos_bound (y + 2 ^ 31) (2 ^ 32)). lia.
Qed.

Lemma to_size_le (y : Z) : 0 <= y -> 0 <= to_size y <= y.
Proof.
  intros Hy. unfold to_size.
  pose proof (Z.mod_le y (2 ^ 64)). pose proof (Z.mod_pos_bound y (2 ^ 64)). lia.
Qed.

(** What the insertion of the vertices leaves, when it returns: room for the
    new vertices behind the [NNodes] original ones, owners filled up with
    -1, and ids in the order of the buffer. *)
Lemma insert_vertices_inv (m m1 : Mesh) (owner owner1 : list Z) (NNodes : Z)
    (re re1 : list (list Z)) (w w1 : Worker) :
  0 < ndims m -> 0 <= NNodes < 2 ^ 31 ->
  insert_vertices m owner NNodes re w = Ok (m1, owner1, re1, w1) ->
  NNodes + size (newVertices w) < 2 ^ 31 /\
  owner1 = resize (Z.to_nat (NNodes + size (newVertices w))) (-1) owner /\
  newVertices w1
  = imap (fun i v => with_id v (NNodes + Z.of_nat i)) (newVertices w).
Proof.
  intros Hd HN Hrun. unfold insert_vertices in Hrun.
  rewrite block_start_count in Hrun by lia.
  set (newSize := to_index (to_size (NNodes + splitCnt w))) in Hrun.
  apply bind_ok in Hrun as (coords & Hcoords & Hrun).
  apply bind_ok in Hrun as (met & _ & Hrun).
  apply bind_ok in Hrun as (nelist & _ & Hrun).
  apply bind_ok in Hrun as (nnlist & _ & Hrun).
  apply bind_ok in Hrun as (owner' & Howner & Hrun).
  apply bind_ok in Hrun as (coords' & Hcopy & Hrun).
  apply bind_ok in Hrun as (met' & _ & Hrun).
  destruct (Z.eqb_spec (size (newVertices w)) (splitCnt w)) as [Hcnt|];
    [|discriminate].
  cbn [negb] in Hrun.
  apply bind_ok in Hrun as (re' & _ & Hrun).
  injection Hrun as <- <- <- <-.
  apply vresize_inv in Hcoords as [Hsize ->].
  apply vresize_inv in Howner as [Hnew ->].
  apply memcpy_inv in Hcopy as (_ & _ & Hfit).
  unfold size in Hfit at 1. rewrite length_resize in Hfit.
  assert (Hcnt0 : 0 <= splitCnt w) by (rewrite <- Hcnt; unfold size; lia).
  pose proof (to_size_le (NNodes + splitCnt w)) as Hs.
  pose proof (to_index_le (to_size (NNodes + splitCnt w))) as Hi.
  fold newSize in Hi.
  assert (Hexact : newSize = NNodes + splitCnt w) by nia.
  rewrite Hcnt. split; [lia|]. split; [now rewrite <- Hexact|].
  cbn [newVertices]. apply imap_ext. intros i v Hv. cbn.
  apply lookup_lt_Some in Hv. unfold size in Hcnt.
  rewrite to_index_small by lia. reflexivity.
Qed.

Section Preserved.
Context `{Collaborators}.

Lemma refine_2d_vertices (m : Mesh) (l2g : list Z) (re : list (list Z))
    (n : list Z) (w w' : Worker) :
  refine_2d m l2g re n w = Ok (Some w') -> newVertices w' = newVertices w.
Proof.
  unfold refine_2d. intros Hrun.
  repeat match type of Hrun with
         | bind _ _ = Ok _ => apply bind_ok in Hrun as (? & _ & Hrun)
         | (if ?c then _ else _) = Ok _ => destruct c
         | match ?x with _ => _ end = Ok _ => destruct x
         | (let '(_, _) := ?x in _) = Ok _ => destruct x
         end;
    try discriminate Hrun; injection Hrun as <-; reflexivity.
Qed.

Lemma apply_3d_template_vertices (n newVertex : list Z) (splitEdges : list Edge)
    (w w' : Worker) :
  apply_3d_template n newVertex splitEdges w = Ok (Some w') ->
  newVertices w' = newVertices w.
Proof.
  unfold apply_3d_template. intros Hrun.
  repeat match type of Hrun with
         | bind _ _ = Ok _ => apply bind_ok in Hrun as (? & _ & Hrun)
         | (if ?c then _ else _) = Ok _ => destruct c
         | match ?x with _ => _ end = Ok _ => destruct x
         | (let '(_, _) := ?x in _) = Ok _ => destruct x
         end;
    try discriminate Hrun; injection Hrun as <-; reflexivity.
Qed.

Lemma refine_element_vertices (l2g : list Z) (re : list (list Z))
    (st st' : Mesh * Worker) (i : Z) :
  refine_element l2g re st i = Ok st' -> newVertices (snd st') = newVertices (snd st).
Proof.
  destruct st as [m w]. unfold refine_element. intros Hrun.
  apply bind_ok in Hrun as (n & _ & Hrun).
  apply bind_ok in Hrun as (first & _ & Hrun).
  destruct (first <? 0); [now injection Hrun as <-|].
  apply bind_ok in Hrun as ([w'|] & Hbody & Hrun).
  - apply bind_ok in Hrun as (m' & _ & Hrun). injection Hrun as <-. cbn [snd].
    destruct (ndims m =? 2).
    + eapply refine_2d_vertices; eauto.
    + unfold refine_3d in Hbody.
      apply bind_ok in Hbody as ([nv se] & _ & Hbody).
      eapply apply_3d_template_vertices; eauto.
  - now injection Hrun as <-.
Qed.

Lemma element_refinement_vertices (m m' : Mesh) (l2g : list Z)
    (re : list (list Z)) (NElements : Z) (w w' : Worker) :
  element_refinement m l2g re NElements w = Ok (m', w') ->
  newVertices w' = newVertices w.
Proof.
  unfold element_refinement. intros Hrun.
  apply bind_ok in Hrun as ([m1 w1] & Hloop & Hrun).
  apply bind_ok in Hrun as (enlist & _ & Hrun).
  apply bind_ok in Hrun as (enlist' & _ & Hrun).
  injection Hrun as _ <-. cbn [newVertices].
  apply (foldM_preserves
           (fun st => newVertices (snd st) = newVertices w)
           (refine_element l2g re) (seqZ 0 NElements)) in Hloop; [exact Hloop| |reflexivity].
  intros s x s' Hstep Hs. rewrite (refine_element_vertices _ _ _ _ _ Hstep). exact Hs.
Qed.

Lemma init_gnn2lnn_range (prior : gmap Z Z) (l2g : list Z) (NNodes g : Z) :
  0 < NNodes ->
  map_Forall (fun _ l => 0 <= l < NNodes) prior ->
  0 <= lnn_of (init_gnn2lnn prior l2g NNodes) g < NNodes.
Proof.
  intros HN Hprior. unfold lnn_of, init_gnn2lnn.
  assert (Hall : map_Forall (fun _ l => 0 <= l < NNodes)
                   (fold_left (fun g i => <[gnn l2g i := i]> g) (seqZ 0 NNodes) prior)).
  { assert (Hseq : Forall (fun i => 0 <= i < NNodes) (seqZ 0 NNodes)).
    { apply Forall_forall. intros i Hi. apply elem_of_seqZ in Hi. lia. }
    revert prior Hprior Hseq. generalize (seqZ 0 NNodes) as l.
    induction l as [|i rest IH]; intros prior Hprior Hseq; [exact Hprior|].
    apply Forall_cons in Hseq as [Hi Hrest]. cbn [fold_left].
    apply IH; [|exact Hrest]. now apply map_Forall_insert_2. }
  destruct (_ !! g) as [l|] eqn:Hl; cbn [default]; [|lia].
  exact (map_Forall_lookup_1 _ _ _ _ Hall Hl).
Qed.

End Preserved.

Lemma init_node_owner_size (rank nprocs : Z) (m : Mesh) (NNodes : Z) (owner : list Z) :
  0 <= NNodes ->
  init_node_owner rank nprocs m NNodes = Ok owner -> size owner = NNodes.
Proof.
  intros HN. unfold init_node_owner.
  assert (Hsize : size (replicate (Z.to_nat NNodes) rank) = NNodes).
  { unfold size. rewrite length_replicate. lia. }
  destruct (nprocs >? 1); [|now intros [= <-]].
  unfold owners_from_recv. intros Hrun.
  apply (foldM_preserves (fun o => size o = NNodes)) in Hrun; [exact Hrun| |exact Hsize].
  intros o p o' Hstep Ho.
  apply bind_ok in Hstep as (received & _ & Hstep).
  apply (foldM_preserves (fun o => size o = NNodes)) in Hstep; [exact Hstep| |exact Ho].
  intros o1 it o2 Hset Ho1. apply vset_inv in Hset as [_ ->].
  unfold size in *. now rewrite length_insert.
Qed.

(** C8, as the code has it. When [refine] returns (on a mesh with at least
    one and fewer than 2^31 vertices, the driver's map from GIDs to LIDs
    naming existing vertices): every new vertex has an id behind the original
    vertices; in a run on several partitions the recorded owner of every new
    vertex is the lesser of the recorded owners of the two ends of its edge;
    in a run on one partition the ownership loop is skipped and the recorded
    owner of every new vertex is -1, the value [node_owner] was filled up
    with. *)
Theorem refine_new_vertex_owner `{Collaborators} (fuel : nat) (r : Refine)
    (m : Mesh) (surface : Surface) (L_max : float) (o : Refined) :
  0 < ndims m ->
  0 < get_number_nodes m < 2 ^ 31 ->
  map_Forall (fun _ l => 0 <= l < get_number_nodes m) (gnn2lnn r) ->
  refine fuel r m surface L_max = Ok o ->
  Forall (fun v => exists id : Z,
            de_id v = Some id /\
            get_number_nodes m <= id < size (node_owner (out_driver o)))
         (out_newVertices o) /\
  (1 < nprocs r ->
     forall v, v ∈ out_newVertices o ->
       owner_is_min (gnn2lnn (out_driver o)) (node_owner (out_driver o)) v) /\
  (nprocs r <= 1 ->
     forall v id, v ∈ out_newVertices o -> de_id v = Some id ->
       node_owner (out_driver o) !! Z.to_nat id = Some (-1)).
Proof.
  intros Hd HN Hprior Hrun. unfold refine in Hrun.
  apply bind_ok in Hrun as (owner & Howner & Hrun).
  apply bind_ok in Hrun as (st & _ & Hrun).
  apply bind_ok in Hrun as ([re w] & _ & Hrun).
  apply bind_ok in Hrun as ([[[m1 owner1] re1] w1] & Hinsert & Hrun).
  apply bind_ok in Hrun as ([m2 w2] & Helems & Hrun).
  destruct (negb _); [discriminate|].
  apply bind_ok in Hrun as ([m3 owner3] & Hhalo & Hrun).
  apply bind_ok in Hrun as (m4 & _ & Hrun).
  injection Hrun as <-. cbn [out_newVertices out_driver node_owner gnn2lnn].
  apply init_node_owner_size in Howner; [|lia].
  apply insert_vertices_inv in Hinsert as (Hfew & -> & Hids); [|exact Hd|lia].
  apply element_refinement_vertices in Helems. rewrite Hids in Helems.
  set (g2l := init_gnn2lnn (gnn2lnn r) _ _) in *.
  set (N := get_number_nodes m) in *.
  set (newSize := Z.to_nat (N + size (newVertices w))) in *.
  assert (Hplaced : Forall (well_placed g2l N (size (resize newSize (-1) owner)))
                           (newVertices w2)).
  { rewrite Helems. apply Forall_lookup. intros i v Hv.
    rewrite list_lookup_imap in Hv.
    destruct (newVertices w !! i) as [v0|] eqn:Hv0; [|discriminate].
    injection Hv as <-. apply lookup_lt_Some in Hv0.
    unfold well_placed, size. rewrite length_resize. cbn [with_id de_id de_first de_second].
    split; [exists (N + Z.of_nat i); split; [reflexivity|unfold newSize, size; lia]|].
    split; apply init_gnn2lnn_range; auto; lia. }
  assert (Hdup : NoDup (de_id <$> newVertices w2)).
  { rewrite Helems. apply NoDup_alt. intros i j x Hi Hj.
    rewrite list_lookup_fmap, list_lookup_imap in Hi, Hj.
    destruct (newVertices w !! i); [|discriminate].
    destruct (newVertices w !! j); [|discriminate].
    cbn in Hi, Hj. rewrite <- Hi in Hj. injection Hj. lia. }
  destruct (halo_phase_owner _ _ _ _ _ owner _ _ _ newSize _ _ _
              Howner eq_refl Hplaced Hdup Hhalo) as [Hmulti Hserial].
  split; [|split; assumption].
  assert (Hsame : size owner3 = size (resize newSize (-1) owner)).
  { unfold halo_phase in Hhalo. destruct (nprocs r >? 1); [|now injection Hhalo as _ <-].
    unfold amend_halo in Hhalo.
    apply bind_ok in Hhalo as ([lut owner'] & Hassign & Hhalo).
    apply bind_ok in Hhalo as ([m5 [sends recvs]] & _ & Hhalo).
    apply bind_ok in Hhalo as ([s1 s2] & _ & Hhalo).
    apply bind_ok in Hhalo as ([r1 r2] & _ & Hhalo).
    injection Hhalo as _ <-.
    destruct (assign_owners_from g2l N (newVertices w2) ∅ _ Hplaced Hdup)
      as (lut' & owner'' & Hassign' & Hlen & _).
    { intros. apply lookup_empty. }
    unfold assign_owners in Hassign. rewrite Hassign' in Hassign.
    injection Hassign as _ <-. unfold size. now rewrite Hlen. }
  rewrite Hsame. eapply Forall_impl; [exact Hplaced|].
  intros v [Hid _]. exact Hid.
Qed.

(** On rank 1 of two, the skew triangle whose vertex 1 is a ghost owned by
    rank 0: the new vertex 3 on the edge (0,2) is owned by rank 1, the new
    vertex 4 on the edge (1,0) by rank 0. *)
Lemma refine_new_vertex_owner_witness :
  exists o : @Refined Example.second_rank_with_ghost,
    @refine Example.second_rank_with_ghost 1 Example.driver_of_second_rank
            Example.skew_triangle_with_ghost tt 0.75%float = Ok o /\
    out_newVertices o = [mkDirectedEdge 10 12 (Some 3); mkDirectedEdge 4 10 (Some 4)] /\
    node_owner (out_driver o) = [1; 0; 1; 1; 0] /\
    Forall (owner_is_min (gnn2lnn (out_driver o)) (node_owner (out_driver o)))
           (out_newVertices o).
Proof.
  eexists. split; [vm_compute; reflexivity|].
  split; [reflexivity|]. split; [reflexivity|].
  apply Forall_forall.
  refine (proj1 (proj2 (@refine_new_vertex_owner Example.second_rank_with_ghost 1
                          Example.driver_of_second_rank
                          Example.skew_triangle_with_ghost tt 0.75%float _ _ _ _ _)) _).
  - reflexivity.
  - vm_compute. split; reflexivity.
  - apply map_Forall_empty.
  - vm_compute. reflexivity.
  - reflexivity.
Defined.

(** C8, the claim as stated fails. On one partition, the unit triangle with
    only its edge (1,2) split: the new vertex 3 lies between two vertices
    owned by rank 0 and its recorded owner is -1. *)
Lemma serial_new_vertex_owner_unset :
  exists o : @Refined Example.serial,
    @refine Example.serial 1 Example.driver Example.unit_triangle tt 1.25%float = Ok o /\
    out_refined_edges o = [[-1; -1; -1; -1]; [-1; -1; 3; 0]; [-1; -1; -1; -1]] /\
    node_owner (out_driver o) = [0; 0; 0; -1] /\
    node_owner (out_driver o) !! 3%nat <> Some (Z.min 0 0).
Proof.
  eexists. split; [vm_compute; reflexivity|]. repeat split. discriminate.
Qed.

(** *** A mesh without long edges *)

Lemma foldM_ok_id {A S : Type} (f : S -> A -> result S) (l : list A) (s : S) :
  (forall x, x ∈ l -> f s x = Ok s) -> foldM f s l = Ok s.
Proof.
  induction l as [|x rest IH]; intros Hall; [reflexivity|].
  cbn [foldM]. rewrite Hall by (apply elem_of_cons; now left). cbn [bind].
  apply IH. intros y Hy. apply Hall. apply elem_of_cons. now right.
Qed.

Lemma seqZ_snoc (m : Z) (k : nat) :
  seqZ m (Z.of_nat (S k)) = seqZ m (Z.of_nat k) ++ [m + Z.of_nat k].
Proof.
  replace (Z.of_nat (S k)) with (Z.of_nat k + 1) by lia.
  rewrite seqZ_app by lia. reflexivity.
Qed.

Lemma foldM_app {A S : Type} (f : S -> A -> result S) (l k : list A) (s : S) :
  foldM f s (l ++ k) = (do s' <- foldM f s l; foldM f s' k).
Proof.
  revert s. induction l as [|x rest IH]; intros s; [reflexivity|].
  cbn [foldM app]. destruct (f s x) as [s'|e]; cbn [bind]; [apply IH|reflexivity].
Qed.

Section FineMesh.
Context `{Collaborators}.
Variables (L_max : float) (m : Mesh) (l2g : list Z).

(** No edge, taken with the endpoint of lesser GID first, is longer than
    [L_max]. *)
Hypothesis fine :
  forall (i : nat) (nn : list Z) (u : Z),
    NNList m !! i = Some nn -> u ∈ nn ->
    gnn l2g (Z.of_nat i) < gnn l2g u ->
    (calc_edge_length m (Z.of_nat i) u <=? L_max)%float = true.

Lemma select_edges_fine (i : nat) (nn : list Z) :
  forall (it : Z) (suffix : list Z) (st : list (list Z) * Worker),
    NNList m !! i = Some nn -> suffix ⊆ nn ->
    select_edges L_max m l2g (Z.of_nat i) it suffix st = Ok st.
Proof.
  intros it suffix. revert it. induction suffix as [|u rest IH]; intros it st Hnn Hsub;
    [reflexivity|].
  assert (Hu : u ∈ nn) by (apply Hsub, elem_of_cons; now left).
  assert (Hrest : rest ⊆ nn).
  { intros x Hx. apply Hsub, elem_of_cons. now right. }
  cbn [select_edges]. cbv zeta.
  destruct (Z.ltb_spec (gnn l2g (Z.of_nat i)) (gnn l2g u)) as [Hlt|].
  - rewrite (ltb_of_leb _ _ (fine i nn u Hnn Hu Hlt)). cbn [bind]. now apply IH.
  - cbn [bind]. now apply IH.
Qed.

Lemma edge_selection_prefix (k : nat) :
  (k <= length (NNList m))%nat ->
  forall rest : nat,
    foldM (select_vertex L_max m l2g)
          (replicate (k + rest) [], empty_worker) (seqZ 0 (Z.of_nat k))
    = Ok (map (fun nn => replicate (2 * length nn) (-1)) (take k (NNList m))
            ++ replicate rest [], empty_worker).
Proof.
  induction k as [|k IH]; intros Hk rest; [reflexivity|].
  rewrite seqZ_snoc, foldM_app.
  replace (S k + rest)%nat with (k + S rest)%nat by lia.
  rewrite IH by lia. cbn [bind foldM]. rewrite Z.add_0_l.
  destruct (lookup_lt_is_Some_2 (NNList m) k) as [nn Hnn]; [lia|].
  assert (Hlen : length (map (fun nn => replicate (2 * length nn) (-1)) (take k (NNList m))) = k).
  { rewrite length_map, length_take. lia. }
  unfold select_vertex.
  rewrite (vget_nat (NNList m) k nn Hnn). cbn [bind].
  rewrite (vget_nat _ k []).
  2: { rewrite lookup_app_r by lia. rewrite Hlen, Nat.sub_diag. reflexivity. }
  cbn [bind].
  rewrite vset_ok.
  2: { unfold size. rewrite length_app, Hlen, length_replicate. lia. }
  cbn [bind]. rewrite (select_edges_fine k nn) by (auto; reflexivity).
  f_equal. f_equal.
  rewrite Nat2Z.id, (take_S_r _ _ nn Hnn), map_app, <- app_assoc. cbn [map app].
  rewrite insert_app_r_alt by lia. rewrite Hlen, Nat.sub_diag. cbn.
  rewrite resize_nil.
  replace (Z.to_nat (2 * size nn)) with (length nn + (length nn + 0))%nat
    by (unfold size; lia).
  reflexivity.
Qed.

Lemma edge_selection_fine :
  size (NNList m) = get_number_nodes m ->
  edge_selection L_max m l2g (get_number_nodes m) = Ok (unset_edges m, empty_worker).
Proof.
  intros Hsize. unfold edge_selection, unset_edges, size in *.
  rewrite <- Hsize, Nat2Z.id.
  pose proof (edge_selection_prefix (length (NNList m)) (le_n _) 0) as Hrun.
  rewrite Nat.add_0_r, firstn_all, app_nil_r in Hrun. exact Hrun.
Qed.

End FineMesh.

(** *** Unset slots *)

Lemma find_neighbour_range (nn : list Z) (n1 pos p : Z) :
  find_neighbour nn n1 pos = Some p -> pos <= p < pos + size nn.
Proof.
  revert pos. unfold size.
  induction nn as [|x rest IH]; intros pos; simpl; [discriminate|].
  destruct (x =? n1).
  - intros [= <-]. lia.
  - intros Hp. apply IH in Hp. lia.
Qed.

Lemma element_edges_in (n : list Z) (a b : Z) :
  (a, b) ∈ element_edges n -> a ∈ n /\ b ∈ n.
Proof.
  induction n as [|x rest IH]; simpl; intros Hin; [inversion Hin|].
  apply elem_of_app in Hin as [Hin|Hin].
  - apply list_elem_of_fmap in Hin as (y & [= -> ->] & Hy).
    split; apply elem_of_cons; auto.
  - destruct (IH Hin). split; apply elem_of_cons; auto.
Qed.

Lemma fix_ids_unset (threadIdxs : list Z) (k : nat) :
  fix_ids threadIdxs (replicate (2 * k) (-1)) = Ok (replicate (2 * k) (-1)).
Proof.
  induction k as [|k IH]; [reflexivity|].
  replace (2 * S k)%nat with (S (S (2 * k))) by lia.
  cbn [replicate fix_ids]. rewrite IH. reflexivity.
Qed.

Lemma mapM_ok_id {A : Type} (f : A -> result A) (l : list A) :
  (forall x, x ∈ l -> f x = Ok x) -> mapM f l = Ok l.
Proof.
  induction l as [|x rest IH]; intros Hall; [reflexivity|].
  cbn [mapM]. rewrite Hall by (apply elem_of_cons; now left). cbn [bind].
  rewrite IH; [reflexivity|]. intros y Hy. apply Hall, elem_of_cons. now right.
Qed.

Lemma block_start_zero (count : Z) : 0 <= count < 2 ^ 31 -> block_start count 0 = count.
Proof.
  intros Hc. unfold block_start. rewrite Z.sub_0_r, Z.add_0_l.
  now rewrite !to_size_small by (rewrite ?to_size_small; lia).
Qed.

Lemma vresize_same {A : Type} (v : list A) (n : Z) (x : A) :
  size v = n -> vresize v n x = Ok v.
Proof.
  intros Hn. unfold vresize, size in *.
  destruct (Z.ltb_spec n 0); [lia|]. f_equal. apply resize_all_alt. lia.
Qed.

Lemma memcpy_nothing {A : Type} (dst src : list A) (off : Z) :
  off = size dst -> memcpy dst off src 0 = Ok dst.
Proof.
  intros ->. unfold memcpy, size.
  destruct (Z.leb_spec 0 (Z.of_nat (length dst))); [|lia].
  destruct (Z.leb_spec (Z.of_nat (length dst) + 0) (Z.of_nat (length dst))); [|lia].
  destruct (Z.leb_spec 0 (Z.of_nat (length src))); [|lia].
  cbn [andb]. rewrite Z.add_0_r, Nat2Z.id, firstn_all, drop_all.
  change (Z.to_nat 0) with 0%nat. now rewrite take_0, !app_nil_r.
Qed.

Section Unset.
Context `{Collaborators}.
Variables (m : Mesh) (l2g : list Z).
Hypothesis wf : well_formed m.

Lemma get_new_vertex_unset (n0 n1 : Z) :
  0 <= n0 < get_number_nodes m -> 0 <= n1 < get_number_nodes m ->
  get_new_vertex m l2g n0 n1 (unset_edges m) = Ok (-1).
Proof.
  intros H0 H1. unfold get_new_vertex.
  assert (Hlo : 0 <= fst (lesser_first l2g n0 n1) < get_number_nodes m).
  { unfold lesser_first. destruct (_ >? _); assumption. }
  destruct (lesser_first l2g n0 n1) as [lo hi]. simpl in Hlo.
  rewrite <- (wf_NNList m wf) in Hlo. unfold size in Hlo.
  destruct (lookup_lt_is_Some_2 (NNList m) (Z.to_nat lo)) as [nn Hnn]; [lia|].
  rewrite (vget_ok _ _ nn) by (try lia; exact Hnn). cbn [bind].
  destruct (find_neighbour nn hi 0) as [pos|] eqn:Hfind; [|reflexivity].
  apply find_neighbour_range in Hfind. unfold size in Hfind.
  unfold get_slot, unset_edges.
  rewrite (vget_ok _ lo (replicate (2 * length nn) (-1))).
  - cbn [bind]. apply vget_ok; [lia|]. apply lookup_replicate. split; [reflexivity|lia].
  - lia.
  - rewrite list_lookup_fmap, Hnn. reflexivity.
Qed.

Lemma split_set_unset (n : list Z) :
  Forall (fun v => 0 <= v < get_number_nodes m) n ->
  split_set m l2g (unset_edges m) n = Ok [].
Proof.
  intros Hn. unfold split_set. apply foldM_ok_id.
  intros [a b] Hab. apply element_edges_in in Hab as [Ha Hb].
  rewrite Forall_forall in Hn.
  rewrite get_new_vertex_unset by auto. reflexivity.
Qed.

Lemma split_edges_unset (n : list Z) :
  Forall (fun v => 0 <= v < get_number_nodes m) n ->
  split_edges m l2g (unset_edges m) n = Ok ([], []).
Proof.
  intros Hn. unfold split_edges. apply foldM_ok_id.
  intros [a b] Hab. apply element_edges_in in Hab as [Ha Hb].
  rewrite Forall_forall in Hn.
  rewrite get_new_vertex_unset by auto. reflexivity.
Qed.

(** An element of the mesh and its first vertex. *)
Lemma get_element_ok (i : Z) :
  0 <= i < get_number_elements m ->
  exists n first,
    get_element m i = Ok n /\ n !! 0%nat = Some first /\ vget n 0 = Ok first /\
    size n = nloc_of (ndims m).
Proof.
  intros Hi. unfold get_element.
  assert (Hnloc : 3 <= nloc_of (ndims m)) by (unfold nloc_of; destruct (_ =? _); lia).
  pose proof (wf_ENList m wf) as Hsize.
  rewrite slice_ok by nia.
  set (n := take _ _).
  assert (Hlen : size n = nloc_of (ndims m)).
  { unfold n, size in *. rewrite length_take, length_drop. nia. }
  destruct n as [|first rest] eqn:Hn; [unfold size in Hlen; simpl in Hlen; lia|].
  exists (first :: rest), first. repeat split; auto.
Qed.

Lemma propagate_element_unset (k i : Z) :
  0 <= i < get_number_elements m ->
  propagate_element m l2g (unset_edges m, k) i = Ok (unset_edges m, k).
Proof.
  intros Hi. destruct (get_element_ok i Hi) as (n & first & Hn & Hfirst & Hget & _).
  unfold propagate_element. rewrite Hn. cbn [bind]. rewrite Hget. cbn [bind].
  destruct (Z.ltb_spec first 0); [reflexivity|].
  rewrite split_set_unset; [reflexivity|].
  eapply (wf_vertices m wf); eauto.
Qed.

Lemma propagate_sweep_unset :
  propagate_sweep m l2g (get_number_elements m) (unset_edges m) = Ok (unset_edges m, 0).
Proof.
  unfold propagate_sweep. apply foldM_ok_id.
  intros i Hi. apply elem_of_seqZ in Hi. apply propagate_element_unset. lia.
Qed.

Lemma propagate_unset (fuel : nat) (nprocs : Z) (w : Worker) :
  (0 < fuel)%nat ->
  (1 < nprocs -> remote_new_edges 0 = 0) ->
  propagate fuel 0 nprocs m l2g (get_number_nodes m) (get_number_elements m)
            (unset_edges m, w)
  = Ok (unset_edges m, w).
Proof.
  intros Hfuel Hremote. destruct fuel as [|fuel]; [lia|].
  cbn [propagate fst snd]. rewrite propagate_sweep_unset. cbn [bind].
  destruct (Z.gtb_spec nprocs 1) as [Hmulti|]; [rewrite Hremote by lia|]; reflexivity.
Qed.

Lemma fix_ids_unset_edges (threadIdxs : list Z) :
  mapM (fix_ids threadIdxs) (unset_edges m) = Ok (unset_edges m).
Proof.
  apply mapM_ok_id. intros row Hrow. unfold unset_edges in Hrow.
  apply list_elem_of_fmap in Hrow as (nn & -> & _). apply fix_ids_unset.
Qed.

Lemma insert_vertices_nothing (owner : list Z) :
  size owner = get_number_nodes m ->
  insert_vertices m owner (get_number_nodes m) (unset_edges m) empty_worker
  = Ok (m, owner, unset_edges m, mkWorker [] [] [] [] 0 (get_number_nodes m) []).
Proof.
  intros Howner. destruct wf as [Hd Hc Hm Hnn Hne _ Hnodes _ _].
  assert (Hpos : 0 <= get_number_nodes m).
  { rewrite <- Hnn. unfold size. lia. }
  unfold insert_vertices. cbn [splitCnt newCoords newMetric newVertices empty_worker
                                newElements cerr].
  rewrite block_start_zero by lia. rewrite Z.add_0_r.
  rewrite to_size_small, to_index_small by lia.
  rewrite (vresize_same (_coords m)) by exact Hc. cbn [bind].
  rewrite (vresize_same (metric m)) by exact Hm. cbn [bind].
  rewrite (vresize_same (NEList m)) by exact Hne. cbn [bind].
  rewrite (vresize_same (NNList m)) by exact Hnn. cbn [bind].
  rewrite (vresize_same owner) by exact Howner. cbn [bind].
  rewrite !Z.mul_0_r.
  rewrite memcpy_nothing by (symmetry; exact Hc). cbn [bind].
  rewrite memcpy_nothing by (symmetry; exact Hm). cbn [bind].
  cbn [size length Z.of_nat Z.eqb negb imap].
  rewrite fix_ids_unset_edges. cbn [bind].
  destruct m. reflexivity.
Qed.

End Unset.

Section Untouched.
Context `{Collaborators}.
Variables (m : Mesh) (l2g : list Z).
Hypothesis wf : well_formed m.

Lemma refine_2d_unset (n : list Z) (w : Worker) :
  size n = 3 ->
  Forall (fun v => 0 <= v < get_number_nodes m) n ->
  refine_2d m l2g (unset_edges m) n w = Ok None.
Proof.
  intros Hsize Hn.
  destruct n as [|n0 [|n1 [|n2 [|]]]];
    try (unfold size in Hsize; cbn [length] in Hsize; lia).
  apply Forall_cons in Hn as [H0 Hn]. apply Forall_cons in Hn as [H1 Hn].
  apply Forall_cons in Hn as [H2 _].
  unfold refine_2d.
  change (vget [n0; n1; n2] 0) with (Ok n0).
  change (vget [n0; n1; n2] 1) with (Ok n1).
  change (vget [n0; n1; n2] 2) with (Ok n2).
  cbn [bind].
  rewrite !(get_new_vertex_unset m l2g wf) by assumption. reflexivity.
Qed.

Lemma refine_3d_unset (n : list Z) (w : Worker) :
  Forall (fun v => 0 <= v < get_number_nodes m) n ->
  refine_3d m l2g (unset_edges m) n w = Ok None.
Proof.
  intros Hn. unfold refine_3d. now rewrite (split_edges_unset m l2g wf).
Qed.

Lemma refine_element_unset (w : Worker) (i : Z) :
  0 <= i < get_number_elements m ->
  refine_element l2g (unset_edges m) (m, w) i = Ok (m, w).
Proof.
  intros Hi. destruct (get_element_ok m wf i Hi) as (n & first & Hn & Hfirst & Hget & Hsize).
  unfold refine_element. rewrite Hn. cbn [bind]. rewrite Hget. cbn [bind].
  destruct (Z.ltb_spec first 0); [reflexivity|].
  assert (Hrange : Forall (fun v => 0 <= v < get_number_nodes m) n)
    by (eapply (wf_vertices m wf); eauto).
  unfold nloc_of in Hsize. destruct (ndims m =? 2).
  - now rewrite refine_2d_unset.
  - now rewrite refine_3d_unset.
Qed.

Lemma element_refinement_nothing (w : Worker) :
  newElements w = [] ->
  element_refinement m l2g (unset_edges m) (get_number_elements m) w
  = Ok (m, mkWorker (newVertices w) (newCoords w) (newMetric w) []
                    0 (get_number_elements m) (cerr w)).
Proof.
  intros Hnone. unfold element_refinement.
  rewrite (foldM_ok_id _ _ (m, reset_splitCnt w)).
  2: { intros i Hi. apply elem_of_seqZ in Hi. apply refine_element_unset. lia. }
  cbn [bind reset_splitCnt splitCnt newElements newVertices newCoords newMetric cerr].
  pose proof (wf_ENList m wf) as Hsize. pose proof (wf_elements m wf) as Hsmall.
  assert (Hpos : 0 <= get_number_elements m).
  { unfold get_number_elements. apply Z.div_pos; [unfold size; lia|].
    unfold nloc_of. destruct (_ =? _); lia. }
  rewrite block_start_zero by lia. rewrite Z.add_0_r.
  rewrite to_size_small, to_index_small by lia.
  rewrite vresize_same by exact Hsize. cbn [bind].
  rewrite Z.mul_0_r, memcpy_nothing by (symmetry; exact Hsize). cbn [bind].
  rewrite Hnone. destruct m. reflexivity.
Qed.

Lemma extend_halo_nothing (nprocs : Z) (lists : list (list Z)) (halo : list Z) :
  extend_halo nprocs (replicate (Z.to_nat nprocs) []) lists halo = Ok (lists, halo).
Proof.
  unfold extend_halo. apply foldM_ok_id.
  intros i Hi. apply elem_of_seqZ in Hi.
  rewrite (vget_ok _ i []); [reflexivity|lia|].
  apply lookup_replicate. split; [reflexivity|lia].
Qed.

Lemma halo_phase_nothing (rank nprocs : Z) (g2l : gmap Z Z) (owner : list Z)
    (w : Worker) (origNNodes : Z) :
  newVertices w = [] ->
  halo_phase rank nprocs g2l m owner w origNNodes
             (get_number_elements m) (get_number_elements m)
  = Ok (m, owner).
Proof.
  intros Hnone. unfold halo_phase. destruct (nprocs >? 1); [|reflexivity].
  unfold amend_halo, assign_owners. rewrite Hnone. cbn [foldM bind].
  rewrite Z.sub_diag. cbn [seqZ foldM bind].
  change (seqZ (get_number_elements m) 0) with (@nil Z). cbn [foldM bind].
  rewrite !extend_halo_nothing. cbn [bind]. destruct m. reflexivity.
Qed.

End Untouched.

(** *** The owners of the original vertices *)

Lemma owner_writes_ok (p : Z) (received owner : list Z) :
  Forall (fun it => 0 <= it < size owner) received ->
  exists owner',
    foldM (fun o it => vset o it p) owner received = Ok owner' /\
    size owner' = size owner.
Proof.
  revert owner. induction received as [|it rest IH]; intros owner Hall.
  - exists owner. auto.
  - apply Forall_cons in Hall as [Hit Hrest]. cbn [foldM].
    rewrite vset_ok by exact Hit. cbn [bind].
    assert (Hsize : size (<[Z.to_nat it := p]> owner) = size owner).
    { unfold size. now rewrite length_insert. }
    destruct (IH (<[Z.to_nat it := p]> owner)) as (owner' & Hrun & Hlen).
    + now rewrite Hsize.
    + exists owner'. split; [exact Hrun|congruence].
Qed.

Lemma owners_from_recv_ok (ranks : list Z) (recv_lists : list (list Z)) :
  forall owner : list Z,
    Forall (fun p => 0 <= p < size recv_lists) ranks ->
    Forall (Forall (fun it => 0 <= it < size owner)) recv_lists ->
    exists owner',
      foldM (fun o i =>
               do received <- vget recv_lists i;
               foldM (fun o it => vset o it i) o received)
            owner ranks = Ok owner' /\
      size owner' = size owner.
Proof.
  induction ranks as [|p rest IH]; intros owner Hranks Hlists.
  - exists owner. auto.
  - apply Forall_cons in Hranks as [Hp Hrest]. cbn [foldM].
    destruct (lookup_lt_is_Some_2 recv_lists (Z.to_nat p)) as [received Hrecv];
      [unfold size in Hp; lia|].
    rewrite (vget_ok _ p received) by (try lia; exact Hrecv). cbn [bind].
    destruct (owner_writes_ok p received owner) as (owner1 & Hrun1 & Hsize1).
    { rewrite Forall_forall in Hlists. apply Hlists.
      apply list_elem_of_lookup. eauto. }
    rewrite Hrun1. cbn [bind].
    destruct (IH owner1 Hrest) as (owner' & Hrun & Hsize).
    + now rewrite Hsize1.
    + exists owner'. split; [exact Hrun|congruence].
Qed.

Lemma init_node_owner_ok (rank nprocs : Z) (m : Mesh) :
  0 <= get_number_nodes m ->
  halo_in_range nprocs m ->
  exists owner,
    init_node_owner rank nprocs m (get_number_nodes m) = Ok owner /\
    size owner = get_number_nodes m.
Proof.
  intros Hpos Hhalo. unfold init_node_owner.
  assert (Hsize : size (replicate (Z.to_nat (get_number_nodes m)) rank)
                  = get_number_nodes m).
  { unfold size. rewrite length_replicate. lia. }
  destruct (Z.gtb_spec nprocs 1) as [Hmulti|]; [|eauto].
  destruct (Hhalo Hmulti) as [Hlists Hrange].
  destruct (owners_from_recv_ok (seqZ 0 nprocs) (recv m)
              (replicate (Z.to_nat (get_number_nodes m)) rank))
    as (owner & Hrun & Hlen).
  - apply Forall_forall. intros p Hp. apply elem_of_seqZ in Hp. lia.
  - now rewrite Hsize.
  - exists owner. split; [exact Hrun|congruence].
Qed.

(** C9. On a well-formed mesh none of whose edges (measured with the
    endpoint of lesser GID first) is longer than [L_max], and with nothing
    marked on the other ranks, [refine] returns; no slot of [refined_edges]
    is set, nothing is printed, and the mesh it leaves is the input mesh as
    handed to [create_adjancy]: no vertex appended, no element erased,
    coordinates, metric, elements and halo as they were. *)
Theorem refine_fine_mesh_unchanged `{Collaborators} (fuel : nat) (r : Refine)
    (m : Mesh) (surface : Surface) (L_max : float) :
  well_formed m ->
  halo_in_range (nprocs r) m ->
  (0 < fuel)%nat ->
  (1 < nprocs r -> remote_new_edges 0 = 0) ->
  (forall (i : nat) (nn : list Z) (u : Z),
      NNList m !! i = Some nn -> u ∈ nn ->
      gnn (init_lnn2gnn (nprocs r) (get_number_nodes m)) (Z.of_nat i)
      < gnn (init_lnn2gnn (nprocs r) (get_number_nodes m)) u ->
      (calc_edge_length m (Z.of_nat i) u <=? L_max)%float = true) ->
  exists o : Refined,
    refine fuel r m surface L_max = Ok o /\
    out_mesh o = create_adjancy m /\
    out_refined_edges o = unset_edges m /\
    out_cerr o = [] /\
    size (node_owner (out_driver o)) = get_number_nodes m.
Proof.
  intros wf Hhalo Hfuel Hremote Hfine.
  assert (Hpos : 0 <= get_number_nodes m).
  { rewrite <- (wf_NNList m wf). unfold size. lia. }
  destruct (init_node_owner_ok (rank r) (nprocs r) m Hpos Hhalo) as (owner & Howner & Hsize).
  unfold refine. rewrite Howner. cbn [bind].
  rewrite (edge_selection_fine L_max m _ Hfine (wf_NNList m wf)). cbn [bind].
  assert (Hprop : (if ndims m =? 3
                   then propagate fuel 0 (nprocs r) m
                          (init_lnn2gnn (nprocs r) (get_number_nodes m))
                          (get_number_nodes m) (get_number_elements m)
                          (unset_edges m, empty_worker)
                   else Ok (unset_edges m, empty_worker))
                  = Ok (unset_edges m, empty_worker)).
  { destruct (ndims m =? 3); [|reflexivity]. now apply propagate_unset. }
  rewrite Hprop. cbn [bind].
  rewrite (insert_vertices_nothing m wf owner Hsize). cbn [bind].
  rewrite (element_refinement_nothing m _ wf) by reflexivity. cbn [bind].
  cbn [newVertices newCoords newMetric cerr].
  rewrite Hsize, Z.eqb_refl. cbn [negb].
  eexists. split.
  - rewrite (halo_phase_nothing m wf) by reflexivity. cbn [bind].
    rewrite Z.sub_diag.
    change (seqZ (get_number_elements m) 0) with (@nil Z). cbn [foldM bind].
    reflexivity.
  - cbn. auto.
Qed.

(** *** The edge-selection pass *)

Lemma slot_settled_mono `{Collaborators} (L_max : float) (m : Mesh) (l2g : list Z)
    (i : Z) (row : list Z) (b b' : Z) (t : nat) (u : Z) :
  b <= b' -> slot_settled L_max m l2g i row b t u -> slot_settled L_max m l2g i row b' t u.
Proof.
  intros Hb. unfold slot_settled. destruct (selected L_max m l2g i u); [|auto].
  intros [(off & Hoff & Hrange) Htag]. split; [|exact Htag].
  exists off. split; [exact Hoff|lia].
Qed.

Lemma size_concat_take (l : list (list Z)) (k : nat) :
  size (concat (take k l)) <= size (concat l).
Proof.
  rewrite <- (take_drop k l) at 2. rewrite concat_app. unfold size.
  rewrite length_app. lia.
Qed.

Section Selection.
Context `{Collaborators}.
Variables (L_max : float) (m : Mesh) (l2g : list Z).
Hypothesis wf : well_formed m.

Lemma get_coords_ok (n : Z) :
  0 <= n < get_number_nodes m -> exists x, get_coords m n = Ok x.
Proof.
  intros Hn. unfold get_coords.
  pose proof (wf_coords m wf). pose proof (wf_dims m wf).
  rewrite slice_ok by nia. eauto.
Qed.

Lemma get_metric_ok (n : Z) :
  0 <= n < get_number_nodes m -> exists x, get_metric m n = Ok x.
Proof.
  intros Hn. unfold get_metric.
  pose proof (wf_metric m wf). pose proof (wf_dims m wf).
  rewrite slice_ok by nia. eauto.
Qed.

Lemma refine_edge_ok (n0 n1 : Z) (w : Worker) :
  0 <= n0 < get_number_nodes m -> 0 <= n1 < get_number_nodes m ->
  exists w', refine_edge m l2g n0 n1 w = Ok w' /\ splitCnt w' = splitCnt w.
Proof.
  intros H0 H1.
  destruct (lesser_first l2g n0 n1) as [lo hi] eqn:Hord.
  assert (Hlo : 0 <= lo < get_number_nodes m /\ 0 <= hi < get_number_nodes m).
  { unfold lesser_first in Hord. destruct (_ >? _); injection Hord as <- <-; auto. }
  destruct Hlo as [Hlo Hhi].
  destruct (get_coords_ok lo Hlo) as [x0 Hx0]. destruct (get_metric_ok lo Hlo) as [m0 Hm0].
  destruct (get_coords_ok hi Hhi) as [x1 Hx1]. destruct (get_metric_ok hi Hhi) as [m1 Hm1].
  rewrite (refine_edge_ordered m l2g lo hi x0 x1 m0 m1 w n0 n1 Hord Hx0 Hm0 Hx1 Hm1).
  eexists. split; reflexivity.
Qed.

Lemma stage_edge_ok (i : nat) (t : nat) (u : Z) (re : list (list Z)) (w : Worker)
    (row : list Z) :
  re !! i = Some row -> (2 * t + 1 < length row)%nat ->
  Z.of_nat i < get_number_nodes m -> 0 <= u < get_number_nodes m ->
  0 <= splitCnt w < 2 ^ 31 - 1 ->
  exists w',
    stage_edge m l2g (Z.of_nat i) (Z.of_nat t) u (re, w)
    = Ok (<[i := <[(2 * t + 1)%nat := get_tid]> (<[(2 * t)%nat := splitCnt w]> row)]> re, w')
    /\ splitCnt w' = splitCnt w + 1.
Proof.
  intros Hrow Hlen Hi Hu Hcnt.
  assert (Hire : (i < length re)%nat) by (eapply lookup_lt_Some; eauto).
  unfold stage_edge, set_slot.
  rewrite (vget_nat re i row Hrow). cbn [bind].
  rewrite vset_ok by (unfold size; lia). cbn [bind].
  rewrite vset_ok by (unfold size; lia). cbn [bind].
  rewrite Nat2Z.id.
  rewrite (vget_nat _ i (<[Z.to_nat (2 * Z.of_nat t) := to_index (splitCnt w)]> row))
    by (now apply list_lookup_insert_eq).
  cbn [bind].
  rewrite vset_ok by (unfold size; rewrite length_insert; lia). cbn [bind].
  rewrite vset_ok by (unfold size; rewrite length_insert; lia). cbn [bind].
  rewrite Nat2Z.id, list_insert_insert_eq.
  destruct (refine_edge_ok (Z.of_nat i) u (bump_splitCnt w)) as (w' & Hrun & Hsame);
    [lia|exact Hu|].
  rewrite Hrun. cbn [bind]. exists w'. split.
  - do 2 f_equal. rewrite to_index_small by lia.
    replace (Z.to_nat (2 * Z.of_nat t)) with (2 * t)%nat by lia.
    replace (Z.to_nat (2 * Z.of_nat t + 1)) with (2 * t + 1)%nat by lia.
    reflexivity.
  - rewrite Hsame. cbn [bump_splitCnt splitCnt]. apply to_size_small. lia.
Qed.

Lemma select_edges_settles (i : nat) (suffix : list Z) :
  Z.of_nat i < get_number_nodes m ->
  forall (pre : nat) (re : list (list Z)) (w : Worker) (row : list Z),
    re !! i = Some row ->
    length row = (2 * (pre + length suffix))%nat ->
    (forall t, (pre <= t < pre + length suffix)%nat -> slot_unset row t) ->
    Forall (fun u => 0 <= u < get_number_nodes m) suffix ->
    0 <= splitCnt w -> splitCnt w + size suffix < 2 ^ 31 ->
    exists (w' : Worker) (row' : list Z),
      select_edges L_max m l2g (Z.of_nat i) (Z.of_nat pre) suffix (re, w)
      = Ok (<[i := row']> re, w') /\
      length row' = length row /\
      (forall j, (j < 2 * pre)%nat -> row' !! j = row !! j) /\
      (forall k u, suffix !! k = Some u ->
         slot_settled L_max m l2g (Z.of_nat i) row' (splitCnt w') (pre + k) u) /\
      splitCnt w <= splitCnt w' <= splitCnt w + size suffix.
Proof.
  intros Hi. unfold size.
  induction suffix as [|u rest IH]; intros pre re w row Hrow Hlen Hunset Hrange Hcnt Hmax.
  - exists w, row. cbn [select_edges length]. rewrite list_insert_id by exact Hrow.
    repeat split; try lia. intros k u Hk. inversion Hk.
  - apply Forall_cons in Hrange as [Hu Hrange]. cbn [length] in *.
    cbn [select_edges]. cbv zeta.
    replace (Z.of_nat pre + 1) with (Z.of_nat (S pre)) by lia.
    destruct (selected L_max m l2g (Z.of_nat i) u) eqn:Hsel.
    + unfold selected in Hsel. apply andb_true_iff in Hsel as [Hgid Hlong].
      rewrite Hgid, Hlong.
      destruct (stage_edge_ok i pre u re w row Hrow) as (w1 & Hstage & Hcnt1);
        try lia; try assumption.
      rewrite Hstage. cbn [bind].
      set (row2 := <[(2 * pre + 1)%nat := get_tid]> (<[(2 * pre)%nat := splitCnt w]> row)).
      assert (Hire : (i < length re)%nat) by (eapply lookup_lt_Some; eauto).
      destruct (IH (S pre) (<[i := row2]> re) w1 row2) as (w' & row' & Hrun & Hlen' & Hframe & Hset & Hbound).
      * now apply list_lookup_insert_eq.
      * unfold row2. rewrite !length_insert. lia.
      * intros t Ht. destruct (Hunset t) as [Ha Hb]; [lia|].
        unfold slot_unset, row2.
        rewrite !list_lookup_insert_ne by lia. auto.
      * exact Hrange.
      * lia.
      * lia.
      * exists w', row'. rewrite list_insert_insert_eq in Hrun.
        split; [exact Hrun|]. split; [unfold row2 in Hlen'; rewrite !length_insert in Hlen'; exact Hlen'|].
        split; [|split; [|lia]].
        -- intros j Hj. rewrite Hframe by lia. unfold row2.
           rewrite !list_lookup_insert_ne by lia. reflexivity.
        -- intros [|k] u' Hk.
           ++ injection Hk as <-. unfold slot_settled, selected.
              rewrite Hgid, Hlong. cbn [andb]. rewrite Nat.add_0_r. split.
              ** exists (splitCnt w). split; [|lia].
                 rewrite Hframe by lia. unfold row2.
                 rewrite list_lookup_insert_ne by lia.
                 apply list_lookup_insert_eq. lia.
              ** rewrite Hframe by lia. unfold row2.
                 apply list_lookup_insert_eq. rewrite length_insert. lia.
           ++ replace (pre + S k)%nat with (S pre + k)%nat by lia. now apply Hset.
    + assert (Hskip : (if gnn l2g (Z.of_nat i) <? gnn l2g u
                       then if (L_max <? calc_edge_length m (Z.of_nat i) u)%float
                            then stage_edge m l2g (Z.of_nat i) (Z.of_nat pre) u (re, w)
                            else Ok (re, w)
                       else Ok (re, w)) = Ok (re, w)).
      { unfold selected in Hsel. destruct (_ <? _); [|reflexivity].
        cbn [andb] in Hsel. now rewrite Hsel. }
      rewrite Hskip. cbn [bind].
      destruct (IH (S pre) re w row) as (w' & row' & Hrun & Hlen' & Hframe & Hset & Hbound);
        try assumption; try lia.
      { intros t Ht. apply Hunset. lia. }
      exists w', row'. split; [exact Hrun|]. split; [exact Hlen'|].
      split; [|split; [|lia]].
      * intros j Hj. apply Hframe. lia.
      * intros [|k] u' Hk.
        -- injection Hk as <-. unfold slot_settled. rewrite Hsel.
           rewrite Nat.add_0_r. destruct (Hunset pre) as [Ha Hb]; [lia|].
           split; rewrite Hframe by lia; assumption.
        -- replace (pre + S k)%nat with (S pre + k)%nat by lia. now apply Hset.
Qed.

End Selection.

Section SelectionPass.
Context `{Collaborators}.
Variables (L_max : float) (m : Mesh) (l2g : list Z).
Hypothesis wf : well_formed m.
Hypothesis in_range : neighbours_in_range m.
Hypothesis few : size (concat (NNList m)) < 2 ^ 31.

Lemma edge_selection_upto (k : nat) :
  (k <= length (NNList m))%nat ->
  exists (re : list (list Z)) (w : Worker),
    foldM (select_vertex L_max m l2g)
          (replicate (length (NNList m)) [], empty_worker) (seqZ 0 (Z.of_nat k))
    = Ok (re, w) /\
    length re = length (NNList m) /\
    (forall i, (k <= i < length (NNList m))%nat -> re !! i = Some []) /\
    (forall i nn, (i < k)%nat -> NNList m !! i = Some nn ->
       exists row, re !! i = Some row /\
         forall t u, nn !! t = Some u ->
           slot_settled L_max m l2g (Z.of_nat i) row (splitCnt w) t u) /\
    0 <= splitCnt w <= size (concat (take k (NNList m))).
Proof.
  induction k as [|k IH]; intros Hk.
  - exists (replicate (length (NNList m)) []), empty_worker.
    cbn [foldM seqZ]. split; [reflexivity|]. split; [apply length_replicate|].
    split; [intros i Hi; apply lookup_replicate_2; lia|].
    split; [intros i nn Hi; lia|]. rewrite take_0. unfold size. cbn [concat length empty_worker splitCnt]. lia.
  - destruct IH as (re & w & Hrun & Hlen & Hrest & Hdone & Hcnt); [lia|].
    rewrite seqZ_snoc, foldM_app, Hrun. cbn [bind foldM]. rewrite Z.add_0_l.
    destruct (lookup_lt_is_Some_2 (NNList m) k) as [nn Hnn]; [lia|].
    assert (Hsum : size (concat (take (S k) (NNList m)))
                   = size (concat (take k (NNList m))) + size nn).
    { rewrite (take_S_r _ _ nn Hnn), concat_app. unfold size.
      rewrite length_app. cbn [concat]. rewrite app_nil_r. lia. }
    pose proof (size_concat_take (NNList m) (S k)) as Hle.
    unfold select_vertex.
    rewrite (vget_nat (NNList m) k nn Hnn). cbn [bind].
    rewrite (vget_nat re k []) by (apply Hrest; lia). cbn [bind].
    rewrite vset_ok by (unfold size; lia). cbn [bind].
    rewrite Nat2Z.id, resize_nil.
    replace (Z.to_nat (2 * size nn)) with (2 * (0 + length nn))%nat by (unfold size; lia).
    set (row0 := replicate (2 * (0 + length nn)) (-1)).
    destruct (select_edges_settles L_max m l2g wf k nn) with
      (pre := 0%nat) (re := <[k := row0]> re) (w := w) (row := row0)
      as (w' & row' & Hsel & Hlen' & _ & Hset & Hbound).
    + pose proof (wf_NNList m wf) as Hsize. unfold size in Hsize. lia.
    + apply list_lookup_insert_eq. lia.
    + unfold row0. apply length_replicate.
    + intros t Ht. unfold slot_unset, row0. split; apply lookup_replicate_2; lia.
    + unfold neighbours_in_range in in_range. rewrite Forall_forall in in_range.
      apply in_range. apply list_elem_of_lookup. eauto.
    + lia.
    + lia.
    + change (Z.of_nat 0) with 0 in Hsel. rewrite Hsel.
      rewrite list_insert_insert_eq.
      exists (<[k := row']> re), w'. split; [reflexivity|].
      split; [rewrite length_insert; exact Hlen|].
      split; [|split; [|lia]].
      * intros i Hi. rewrite list_lookup_insert_ne by lia. apply Hrest. lia.
      * intros i nn' Hi Hnn'. destruct (Nat.eq_dec i k) as [->|Hne].
        -- assert (nn' = nn) as -> by congruence.
           exists row'. split; [apply list_lookup_insert_eq; lia|].
           intros t u Ht. apply (Hset t u Ht).
        -- destruct (Hdone i nn') as (row & Hrow & Hsettled); [lia|exact Hnn'|].
           exists row. split; [rewrite list_lookup_insert_ne by lia; exact Hrow|].
           intros t u Ht. eapply slot_settled_mono; [|apply Hsettled; exact Ht]. lia.
Qed.

(** C4, as the code has it. [L_max] is not checked: for every value of
    [L_max], strictly positive or not, the edge-selection pass returns (on a
    well-formed mesh whose neighbour lists name existing vertices and have
    fewer than 2^31 entries in all), and it has staged a new vertex on
    exactly the edges from a vertex [i] to a neighbour [u] with
    GID(i) < GID(u) and length > [L_max]; the slots of the other neighbours
    are unset. *)
Theorem edge_selection_does_not_check_L_max :
  exists (re : list (list Z)) (w : Worker),
    edge_selection L_max m l2g (get_number_nodes m) = Ok (re, w) /\
    forall (i : nat) (nn : list Z) (t : nat) (u : Z),
      NNList m !! i = Some nn -> nn !! t = Some u ->
      exists row : list Z,
        re !! i = Some row /\
        if (gnn l2g (Z.of_nat i) <? gnn l2g u)
           && (L_max <? calc_edge_length m (Z.of_nat i) u)%float
        then slot_staged row t (splitCnt w)
        else slot_unset row t.
Proof.
  destruct (edge_selection_upto (length (NNList m)) (le_n _))
    as (re & w & Hrun & _ & _ & Hdone & _).
  exists re, w. split.
  - unfold edge_selection. rewrite <- (wf_NNList m wf). unfold size.
    rewrite Nat2Z.id. exact Hrun.
  - intros i nn t u Hnn Ht.
    destruct (Hdone i nn) as (row & Hrow & Hsettled);
      [eapply lookup_lt_Some; eauto|exact Hnn|].
    exists row. split; [exact Hrow|]. exact (Hsettled t u Ht).
Qed.

End SelectionPass.

(** *** The unit triangle *)

Lemma unit_triangle_well_formed : well_formed Example.unit_triangle.
Proof.
  split; try reflexivity.
  intros i n first Hn Hfirst Hpos.
  apply slice_inv in Hn as (Hlo & _ & Hhi & -> & _).
  change (nloc_of (ndims Example.unit_triangle)) with 3 in *.
  change (size (_ENList Example.unit_triangle)) with 3 in Hhi.
  assert (i = 0) as -> by lia.
  repeat constructor; cbn; lia.
Qed.

Lemma unit_triangle_neighbours : neighbours_in_range Example.unit_triangle.
Proof. repeat constructor; cbn; lia. Qed.

Lemma unit_triangle_edges (P : nat -> Z -> Prop) :
  P 0%nat 1 -> P 0%nat 2 -> P 1%nat 0 -> P 1%nat 2 -> P 2%nat 0 -> P 2%nat 1 ->
  forall (i : nat) (nn : list Z) (u : Z),
    NNList Example.unit_triangle !! i = Some nn -> u ∈ nn -> P i u.
Proof.
  intros P01 P02 P10 P12 P20 P21 i nn u Hnn Hu.
  destruct i as [|[|[|i]]]; cbn in Hnn; try discriminate; injection Hnn as <-;
    rewrite !elem_of_cons, elem_of_nil in Hu;
    destruct Hu as [->|[->|[]]]; assumption.
Qed.

(** The unit triangle with L_max = 0. *)
Lemma edge_selection_does_not_check_L_max_witness :
  exists (re : list (list Z)) (w : Worker),
    @edge_selection Example.serial 0%float Example.unit_triangle [0; 1; 2]
                    (get_number_nodes Example.unit_triangle) = Ok (re, w) /\
    forall (i : nat) (nn : list Z) (t : nat) (u : Z),
      NNList Example.unit_triangle !! i = Some nn -> nn !! t = Some u ->
      exists row : list Z,
        re !! i = Some row /\
        if (@gnn Example.serial [0; 1; 2] (Z.of_nat i) <? @gnn Example.serial [0; 1; 2] u)
           && (0 <? @calc_edge_length Example.serial Example.unit_triangle (Z.of_nat i) u)%float
        then slot_staged row t (splitCnt w)
        else slot_unset row t.
Proof.
  apply (@edge_selection_does_not_check_L_max Example.serial 0%float
           Example.unit_triangle [0; 1; 2]).
  - exact unit_triangle_well_formed.
  - exact unit_triangle_neighbours.
  - vm_compute. reflexivity.
Defined.

(** C4, the claim as stated fails. With L_max = 0 and with L_max = -1
    [refine] returns without an error and has split the three edges of the
    unit triangle: three vertices appended, the parent erased, four children
    appended. *)
Lemma refine_accepts_nonpositive_L_max :
  (0 <? 0)%float = false /\ (0 <? -1)%float = false /\
  (exists o : @Refined Example.serial,
     @refine Example.serial 1 Example.driver Example.unit_triangle tt 0%float = Ok o /\
     get_number_nodes (out_mesh o) = 6 /\
     _ENList (out_mesh o) = [-1; 1; 2; 0; 3; 4; 1; 5; 3; 2; 4; 5; 5; 4; 3]) /\
  (exists o : @Refined Example.serial,
     @refine Example.serial 1 Example.driver Example.unit_triangle tt (-1)%float = Ok o /\
     get_number_nodes (out_mesh o) = 6 /\
     _ENList (out_mesh o) = [-1; 1; 2; 0; 3; 4; 1; 5; 3; 2; 4; 5; 5; 4; 3]).
Proof.
  split; [reflexivity|]. split; [reflexivity|]. split.
  - eexists. split; [vm_compute; reflexivity|]. split; reflexivity.
  - eexists. split; [vm_compute; reflexivity|]. split; reflexivity.
Qed.

(** The unit triangle with L_max = 2: its longest edge has length sqrt 2. *)
Lemma refine_fine_mesh_unchanged_witness :
  exists o : @Refined Example.serial,
    @refine Example.serial 1 Example.driver Example.unit_triangle tt 2%float = Ok o /\
    out_mesh o = Example.unit_triangle /\
    out_refined_edges o = unset_edges Example.unit_triangle /\
    out_cerr o = [] /\
    size (node_owner (out_driver o)) = get_number_nodes Example.unit_triangle.
Proof.
  apply (@refine_fine_mesh_unchanged Example.serial 1%nat Example.driver
           Example.unit_triangle tt 2%float).
  - exact unit_triangle_well_formed.
  - intros Hmulti. vm_compute in Hmulti. discriminate.
  - lia.
  - reflexivity.
  - intros i nn u Hnn Hu _. revert i nn u Hnn Hu.
    apply (unit_triangle_edges
             (fun i u => (@calc_edge_length Example.serial Example.unit_triangle
                            (Z.of_nat i) u <=? 2)%float = true));
      vm_compute; reflexivity.
Defined.

(** ** Further properties of the driver *)

(** *** The prefix sum over the workers *)

Lemma sum_of_app (l k : list Z) : sum_of (l ++ k) = sum_of l + sum_of k.
Proof. unfold sum_of. induction l as [|x l IH]; cbn [foldr app]; lia. Qed.

Lemma sum_of_nonneg (l : list Z) : Forall (fun c => 0 <= c) l -> 0 <= sum_of l.
Proof. unfold sum_of. induction 1; cbn [foldr]; lia. Qed.

Lemma sum_of_take_drop (l : list Z) (n : nat) :
  sum_of l = sum_of (take n l) + sum_of (drop n l).
Proof. now rewrite <- sum_of_app, take_drop. Qed.

Lemma segment_bounds (l : list Z) (a b : Z) :
  Forall (fun c => 0 <= c) l -> 0 <= segment l a b <= sum_of l.
Proof.
  intros Hl. unfold segment.
  pose proof (sum_of_take_drop l (Z.to_nat a)) as H1.
  pose proof (sum_of_take_drop (drop (Z.to_nat a) l) (Z.to_nat (b - a))) as H2.
  pose proof (sum_of_nonneg _ (Forall_take _ (Z.to_nat a) _ Hl)).
  pose proof (Forall_drop _ (Z.to_nat a) _ Hl) as Hd.
  pose proof (sum_of_nonneg _ (Forall_take _ (Z.to_nat (b - a)) _ Hd)).
  pose proof (sum_of_nonneg _ (Forall_drop _ (Z.to_nat (b - a)) _ Hd)).
  lia.
Qed.

Lemma segment_split (l : list Z) (a b c : Z) :
  0 <= a <= b -> b <= c -> segment l a c = segment l a b + segment l b c.
Proof.
  intros Hab Hbc. unfold segment.
  replace (Z.to_nat (c - a)) with (Z.to_nat (b - a) + Z.to_nat (c - b))%nat by lia.
  rewrite <- take_take_drop, sum_of_app, drop_drop.
  now replace (Z.to_nat a + Z.to_nat (b - a))%nat with (Z.to_nat b) by lia.
Qed.

Lemma segment_single (l : list Z) (a x : Z) :
  0 <= a -> l !! Z.to_nat a = Some x -> segment l a (a + 1) = x.
Proof.
  intros Ha Hx. unfold segment.
  replace (Z.to_nat (a + 1 - a)) with 1%nat by lia.
  rewrite <- (take_drop_middle l _ _ Hx) at 1.
  rewrite drop_app_length'.
  - unfold sum_of. cbn. rewrite take_0. cbn. lia.
  - rewrite length_take. apply lookup_lt_Some in Hx. lia.
Qed.

Lemma segment_prefix (l : list Z) (b : Z) :
  segment l 0 b = sum_of (take (Z.to_nat b) l).
Proof. unfold segment. cbn. now rewrite Z.sub_0_r. Qed.

(** [tid & blockSize] for [blockSize = 2^k]: bit [k] of [tid]. *)
Lemma land_pow2 (x k : Z) : 0 <= k -> Z.land x (2 ^ k) = 2 ^ k * ((x / 2 ^ k) mod 2).
Proof.
  intros Hk. rewrite <- (Z.testbit_spec' x k Hk).
  apply Z.bits_inj'. intros j Hj.
  rewrite Z.land_spec, Z.pow2_bits_eqb by exact Hk.
  destruct (Z.testbit x k) eqn:Hb; cbn [Z.b2z].
  - rewrite Z.mul_1_r, Z.pow2_bits_eqb by exact Hk.
    destruct (Z.eqb_spec k j) as [->|]; [|apply andb_false_r].
    now rewrite Hb.
  - rewrite Z.mul_0_r, Z.bits_0.
    destruct (Z.eqb_spec k j) as [->|]; [|apply andb_false_r].
    now rewrite Hb.
Qed.

Lemma mod_double (x b : Z) : 0 < b -> x mod (2 * b) = x mod b + b * ((x / b) mod 2).
Proof. intros Hb. rewrite (Z.mul_comm 2 b). apply Z.rem_mul_r; lia. Qed.

Lemma to_unsigned_small (z : Z) : 0 <= z < 2 ^ 32 -> to_unsigned z = z.
Proof. intros Hz. unfold to_unsigned. now apply Z.mod_small. Qed.

Lemma to_size_id (z : Z) : 0 <= z < 2 ^ 64 -> to_size z = z.
Proof. intros Hz. unfold to_size. now apply Z.mod_small. Qed.

Lemma mapM_map {A B : Type} (f : A -> result B) (g : A -> B) (l : list A) :
  (forall x, x ∈ l -> f x = Ok (g x)) -> mapM f l = Ok (map g l).
Proof.
  induction l as [|x l IH]; intros Hf; [reflexivity|].
  cbn [mapM map]. rewrite (Hf x) by (apply elem_of_cons; now left). cbn [bind].
  rewrite IH; [reflexivity|]. intros y Hy. apply Hf. apply elem_of_cons. now right.
Qed.

Section PrefixSum.
Variable l : list Z.
Hypothesis nonneg : Forall (fun c => 0 <= c) l.
Hypothesis small : sum_of l < 2 ^ 32.
Hypothesis workers : size l <= 2 ^ 31.

(** The value that worker [x] reads in the round with [blockSize = 2^k]: the
    sum of the block before its own, if its own is the second of a pair. *)
Let tmp (k x : Z) : Z :=
  if (x / 2 ^ k) mod 2 =? 1
  then segment l (x - x mod 2 ^ k - 2 ^ k) (x - x mod 2 ^ k)
  else 0.

Lemma scan_read_ok (k : Z) (T : list Z) (x : Z) :
  0 <= k -> 2 ^ k < size l -> scanned l k T -> 0 <= x < size l ->
  scan_read (2 ^ k) T x = Ok (tmp k x).
Proof.
  intros Hk Hb [HT Hinv] Hx. unfold scan_read, tmp.
  assert (Hpow : 0 < 2 ^ k) by (apply Z.pow_pos_nonneg; lia).
  rewrite land_pow2 by exact Hk.
  pose proof (Z.mod_pos_bound (x / 2 ^ k) 2 ltac:(lia)) as Hbit.
  pose proof (Z.mod_pos_bound x (2 ^ k) Hpow) as Hrem.
  pose proof (Z.div_mod x (2 ^ k) ltac:(lia)) as Hdm.
  destruct (Z.eqb_spec ((x / 2 ^ k) mod 2) 1) as [Hone|Hzero].
  - rewrite Hone, Z.mul_1_r.
    destruct (Z.eqb_spec (2 ^ k) 0) as [|_]; [lia|]. cbn [negb].
    rewrite (to_unsigned_small (2 ^ k - 1)) by lia.
    replace (2 ^ k - 1) with (Z.ones k)
      by (rewrite Z.ones_equiv; lia).
    rewrite Z.land_ones by exact Hk.
    assert (Hq : 1 <= x / 2 ^ k).
    { pose proof (Z.div_pos x (2 ^ k) ltac:(lia) Hpow).
      destruct (Z.eq_dec (x / 2 ^ k) 0) as [Hq0|]; [|lia].
      rewrite Hq0 in Hone. discriminate. }
    assert (Hge : 2 ^ k <= x - x mod 2 ^ k) by nia.
    rewrite (to_unsigned_small (x mod 2 ^ k + 1)) by lia.
    rewrite (to_unsigned_small (x - (x mod 2 ^ k + 1))) by lia.
    set (j := x - (x mod 2 ^ k + 1)).
    assert (Hj : 0 <= j < size l) by (unfold j; lia).
    assert (Hjmod : j mod 2 ^ k = 2 ^ k - 1).
    { symmetry. apply (Z.mod_unique_pos j (2 ^ k) (x / 2 ^ k - 1)); [lia|].
      unfold j. lia. }
    rewrite (vget_ok T j _ ltac:(lia) (Hinv j Hj)). cbn [bind].
    rewrite Hjmod.
    replace (j - (2 ^ k - 1)) with (x - x mod 2 ^ k - 2 ^ k) by (unfold j; lia).
    replace (j + 1) with (x - x mod 2 ^ k) by (unfold j; lia).
    rewrite to_unsigned_small; [reflexivity|].
    pose proof (segment_bounds l (x - x mod 2 ^ k - 2 ^ k) (x - x mod 2 ^ k) nonneg).
    lia.
  - assert (Hz : (x / 2 ^ k) mod 2 = 0) by lia.
    rewrite Hz, Z.mul_0_r. reflexivity.
Qed.

Lemma scan_round_ok (k : Z) (T : list Z) :
  0 <= k -> 2 ^ k < size l -> scanned l k T ->
  exists T', scan_round (2 ^ k) T = Ok T' /\ scanned l (k + 1) T'.
Proof.
  intros Hk Hb HT. pose proof HT as [Hlen Hinv].
  assert (Hpow : 0 < 2 ^ k) by (apply Z.pow_pos_nonneg; lia).
  unfold scan_round.
  rewrite (mapM_map _ (tmp k)).
  2:{ intros x Hx. apply elem_of_seqZ in Hx.
      apply scan_read_ok; [exact Hk|exact Hb|exact HT|].
      unfold size in *. lia. }
  cbn [bind]. eexists. split; [reflexivity|]. split.
  - rewrite length_zip_with, length_map, length_seqZ. unfold size. lia.
  - intros x Hx.
    rewrite lookup_zip_with, (Hinv x Hx). cbn.
    rewrite list_lookup_fmap, lookup_seqZ_lt by (unfold size in *; lia). cbn.
    f_equal. rewrite Z2Nat.id, Z.add_0_l by lia.
    pose proof (Z.mod_pos_bound (x / 2 ^ k) 2 ltac:(lia)) as Hbit.
    pose proof (Z.mod_pos_bound x (2 ^ k) Hpow) as Hrem.
    pose proof (Z.div_mod x (2 ^ k) ltac:(lia)) as Hdm.
    rewrite Z.pow_add_r, Z.pow_1_r, (Z.mul_comm (2 ^ k) 2), mod_double by lia.
    pose proof (segment_bounds l (x - x mod 2 ^ k) (x + 1) nonneg) as Hs1.
    unfold tmp. destruct (Z.eqb_spec ((x / 2 ^ k) mod 2) 1) as [Hone|Hzero].
    + rewrite Hone, Z.mul_1_r.
      assert (Hq : 1 <= x / 2 ^ k).
      { pose proof (Z.div_pos x (2 ^ k) ltac:(lia) Hpow).
        destruct (Z.eq_dec (x / 2 ^ k) 0) as [Hq0|]; [|lia].
        rewrite Hq0 in Hone. discriminate. }
      assert (Hge : 2 ^ k <= x - x mod 2 ^ k) by nia.
      replace (x - (x mod 2 ^ k + 2 ^ k)) with (x - x mod 2 ^ k - 2 ^ k) by lia.
      rewrite (segment_split l (x - x mod 2 ^ k - 2 ^ k) (x - x mod 2 ^ k) (x + 1))
        by lia.
      pose proof (segment_bounds l (x - x mod 2 ^ k - 2 ^ k) (x + 1) nonneg) as Hs2.
      rewrite (segment_split l (x - x mod 2 ^ k - 2 ^ k) (x - x mod 2 ^ k) (x + 1))
        in Hs2 by lia.
      rewrite to_size_id by lia. lia.
    + assert (Hz : (x / 2 ^ k) mod 2 = 0) by lia.
      rewrite Hz, Z.mul_0_r, !Z.add_0_r. apply to_size_id. lia.
Qed.

Lemma scan_rounds_ok (fuel : nat) :
  forall (k : Z) (T : list Z),
    0 <= k -> scanned l k T ->
    (0 < fuel)%nat -> size l <= 2 ^ (k + Z.of_nat fuel - 1) ->
    scan_rounds fuel (2 ^ k) T
    = Ok (imap (fun x _ => sum_of (take (S x) l)) l).
Proof.
  induction fuel as [|fuel IH]; intros k T Hk HT Hfuel Henough; [lia|].
  assert (Hpow : 0 < 2 ^ k) by (apply Z.pow_pos_nonneg; lia).
  pose proof HT as [Hlen Hinv].
  cbn [scan_rounds]. replace (size T) with (size l) by (unfold size; lia).
  destruct (Z.ltb_spec (2 ^ k) (size l)) as [Hlt|Hge].
  - destruct (scan_round_ok k T Hk Hlt HT) as (T' & -> & HT'). cbn [bind].
    assert (Hk31 : k < 31).
    { apply (Z.pow_lt_mono_r_iff 2); lia. }
    assert (Hnext : 2 ^ (k + 1) <= 2 ^ 31) by (apply Z.pow_le_mono_r; lia).
    rewrite Z.shiftl_mul_pow2, Z.pow_1_r by lia.
    replace (2 ^ k * 2) with (2 ^ (k + 1)) by (rewrite Z.pow_add_r; lia).
    rewrite to_unsigned_small by lia.
    apply IH; [lia|exact HT'| |].
    + destruct fuel; [|lia].
      replace (k + Z.of_nat 1 - 1) with k in Henough by lia. lia.
    + now replace (k + 1 + Z.of_nat fuel - 1) with (k + Z.of_nat (S fuel) - 1) by lia.
  - f_equal. apply list_eq. intros i.
    rewrite list_lookup_imap.
    destruct (l !! i) as [c|] eqn:Hc; cbn.
    + pose proof (lookup_lt_Some _ _ _ Hc) as Hi.
      assert (Hx : 0 <= Z.of_nat i < size l) by (unfold size; lia).
      specialize (Hinv _ Hx). rewrite Nat2Z.id in Hinv. rewrite Hinv. f_equal.
      rewrite Z.mod_small by lia.
      rewrite Z.sub_diag, segment_prefix. f_equal. f_equal. lia.
    + apply lookup_ge_None. apply lookup_ge_None in Hc. lia.
Qed.

Lemma scanned_start : scanned l 0 l.
Proof.
  split; [reflexivity|]. intros x Hx.
  rewrite Z.pow_0_r, Z.mod_1_r, Z.sub_0_r.
  destruct (l !! Z.to_nat x) as [c|] eqn:Hc.
  - f_equal. symmetry. now apply segment_single.
  - apply lookup_ge_None in Hc. unfold size in Hx. lia.
Qed.

End PrefixSum.

(** With one worker the loop is not entered and the offset is the one that
    [refine] uses. *)
Lemma block_starts_one_worker (fuel : nat) (count cnt : Z) :
  block_starts (S fuel) count [cnt] = Ok [block_start count cnt].
Proof. reflexivity. Qed.

(** X1. The prefix sum of [refine] for any number of workers. When the
    counters are not negative, the vertex (or element) count plus all the
    counters fits an [int], and there are at most 2^31 workers, the loop
    ends after at most log2 of the number of workers rounds, and worker
    [tid] starts at the count plus the counters of the workers before it;
    the new size is the count plus all the counters. *)
Theorem block_starts_are_prefix_sums (fuel : nat) (count : Z) (splitCnt : list Z) :
  0 <= count ->
  Forall (fun cnt => 0 <= cnt) splitCnt ->
  count + sum_of splitCnt < 2 ^ 31 ->
  0 < size splitCnt <= 2 ^ 31 ->
  (0 < fuel)%nat -> size splitCnt <= 2 ^ (Z.of_nat fuel - 1) ->
  exists threadIdx : list Z,
    block_starts fuel count splitCnt = Ok threadIdx /\
    threadIdx = imap (fun tid _ => count + sum_of (take tid splitCnt)) splitCnt /\
    new_size (size splitCnt) threadIdx splitCnt = Ok (count + sum_of splitCnt).
Proof.
  intros Hcount Hnonneg Hsmall Hworkers Hfuel Henough.
  pose proof (sum_of_nonneg _ Hnonneg) as Hsum.
  assert (Hstarts :
    block_starts fuel count splitCnt
    = Ok (imap (fun tid _ => count + sum_of (take tid splitCnt)) splitCnt)).
  { unfold block_starts.
    rewrite <- (Z.pow_0_r 2) at 1.
    rewrite (scan_rounds_ok splitCnt Hnonneg ltac:(lia) ltac:(lia) fuel 0 splitCnt
               ltac:(lia) (scanned_start splitCnt) Hfuel Henough).
    cbn [bind]. f_equal. apply list_eq. intros i.
    rewrite lookup_zip_with, !list_lookup_imap.
    destruct (splitCnt !! i) as [c|] eqn:Hc; cbn; [|reflexivity]. f_equal.
    rewrite (take_S_r _ _ _ Hc), sum_of_app. cbn.
    unfold to_size. rewrite Zplus_mod_idemp_r.
    replace (sum_of (take i splitCnt) + (c + 0) + (count - c))
      with (count + sum_of (take i splitCnt)) by lia.
    apply Z.mod_small.
    pose proof (sum_of_take_drop splitCnt i) as Htd.
    pose proof (sum_of_nonneg _ (Forall_take _ i _ Hnonneg)).
    pose proof (sum_of_nonneg _ (Forall_drop _ i _ Hnonneg)).
    lia. }
  eexists. split; [exact Hstarts|]. split; [reflexivity|].
  unfold new_size.
  destruct (lookup_lt_is_Some_2 splitCnt (Z.to_nat (size splitCnt - 1))) as [c Hc].
  { unfold size in *. lia. }
  rewrite (vget_ok _ (size splitCnt - 1)
             (count + sum_of (take (Z.to_nat (size splitCnt - 1)) splitCnt)))
    by (rewrite ?list_lookup_imap, ?Hc; [reflexivity || lia..]).
  cbn [bind]. rewrite (vget_ok _ _ c) by (lia || exact Hc). cbn [bind]. f_equal.
  assert (Hall : sum_of splitCnt
                 = sum_of (take (Z.to_nat (size splitCnt - 1)) splitCnt) + c).
  { rewrite <- (take_ge splitCnt (S (Z.to_nat (size splitCnt - 1)))) at 1
      by (unfold size; lia).
    rewrite (take_S_r _ _ _ Hc), sum_of_app. cbn. lia. }
  rewrite to_size_id by lia. rewrite to_index_small by lia. lia.
Qed.

(** Three workers with 2, 0 and 3 new vertices behind 10 vertices start at
    10, 12 and 12, and the new size is 15. *)
Lemma block_starts_are_prefix_sums_witness :
  exists threadIdx : list Z,
    block_starts 3 10 Example.three_workers = Ok threadIdx /\
    threadIdx
    = imap (fun tid _ => 10 + sum_of (take tid Example.three_workers))
           Example.three_workers /\
    new_size (size Example.three_workers) threadIdx Example.three_workers
    = Ok (10 + sum_of Example.three_workers).
Proof.
  apply (block_starts_are_prefix_sums 3 10 Example.three_workers).
  - lia.
  - repeat constructor; lia.
  - vm_compute. reflexivity.
  - vm_compute. split; [reflexivity|discriminate].
  - lia.
  - vm_compute. discriminate.
Defined.

(** *** What the phases keep *)

Lemma same_halo_refl (m : Mesh) : same_halo m m.
Proof. repeat split. Qed.

Lemma same_halo_trans (m m' m'' : Mesh) :
  same_halo m m' -> same_halo m' m'' -> same_halo m m''.
Proof.
  intros (? & ? & ? & ?) (? & ? & ? & ?). repeat split; congruence.
Qed.

Lemma same_vertices_refl (m : Mesh) : same_vertices m m.
Proof. repeat split. Qed.

Lemma same_vertices_trans (m m' m'' : Mesh) :
  same_vertices m m' -> same_vertices m' m'' -> same_vertices m m''.
Proof.
  intros (? & ? & ? & ? & ?) (? & ? & ? & ? & ?). repeat split; congruence.
Qed.

Lemma erase_element_vertices (m m' : Mesh) (i : Z) :
  erase_element m i = Ok m' ->
  same_vertices m m' /\ same_shape m m' /\ same_halo m m'.
Proof.
  unfold erase_element. intros Hm.
  apply bind_ok in Hm as (l & Hl & Hm). injection Hm as <-.
  apply vset_inv in Hl as [_ ->].
  split; [repeat split|]. split; [|repeat split].
  split; [reflexivity|]. cbn. now rewrite length_insert.
Qed.

Section Kept.
Context `{Collaborators}.

Lemma refine_element_keeps (l2g : list Z) (re : list (list Z))
    (st st' : Mesh * Worker) (i : Z) :
  refine_element l2g re st i = Ok st' ->
  same_vertices (fst st) (fst st') /\ same_halo (fst st) (fst st').
Proof.
  destruct st as [m w]. unfold refine_element. intros Hrun. cbn [fst].
  assert (Hrefl : same_vertices m m /\ same_halo m m)
    by (split; [apply same_vertices_refl|apply same_halo_refl]).
  apply bind_ok in Hrun as (n & _ & Hrun).
  apply bind_ok in Hrun as (first & _ & Hrun).
  destruct (first <? 0); [now injection Hrun as <-|].
  apply bind_ok in Hrun as ([w'|] & _ & Hrun).
  - apply bind_ok in Hrun as (m' & Hm' & Hrun). injection Hrun as <-.
    now apply erase_element_vertices in Hm' as (Hv & _ & Hh).
  - now injection Hrun as <-.
Qed.

Lemma element_refinement_keeps (m m' : Mesh) (l2g : list Z) (re : list (list Z))
    (NElements : Z) (w w' : Worker) :
  element_refinement m l2g re NElements w = Ok (m', w') ->
  same_vertices m m' /\ same_halo m m'.
Proof.
  unfold element_refinement. intros Hrun.
  apply bind_ok in Hrun as ([m1 w1] & Hloop & Hrun).
  apply bind_ok in Hrun as (enlist & _ & Hrun).
  apply bind_ok in Hrun as (enlist' & _ & Hrun). injection Hrun as <- _.
  apply (foldM_preserves
           (fun st => same_vertices m (fst st) /\ same_halo m (fst st))) in Hloop.
  - exact Hloop.
  - intros s x s' Hs [Hv Hh].
    destruct (refine_element_keeps _ _ _ _ _ Hs) as [Hv' Hh'].
    split; [exact (same_vertices_trans _ _ _ Hv Hv')|
            exact (same_halo_trans _ _ _ Hh Hh')].
  - split; [apply same_vertices_refl|apply same_halo_refl].
Qed.

End Kept.

Lemma halo_element_keeps (rank origNNodes : Z) (owner : list Z)
    (lut : gmap Z DirectedEdge) (m0 : Mesh)
    (st st' : Mesh * (list (list DirectedEdge) * list (list DirectedEdge))) (i : Z) :
  halo_element rank origNNodes owner lut st i = Ok st' ->
  same_vertices m0 (fst st) /\ same_shape m0 (fst st) ->
  same_vertices m0 (fst st') /\ same_shape m0 (fst st').
Proof.
  destruct st as [m additional]. unfold halo_element. intros Hst Hm.
  apply bind_ok in Hst as (n & _ & Hst).
  apply bind_ok in Hst as (first & _ & Hst).
  destruct (first <? 0); [now injection Hst as <-|].
  apply bind_ok in Hst as (owners & _ & Hst).
  destruct (existsb _ _); [discriminate|].
  destruct (negb _).
  - apply bind_ok in Hst as (m' & Hm' & Hst). injection Hst as <-.
    apply erase_element_vertices in Hm' as (Hv & [Hd Hl] & _).
    destruct Hm as [Hv0 [Hd0 Hl0]]. cbn [fst] in *.
    split; [exact (same_vertices_trans _ _ _ Hv0 Hv)|]. split; congruence.
  - destruct (_ =? 1); [now injection Hst as <-|].
    apply bind_ok in Hst as (a' & _ & Hst). now injection Hst as <-.
Qed.

Lemma halo_phase_keeps_mesh (rank nprocs : Z) (g2l : gmap Z Z) (m m' : Mesh)
    (owner owner' : list Z) (w : Worker) (origNNodes origNElements NElements : Z) :
  halo_phase rank nprocs g2l m owner w origNNodes origNElements NElements
  = Ok (m', owner') ->
  same_vertices m m' /\ same_shape m m'.
Proof.
  unfold halo_phase. destruct (nprocs >? 1).
  - unfold amend_halo. intros Hm.
    apply bind_ok in Hm as ([lut owner1] & _ & Hm).
    apply bind_ok in Hm as ([m1 [sa ra]] & Hloop & Hm).
    apply bind_ok in Hm as ([sends send_set] & _ & Hm).
    apply bind_ok in Hm as ([recvs recv_set] & _ & Hm).
    injection Hm as <- <-.
    apply (foldM_preserves
             (fun st => same_vertices m (fst st) /\ same_shape m (fst st))) in Hloop.
    + exact Hloop.
    + intros s x s' Hs. exact (halo_element_keeps _ _ _ _ m s s' x Hs).
    + split; [apply same_vertices_refl|now split].
  - intros Hm. injection Hm as <- <-. split; [apply same_vertices_refl|now split].
Qed.

Lemma assign_owners_length (g2l : gmap Z Z) (vertices : list DirectedEdge) :
  forall (lut lut' : gmap Z DirectedEdge) (owner owner' : list Z),
    foldM (assign_owner g2l) (lut, owner) vertices = Ok (lut', owner') ->
    length owner' = length owner.
Proof.
  induction vertices as [|vert rest IH]; intros lut lut' owner owner' Hrun.
  - now injection Hrun as _ <-.
  - cbn [foldM] in Hrun. apply bind_ok in Hrun as ([lut1 owner1] & Hone & Hrun).
    rewrite (IH _ _ _ _ Hrun).
    unfold assign_owner in Hone.
    destruct (de_id vert) as [id|]; [|discriminate].
    destruct (lut !! id); [discriminate|].
    apply bind_ok in Hone as (o0 & _ & Hone).
    apply bind_ok in Hone as (o1 & _ & Hone).
    apply bind_ok in Hone as (owner2 & Hset & Hone).
    injection Hone as _ <-. apply vset_inv in Hset as [_ ->].
    apply length_insert.
Qed.

Lemma halo_phase_length (rank nprocs : Z) (g2l : gmap Z Z) (m m' : Mesh)
    (owner owner' : list Z) (w : Worker) (origNNodes origNElements NElements : Z) :
  halo_phase rank nprocs g2l m owner w origNNodes origNElements NElements
  = Ok (m', owner') ->
  length owner' = length owner.
Proof.
  unfold halo_phase. destruct (nprocs >? 1).
  - unfold amend_halo. intros Hm.
    apply bind_ok in Hm as ([lut owner1] & Hassign & Hm).
    apply bind_ok in Hm as ([m1 [sa ra]] & _ & Hm).
    apply bind_ok in Hm as ([sends send_set] & _ & Hm).
    apply bind_ok in Hm as ([recvs recv_set] & _ & Hm).
    injection Hm as _ <-. exact (assign_owners_length _ _ _ _ _ _ Hassign).
  - intros Hm. now injection Hm as _ <-.
Qed.

Lemma insert_vertices_halo (m m1 : Mesh) (owner owner1 : list Z) (NNodes : Z)
    (re re1 : list (list Z)) (w w1 : Worker) :
  insert_vertices m owner NNodes re w = Ok (m1, owner1, re1, w1) -> same_halo m m1.
Proof.
  unfold insert_vertices. intros Hrun.
  apply bind_ok in Hrun as (coords & _ & Hrun).
  apply bind_ok in Hrun as (met & _ & Hrun).
  apply bind_ok in Hrun as (nelist & _ & Hrun).
  apply bind_ok in Hrun as (nnlist & _ & Hrun).
  apply bind_ok in Hrun as (owner' & _ & Hrun).
  apply bind_ok in Hrun as (coords' & _ & Hrun).
  apply bind_ok in Hrun as (met' & _ & Hrun).
  destruct (negb _); [discriminate|].
  apply bind_ok in Hrun as (re' & _ & Hrun).
  injection Hrun as <- _ _ _. repeat split.
Qed.

Section Steps.
Context `{Collaborators}.

(** The steps of a run that returns. The loop "Fix orientations of new
    elements" is not among them: it starts at the element count read after
    the children were appended, and has nothing to go through. *)
Lemma refine_inv (fuel : nat) (r : Refine) (m : Mesh)
    (surface : Surface) (L_max : float) (o : Refined) :
  refine fuel r m surface L_max = Ok o ->
  let N := get_number_nodes m in
  let NE := get_number_elements m in
  let l2g := init_lnn2gnn (nprocs r) N in
  let g2l := init_gnn2lnn (gnn2lnn r) l2g N in
  exists owner st re w m1 owner1 re1 w1 m2 w2 m3 owner3,
    init_node_owner (rank r) (nprocs r) m N = Ok owner /\
    edge_selection L_max m l2g N = Ok st /\
    (if ndims m =? 3 then propagate fuel 0 (nprocs r) m l2g N NE st else Ok st)
    = Ok (re, w) /\
    insert_vertices m owner N re w = Ok (m1, owner1, re1, w1) /\
    element_refinement m1 l2g re1 NE w1 = Ok (m2, w2) /\
    size owner1 = get_number_nodes m2 /\
    halo_phase (rank r) (nprocs r) g2l m2 owner1 w2 N NE (get_number_elements m2)
    = Ok (m3, owner3) /\
    o = mkRefined (create_adjancy m3) (surface_refine surface re1 l2g)
                  (mkRefine (rank r) (nprocs r) l2g g2l owner3) re1
                  (newVertices w2) (cerr w2).
Proof.
  intros Hrun N NE l2g g2l. unfold refine in Hrun.
  apply bind_ok in Hrun as (owner & Howner & Hrun).
  apply bind_ok in Hrun as (st & Hst & Hrun).
  apply bind_ok in Hrun as ([re w] & Hprop & Hrun).
  apply bind_ok in Hrun as ([[[m1 owner1] re1] w1] & Hinsert & Hrun).
  apply bind_ok in Hrun as ([m2 w2] & Helems & Hrun).
  destruct (Z.eqb_spec (size owner1) (get_number_nodes m2)) as [Hsize|];
    [|discriminate]. cbn [negb] in Hrun.
  apply bind_ok in Hrun as ([m3 owner3] & Hhalo & Hrun).
  apply bind_ok in Hrun as (m4 & Hflip & Hrun).
  injection Hrun as <-.
  pose proof (halo_phase_keeps_mesh _ _ _ _ _ _ _ _ _ _ _ Hhalo) as [_ [Hd Hl]].
  assert (Hn : get_number_elements m3 - get_number_elements m2 = 0).
  { unfold get_number_elements, size. rewrite Hd, Hl. lia. }
  rewrite Hn in Hflip. cbn in Hflip. injection Hflip as <-.
  exists owner, st, re, w, m1, owner1, re1, w1, m2, w2, m3, owner3.
  repeat (split; [assumption|]). reflexivity.
Qed.

End Steps.

(** X2. [refine] never calls [ElementProperty::area] or
    [ElementProperty::volume] and never flips an element: the loop "Fix
    orientations of new elements" runs from [NElements] to the number of
    elements of the mesh, and [NElements] was set to that number after the
    children were appended. Whatever the two functions return, a run gives
    the same outcome. *)
Theorem refine_never_reorients (C : Collaborators)
    (area volume : list (list float) -> float) (fuel : nat) (r : Refine)
    (m : Mesh) (surface : @Surface C) (L_max : float) :
  @outcome (with_orientation C area volume)
           (@refine (with_orientation C area volume) fuel r m surface L_max)
  = @outcome C (@refine C fuel r m surface L_max).
Proof.
  unfold refine.
  change (@init_lnn2gnn (with_orientation C area volume)) with (@init_lnn2gnn C).
  change (@init_gnn2lnn (with_orientation C area volume)) with (@init_gnn2lnn C).
  change (@edge_selection (with_orientation C area volume)) with (@edge_selection C).
  change (@propagate (with_orientation C area volume)) with (@propagate C).
  change (@element_refinement (with_orientation C area volume))
    with (@element_refinement C).
  destruct (init_node_owner _ _ _ _) as [owner|]; [|reflexivity]. cbn [bind].
  destruct (edge_selection _ _ _ _) as [st|]; [|reflexivity]. cbn [bind].
  destruct (if ndims m =? 3 then _ else _) as [[re w]|]; [|reflexivity]. cbn [bind].
  destruct (insert_vertices _ _ _ _ _) as [[[[m1 owner1] re1] w1]|]; [|reflexivity].
  cbn [bind].
  destruct (element_refinement _ _ _ _ _) as [[m2 w2]|]; [|reflexivity]. cbn [bind].
  destruct (negb _); [reflexivity|].
  destruct (halo_phase _ _ _ _ _ _ _ _ _) as [[m3 owner3]|] eqn:Hhalo; [|reflexivity].
  cbn [bind].
  apply halo_phase_keeps_mesh in Hhalo as [_ [Hd Hl]].
  assert (Hn : get_number_elements m3 - get_number_elements m2 = 0).
  { unfold get_number_elements, size. rewrite Hd, Hl. lia. }
  rewrite Hn. reflexivity.
Qed.

(** *** Numbering *)

(** The map after the numbering loop over the first [k] vertices. *)
Lemma numbering_upto `{Collaborators} (prior : gmap Z Z) (l2g : list Z) (k : nat) :
  (k <= length l2g)%nat ->
  let g2l := fold_left (fun g i => <[gnn l2g i := i]> g) (seqZ 0 (Z.of_nat k)) prior in
  (forall (i : nat) (g : Z),
      (i < k)%nat -> l2g !! i = Some g ->
      (forall j : nat, (i < j < k)%nat -> l2g !! j <> Some g) ->
      g2l !! g = Some (Z.of_nat i)) /\
  (forall g : Z,
      (forall i : nat, (i < k)%nat -> l2g !! i <> Some g) -> g2l !! g = prior !! g).
Proof.
  induction k as [|k IH]; intros Hk; cbn zeta.
  - split; [lia|]. reflexivity.
  - destruct (IH ltac:(lia)) as [IHset IHkept]. clear IH.
    rewrite seqZ_snoc, fold_left_app. cbn [fold_left]. rewrite Z.add_0_l.
    destruct (lookup_lt_is_Some_2 l2g k ltac:(lia)) as [gk Hgk].
    assert (Hgnn : gnn l2g (Z.of_nat k) = gk).
    { unfold gnn. destruct (Z.leb_spec 0 (Z.of_nat k)); [|lia].
      now rewrite Nat2Z.id, Hgk. }
    rewrite Hgnn. split.
    + intros i g Hi Hg Hlast.
      destruct (decide (i = k)) as [->|Hik].
      * rewrite Hgk in Hg. injection Hg as ->. apply lookup_insert_eq.
      * rewrite lookup_insert_ne.
        -- apply IHset; [lia|exact Hg|]. intros j Hj. apply Hlast. lia.
        -- intros ->. apply (Hlast k); [lia|exact Hgk].
    + intros g Hnone. rewrite lookup_insert_ne.
      * apply IHkept. intros i Hi. apply Hnone. lia.
      * intros ->. apply (Hnone k); [lia|exact Hgk].
Qed.

(** X3. After [refine], [lnn2gnn] has one entry for every vertex the mesh
    had at the call (the new vertices get no global number); [gnn2lnn] sends
    every global number of [lnn2gnn] to the last vertex that has it, so that
    gnn2lnn[lnn2gnn[i]] = i when the numbers are distinct; and every entry
    that [gnn2lnn] held before the call under another key is still there. *)
Theorem refine_numbers_original_vertices `{Collaborators} (fuel : nat) (r : Refine)
    (m : Mesh) (surface : Surface) (L_max : float) (o : Refined) :
  refine fuel r m surface L_max = Ok o ->
  size (lnn2gnn (out_driver o)) = Z.max 0 (get_number_nodes m) /\
  (forall (i : nat) (g : Z),
      lnn2gnn (out_driver o) !! i = Some g ->
      (forall j : nat, (i < j)%nat -> lnn2gnn (out_driver o) !! j <> Some g) ->
      gnn2lnn (out_driver o) !! g = Some (Z.of_nat i)) /\
  (forall g : Z, g ∉ lnn2gnn (out_driver o) ->
      gnn2lnn (out_driver o) !! g = gnn2lnn r !! g).
Proof.
  intros Hrun. apply refine_inv in Hrun. cbn zeta in Hrun.
  destruct Hrun as (owner & st & re & w & m1 & owner1 & re1 & w1 & m2 & w2 & m3
                    & owner3 & _ & _ & _ & _ & _ & _ & _ & ->).
  cbn [out_driver lnn2gnn gnn2lnn].
  set (N := get_number_nodes m). set (l2g := init_lnn2gnn (nprocs r) N).
  assert (Hlen : length l2g = Z.to_nat N).
  { unfold l2g, init_lnn2gnn. now rewrite length_map, length_seqZ. }
  split; [unfold size; lia|].
  unfold init_gnn2lnn.
  assert (Hseq : seqZ 0 N = seqZ 0 (Z.of_nat (length l2g))).
  { rewrite Hlen. destruct (Z.le_gt_cases 0 N).
    - now rewrite Z2Nat.id.
    - rewrite Z2Nat.nonpos by lia. now rewrite !seqZ_nil by lia. }
  rewrite Hseq.
  destruct (numbering_upto (gnn2lnn r) l2g (length l2g) ltac:(lia)) as [Hset Hkept].
  split.
  - intros i g Hg Hlast. apply Hset; [now apply lookup_lt_Some in Hg|exact Hg|].
    intros j Hj. apply Hlast. lia.
  - intros g Hg. apply Hkept. intros i _ Hi. apply Hg.
    now apply list_elem_of_lookup_2 in Hi.
Qed.

(** The unit triangle with its edge (1,2) split: three global numbers. *)
Lemma refine_numbers_original_vertices_witness :
  exists o : @Refined Example.serial,
    @refine Example.serial 1 Example.driver Example.unit_triangle tt 1.25%float = Ok o /\
    size (lnn2gnn (out_driver o)) = Z.max 0 (get_number_nodes Example.unit_triangle) /\
    (forall (i : nat) (g : Z),
        lnn2gnn (out_driver o) !! i = Some g ->
        (forall j : nat, (i < j)%nat -> lnn2gnn (out_driver o) !! j <> Some g) ->
        gnn2lnn (out_driver o) !! g = Some (Z.of_nat i)) /\
    (forall g : Z, g ∉ lnn2gnn (out_driver o) ->
        gnn2lnn (out_driver o) !! g = gnn2lnn Example.driver !! g).
Proof.
  eexists. split; [vm_compute; reflexivity|].
  apply (@refine_numbers_original_vertices Example.serial 1 Example.driver
           Example.unit_triangle tt 1.25%float).
  vm_compute. reflexivity.
Defined.

(** *** Ownership of the original vertices *)

(** What the loop over one receive list leaves. *)
Lemma owner_writes_inv (p : Z) (received : list Z) :
  forall owner owner' : list Z,
    foldM (fun o it => vset o it p) owner received = Ok owner' ->
    length owner' = length owner /\
    forall v : nat,
      (Z.of_nat v ∈ received -> owner' !! v = Some p) /\
      (Z.of_nat v ∉ received -> owner' !! v = owner !! v).
Proof.
  induction received as [|it rest IH]; intros owner owner' Hrun.
  - injection Hrun as <-. split; [reflexivity|]. intros v. split; [|reflexivity].
    intros Hv. now apply elem_of_nil in Hv.
  - cbn [foldM] in Hrun. apply bind_ok in Hrun as (owner1 & Hset & Hrun).
    apply vset_inv in Hset as [Hit ->].
    destruct (IH _ _ Hrun) as [Hlen Hrest]. rewrite length_insert in Hlen.
    split; [exact Hlen|]. intros v. destruct (Hrest v) as [Hin Hout]. split.
    + intros Hv. destruct (decide (Z.of_nat v ∈ rest)) as [Hr|Hr]; [auto|].
      apply elem_of_cons in Hv as [Hv|Hv]; [|contradiction].
      rewrite (Hout Hr). rewrite <- Hv, Nat2Z.id.
      apply list_lookup_insert_eq. unfold size in Hit. lia.
    + intros Hv. rewrite elem_of_cons in Hv.
      rewrite Hout by tauto. apply list_lookup_insert_ne. lia.
Qed.

(** What the loop over the first [k] ranks leaves. *)
Lemma owners_upto (recv_lists : list (list Z)) (owner : list Z) (k : nat) :
  forall owner' : list Z,
    foldM (fun o i =>
             do received <- vget recv_lists i;
             foldM (fun o it => vset o it i) o received)
          owner (seqZ 0 (Z.of_nat k)) = Ok owner' ->
    length owner' = length owner /\
    forall v : nat,
      (forall (p : nat) (received : list Z),
          (p < k)%nat -> recv_lists !! p = Some received -> Z.of_nat v ∈ received ->
          (forall (q : nat) (later : list Z),
              (p < q < k)%nat -> recv_lists !! q = Some later -> Z.of_nat v ∉ later) ->
          owner' !! v = Some (Z.of_nat p)) /\
      ((forall (p : nat) (received : list Z),
           (p < k)%nat -> recv_lists !! p = Some received -> Z.of_nat v ∉ received) ->
       owner' !! v = owner !! v).
Proof.
  induction k as [|k IH]; intros owner' Hrun.
  - injection Hrun as <-. split; [reflexivity|]. intros v. split; [lia|reflexivity].
  - rewrite seqZ_snoc, foldM_app in Hrun.
    apply bind_ok in Hrun as (owner1 & Hfirst & Hrun).
    destruct (IH _ Hfirst) as [Hlen1 Hupto]. clear IH.
    cbn [foldM] in Hrun. apply bind_ok in Hrun as (owner2 & Hrun & Heq).
    injection Heq as ->. rewrite Z.add_0_l in Hrun.
    apply bind_ok in Hrun as (received & Hrecv & Hrun).
    unfold vget in Hrecv. destruct (0 <=? Z.of_nat k); [|discriminate].
    rewrite Nat2Z.id in Hrecv.
    destruct (recv_lists !! k) as [received'|] eqn:Hk; [|discriminate].
    injection Hrecv as ->.
    destruct (owner_writes_inv _ _ _ _ Hrun) as [Hlen2 Hlast].
    split; [congruence|]. intros v.
    destruct (Hupto v) as [Hset Hkept], (Hlast v) as [Hin Hout]. split.
    + intros p l Hp Hl Hv Hnone.
      destruct (decide (p = k)) as [->|Hpk].
      * rewrite Hk in Hl. injection Hl as ->. auto.
      * rewrite Hout by (apply (Hnone k); [lia|exact Hk]).
        apply (Hset p l); [lia|exact Hl|exact Hv|].
        intros q later Hq. apply Hnone. lia.
    + intros Hnone. rewrite Hout by (apply (Hnone k); [lia|exact Hk]).
      apply Hkept. intros p l Hp. apply Hnone. lia.
Qed.

Lemma init_node_owner_inv (rank nprocs : Z) (m : Mesh) (NNodes : Z) (owner : list Z) :
  init_node_owner rank nprocs m NNodes = Ok owner ->
  length owner = Z.to_nat NNodes /\
  forall v : nat,
    (v < Z.to_nat NNodes)%nat ->
    (nprocs <= 1 -> owner !! v = Some rank) /\
    (1 < nprocs ->
     (forall p : nat, Z.of_nat p < nprocs -> ~ listed m p (Z.of_nat v)) ->
     owner !! v = Some rank) /\
    (1 < nprocs ->
     forall p : nat,
       Z.of_nat p < nprocs -> listed m p (Z.of_nat v) ->
       (forall q : nat, (p < q)%nat -> Z.of_nat q < nprocs -> ~ listed m q (Z.of_nat v)) ->
       owner !! v = Some (Z.of_nat p)).
Proof.
  unfold init_node_owner. intros Hrun.
  destruct (Z.gtb_spec nprocs 1) as [Hmulti|Hserial].
  - unfold owners_from_recv in Hrun.
    replace nprocs with (Z.of_nat (Z.to_nat nprocs)) in Hrun by lia.
    destruct (owners_upto _ _ _ _ Hrun) as [Hlen Hupto].
    rewrite length_replicate in Hlen. split; [exact Hlen|].
    intros v Hv. destruct (Hupto v) as [Hset Hkept].
    split; [lia|]. split.
    + intros _ Hnone. rewrite Hkept; [now apply lookup_replicate_2|].
      intros p l Hp Hl Hin. apply (Hnone p); [lia|]. now exists l.
    + intros _ p Hp (l & Hl & Hin) Hlast.
      apply (Hset p l); [lia|exact Hl|exact Hin|].
      intros q later Hq Hlater Hin'. apply (Hlast q); [lia|lia|]. now exists later.
  - injection Hrun as <-. rewrite length_replicate. split; [reflexivity|].
    intros v Hv. split; [|lia]. intros _. now apply lookup_replicate_2.
Qed.

Lemma assign_owners_keeps (g2l : gmap Z Z) (vertices : list DirectedEdge) :
  forall (lut lut' : gmap Z DirectedEdge) (owner owner' : list Z),
    foldM (assign_owner g2l) (lut, owner) vertices = Ok (lut', owner') ->
    forall k : nat,
      (forall v, v ∈ vertices -> de_id v <> Some (Z.of_nat k)) ->
      owner' !! k = owner !! k.
Proof.
  induction vertices as [|vert rest IH]; intros lut lut' owner owner' Hrun k Hk.
  - now injection Hrun as _ <-.
  - cbn [foldM] in Hrun. apply bind_ok in Hrun as ([lut1 owner1] & Hone & Hrun).
    rewrite (IH _ _ _ _ Hrun k)
      by (intros v Hv; apply Hk, elem_of_cons; now right).
    unfold assign_owner in Hone.
    destruct (de_id vert) as [id|] eqn:Hid; [|discriminate].
    destruct (lut !! id); [discriminate|].
    apply bind_ok in Hone as (o0 & _ & Hone).
    apply bind_ok in Hone as (o1 & _ & Hone).
    apply bind_ok in Hone as (owner2 & Hset & Hone).
    injection Hone as _ <-. apply vset_inv in Hset as [Hrange ->].
    apply list_lookup_insert_ne. intros Heq.
    apply (Hk vert); [apply elem_of_cons; now left|].
    rewrite Hid. f_equal. lia.
Qed.

Lemma halo_phase_keeps (rank nprocs : Z) (g2l : gmap Z Z) (m m' : Mesh)
    (owner owner' : list Z) (w : Worker) (origNNodes origNElements NElements : Z) :
  halo_phase rank nprocs g2l m owner w origNNodes origNElements NElements
  = Ok (m', owner') ->
  forall k : nat,
    (forall v, v ∈ newVertices w -> de_id v <> Some (Z.of_nat k)) ->
    owner' !! k = owner !! k.
Proof.
  unfold halo_phase. destruct (nprocs >? 1).
  - unfold amend_halo. intros Hm.
    apply bind_ok in Hm as ([lut owner1] & Hassign & Hm).
    apply bind_ok in Hm as ([m1 [sa ra]] & _ & Hm).
    apply bind_ok in Hm as ([sends send_set] & _ & Hm).
    apply bind_ok in Hm as ([recvs recv_set] & _ & Hm).
    injection Hm as _ <-. exact (assign_owners_keeps _ _ _ _ _ _ Hassign).
  - intros Hm. now injection Hm as _ <-.
Qed.

(** X4. The owner that [refine] records for a vertex the mesh had at the
    call: the rank of the driver in a run on one partition, and in a run on
    several partitions when no receive list names the vertex; otherwise the
    last rank whose receive list names it. The later phases do not change
    it. *)
Theorem refine_keeps_original_owners `{Collaborators} (fuel : nat) (r : Refine)
    (m : Mesh) (surface : Surface) (L_max : float) (o : Refined) :
  0 < ndims m ->
  0 <= get_number_nodes m < 2 ^ 31 ->
  refine fuel r m surface L_max = Ok o ->
  forall v : nat,
    Z.of_nat v < get_number_nodes m ->
    (nprocs r <= 1 -> node_owner (out_driver o) !! v = Some (rank r)) /\
    (1 < nprocs r ->
     (forall p : nat, Z.of_nat p < nprocs r -> ~ listed m p (Z.of_nat v)) ->
     node_owner (out_driver o) !! v = Some (rank r)) /\
    (1 < nprocs r ->
     forall p : nat,
       Z.of_nat p < nprocs r -> listed m p (Z.of_nat v) ->
       (forall q : nat, (p < q)%nat -> Z.of_nat q < nprocs r ->
                        ~ listed m q (Z.of_nat v)) ->
       node_owner (out_driver o) !! v = Some (Z.of_nat p)).
Proof.
  intros Hd HN Hrun v Hv. apply refine_inv in Hrun. cbn zeta in Hrun.
  destruct Hrun as (owner & st & re & w & m1 & owner1 & re1 & w1 & m2 & w2 & m3
                    & owner3 & Howner & _ & _ & Hinsert & Helems & _ & Hhalo & ->).
  cbn [out_driver node_owner].
  apply insert_vertices_inv in Hinsert as (Hfew & -> & Hids); [|exact Hd|lia].
  apply element_refinement_vertices in Helems. rewrite Hids in Helems.
  apply init_node_owner_inv in Howner as [Hlen Howner].
  assert (Hsame : owner3 !! v
                  = owner !! v).
  { rewrite (halo_phase_keeps _ _ _ _ _ _ _ _ _ _ _ Hhalo v).
    - apply lookup_resize; unfold size in *; lia.
    - intros vert Hvert. rewrite Helems in Hvert.
      apply list_elem_of_lookup in Hvert as [i Hi].
      rewrite list_lookup_imap in Hi.
      destruct (newVertices w !! i); [|discriminate]. injection Hi as <-.
      cbn [with_id de_id]. intros Heq. injection Heq. lia. }
  rewrite Hsame. apply Howner. lia.
Qed.

(** On rank 1 of two, the skew triangle whose vertex 1 is in the receive
    list of rank 0. *)
Lemma refine_keeps_original_owners_witness :
  exists o : @Refined Example.second_rank_with_ghost,
    @refine Example.second_rank_with_ghost 1 Example.driver_of_second_rank
            Example.skew_triangle_with_ghost tt 0.75%float = Ok o /\
    forall v : nat,
      Z.of_nat v < get_number_nodes Example.skew_triangle_with_ghost ->
      (nprocs Example.driver_of_second_rank <= 1 ->
       node_owner (out_driver o) !! v = Some (rank Example.driver_of_second_rank)) /\
      (1 < nprocs Example.driver_of_second_rank ->
       (forall p : nat, Z.of_nat p < nprocs Example.driver_of_second_rank ->
                        ~ listed Example.skew_triangle_with_ghost p (Z.of_nat v)) ->
       node_owner (out_driver o) !! v = Some (rank Example.driver_of_second_rank)) /\
      (1 < nprocs Example.driver_of_second_rank ->
       forall p : nat,
         Z.of_nat p < nprocs Example.driver_of_second_rank ->
         listed Example.skew_triangle_with_ghost p (Z.of_nat v) ->
         (forall q : nat, (p < q)%nat ->
                          Z.of_nat q < nprocs Example.driver_of_second_rank ->
                          ~ listed Example.skew_triangle_with_ghost q (Z.of_nat v)) ->
         node_owner (out_driver o) !! v = Some (Z.of_nat p)).
Proof.
  eexists. split; [vm_compute; reflexivity|].
  apply (@refine_keeps_original_owners Example.second_rank_with_ghost 1
           Example.driver_of_second_rank Example.skew_triangle_with_ghost tt
           0.75%float).
  - reflexivity.
  - vm_compute. split; [discriminate|reflexivity].
  - vm_compute. reflexivity.
Defined.

(** *** The new vertices *)

Lemma vget_inv {A : Type} (v : list A) (i : Z) (x : A) :
  vget v i = Ok x -> 0 <= i /\ v !! Z.to_nat i = Some x.
Proof.
  unfold vget. destruct (Z.leb_spec 0 i); [|discriminate].
  destruct (v !! Z.to_nat i); [|discriminate]. intros Hx. now injection Hx as ->.
Qed.

Lemma set_slot_inv (re re' : list (list Z)) (i k x : Z) :
  set_slot re i k x = Ok re' ->
  exists row : list Z,
    0 <= i /\ re !! Z.to_nat i = Some row /\ 0 <= k < size row /\
    re' = <[Z.to_nat i := <[Z.to_nat k := x]> row]> re.
Proof.
  unfold set_slot. intros Hrun.
  apply bind_ok in Hrun as (row & Hrow & Hrun).
  apply bind_ok in Hrun as (row' & Hrow' & Hrun).
  apply vget_inv in Hrow as [Hi Hrow].
  apply vset_inv in Hrow' as [Hk ->]. apply vset_inv in Hrun as [_ ->].
  now exists row.
Qed.

Lemma lookup_resize_inv {A : Type} (l : list A) (n j : nat) (x y : A) :
  resize n x l !! j = Some y -> y <> x -> l !! j = Some y.
Proof.
  rewrite resize_spec. intros Hy Hne.
  apply lookup_app_Some in Hy as [Hy|[_ Hy]].
  - now apply lookup_take_Some in Hy as [Hy _].
  - apply lookup_replicate in Hy as [-> _]. contradiction.
Qed.

Lemma block_app_old (buf extra : list float) (k len : Z) :
  0 <= k -> 0 <= len -> (k + 1) * len <= size buf ->
  block (buf ++ extra) k len = block buf k len.
Proof.
  intros Hk Hlen Hfit. unfold block, size in *.
  rewrite drop_app_le by nia.
  rewrite take_app_le; [reflexivity|]. rewrite length_drop. nia.
Qed.

Lemma block_app_new (buf extra : list float) (k len : Z) :
  0 <= k -> 0 <= len -> size buf = k * len -> size extra = len ->
  block (buf ++ extra) k len = extra.
Proof.
  intros Hk Hlen Hbuf Hextra. unfold block, size in *.
  rewrite drop_app_length' by lia. apply take_ge. lia.
Qed.

Section Staging.
Context `{Collaborators}.
Variables (m : Mesh) (l2g : list Z).
Hypothesis dims : 0 <= ndims m.

Lemma refine_edge_inv (i u : Z) (w w' : Worker) :
  refine_edge m l2g i u w = Ok w' ->
  exists x mm : list float,
    new_point m l2g i u = Ok (x, mm) /\
    size x = ndims m /\ size mm = ndims m * ndims m /\
    newVertices w' = newVertices w ++ [edge_record l2g i u] /\
    newCoords w' = newCoords w ++ x /\
    newMetric w' = newMetric w ++ mm /\
    newElements w' = newElements w /\
    splitCnt w' = splitCnt w.
Proof.
  intros Hrun. unfold new_point, edge_record.
  destruct (lesser_first l2g i u) as [lo hi] eqn:Hord. cbn [fst snd].
  pose proof Hrun as Hrun'. unfold refine_edge in Hrun'. rewrite Hord in Hrun'.
  apply bind_ok in Hrun' as (x0 & Hx0 & Hrun').
  apply bind_ok in Hrun' as (m0 & Hm0 & Hrun').
  apply bind_ok in Hrun' as (x1 & Hx1 & Hrun').
  apply bind_ok in Hrun' as (m1 & Hm1 & _).
  rewrite (refine_edge_ordered m l2g lo hi x0 x1 m0 m1 w i u Hord Hx0 Hm0 Hx1 Hm1)
    in Hrun.
  injection Hrun as <-. rewrite Hx0, Hm0, Hx1, Hm1. cbn [bind newVertices newCoords
    newMetric newElements splitCnt].
  eexists _, _. split; [reflexivity|].
  apply slice_inv in Hx0 as (_ & _ & _ & _ & Hx0).
  apply slice_inv in Hx1 as (_ & _ & _ & _ & Hx1).
  apply slice_inv in Hm0 as (_ & _ & _ & _ & Hm0).
  apply slice_inv in Hm1 as (_ & _ & _ & _ & Hm1).
  unfold size in *.
  rewrite !length_zip_with_same by lia.
  repeat split; lia.
Qed.

Lemma stage_edge_inv (i it u : Z) (re re' : list (list Z)) (w w' : Worker) :
  stage_edge m l2g i it u (re, w) = Ok (re', w') ->
  exists row : list Z,
    0 <= i /\ re !! Z.to_nat i = Some row /\
    0 <= it /\ 2 * it + 1 < size row /\
    re' = <[Z.to_nat i := <[Z.to_nat (2 * it + 1) := get_tid]>
                            (<[Z.to_nat (2 * it) := to_index (splitCnt w)]> row)]> re /\
    refine_edge m l2g i u (bump_splitCnt w) = Ok w'.
Proof.
  unfold stage_edge. intros Hrun.
  apply bind_ok in Hrun as (re1 & Hre1 & Hrun).
  apply bind_ok in Hrun as (re2 & Hre2 & Hrun).
  apply bind_ok in Hrun as (w1 & Hw1 & Hrun).
  injection Hrun as <- <-.
  apply set_slot_inv in Hre1 as (row & Hi & Hrow & Hk & ->).
  apply set_slot_inv in Hre2 as (row1 & _ & Hrow1 & Hk1 & ->).
  assert (Hlt : (Z.to_nat i < length re)%nat) by now apply lookup_lt_Some in Hrow.
  rewrite list_lookup_insert_eq in Hrow1 by exact Hlt.
  injection Hrow1 as <-.
  unfold size in Hk1. rewrite length_insert in Hk1.
  exists row. split; [exact Hi|]. split; [exact Hrow|]. split; [lia|].
  split; [unfold size; lia|].
  split; [|exact Hw1]. now rewrite list_insert_insert_eq.
Qed.

(** Staging a vertex on the edge at position [it] of vertex [i] keeps the
    buffers in step and the slots linked to their vertices. *)
Lemma stage_edge_keeps (i it u : Z) (nn : list Z)
    (st st' : list (list Z) * Worker) :
  NNList m !! Z.to_nat i = Some nn -> nn !! Z.to_nat it = Some u ->
  stage_edge m l2g i it u st = Ok st' ->
  staging m l2g st -> staging m l2g st'.
Proof.
  destruct st as [re w], st' as [re' w']. intros Hnn Hu Hrun (Hstep & Hnone & Hlinked).
  unfold staging. cbn [fst snd] in *.
  apply stage_edge_inv in Hrun as (row & Hi & Hrow & Hit & Hfit & -> & Hedge).
  apply refine_edge_inv in Hedge
    as (x & mm & Hpoint & Hx & Hmm & Hvs & Hcs & Hms & Hels & Hcnt).
  cbn [bump_splitCnt newVertices newCoords newMetric newElements splitCnt] in *.
  destruct Hstep as (Hcount & Hcoords & Hmetric).
  assert (Hsize : size (newVertices w') = size (newVertices w) + 1).
  { rewrite Hvs. unfold size. rewrite length_app. cbn. lia. }
  split; [|split; [congruence|]].
  - unfold in_step. rewrite Hcnt, Hcount, Hsize, Hcs, Hms.
    unfold size in *. rewrite !length_app.
    split; [unfold to_size; now rewrite Zplus_mod_idemp_l|]. lia.
  - intros Hsmall.
    specialize (Hlinked ltac:(lia)).
    assert (Hs : to_index (splitCnt w) = size (newVertices w)).
    { rewrite Hcount. unfold to_size. rewrite Z.mod_small by (unfold size in *; lia).
      apply to_index_small. unfold size in *. lia. }
    rewrite Hs. clear Hs.
    intros i' t row' off Hrow' Hoff Hset Hmark.
    destruct (decide (i' = Z.to_nat i)) as [->|Hother].
    + rewrite list_lookup_insert_eq in Hrow' by now apply lookup_lt_Some in Hrow.
      injection Hrow' as <-.
      destruct (decide (t = Z.to_nat it)) as [->|Ht].
      * rewrite list_lookup_insert_ne in Hoff by lia.
        replace (2 * Z.to_nat it)%nat with (Z.to_nat (2 * it)) in Hoff by lia.
        rewrite list_lookup_insert_eq in Hoff by (unfold size in Hfit; lia).
        injection Hoff as <-.
        split; [unfold size in *; lia|].
        exists nn, u, x, mm. rewrite Z2Nat.id by lia.
        split; [exact Hnn|]. split; [exact Hu|].
        split; [|split; [exact Hpoint|]].
        -- rewrite Hvs. unfold size. rewrite Nat2Z.id.
           now apply list_lookup_middle.
        -- rewrite Hcs, Hms. split; apply block_app_new; unfold size in *; lia.
      * rewrite !list_lookup_insert_ne in Hoff by lia.
        destruct (Hlinked _ _ _ _ Hrow Hoff Hset Hmark)
          as (Hrange & nn' & u' & x' & mm' & Hnn' & Hu' & Hv' & Hp' & Hx' & Hmm').
        split; [lia|]. exists nn', u', x', mm'.
        split; [exact Hnn'|]. split; [exact Hu'|].
        split; [|split; [exact Hp'|split]].
        -- rewrite Hvs. apply lookup_app_l_Some. exact Hv'.
        -- rewrite Hcs, <- Hx'. apply block_app_old; unfold size in *; nia.
        -- rewrite Hms, <- Hmm'. apply block_app_old; unfold size in *; nia.
    + rewrite list_lookup_insert_ne in Hrow' by lia.
      destruct (Hlinked _ _ _ _ Hrow' Hoff Hset Hmark)
        as (Hrange & nn' & u' & x' & mm' & Hnn' & Hu' & Hv' & Hp' & Hx' & Hmm').
      split; [lia|]. exists nn', u', x', mm'.
      split; [exact Hnn'|]. split; [exact Hu'|].
      split; [|split; [exact Hp'|split]].
      * rewrite Hvs. apply lookup_app_l_Some. exact Hv'.
      * rewrite Hcs, <- Hx'. apply block_app_old; unfold size in *; nia.
      * rewrite Hms, <- Hmm'. apply block_app_old; unfold size in *; nia.
Qed.

End Staging.

Section Passes.
Context `{Collaborators}.
Variables (m : Mesh) (l2g : list Z).
Hypothesis dims : 0 <= ndims m.

Lemma select_edges_keeps (L_max : float) (i : Z) (nn : list Z) :
  NNList m !! Z.to_nat i = Some nn ->
  forall (rest pre : list Z) (st st' : list (list Z) * Worker),
    nn = pre ++ rest ->
    select_edges L_max m l2g i (Z.of_nat (length pre)) rest st = Ok st' ->
    staging m l2g st -> staging m l2g st'.
Proof.
  intros Hnn. induction rest as [|u rest IH]; intros pre st st' Hsplit Hrun Hst.
  - now injection Hrun as <-.
  - cbn [select_edges] in Hrun. apply bind_ok in Hrun as (st1 & Hone & Hrun).
    assert (Hst1 : staging m l2g st1).
    { destruct (gnn l2g i <? gnn l2g u); [|now injection Hone as <-].
      destruct (L_max <? calc_edge_length m i u)%float; [|now injection Hone as <-].
      apply (stage_edge_keeps m l2g dims i (Z.of_nat (length pre)) u nn st st1);
        [exact Hnn| |exact Hone|exact Hst].
      rewrite Nat2Z.id, Hsplit. now apply list_lookup_middle. }
    apply (IH (pre ++ [u]) st1 st'); [|rewrite length_app; cbn|exact Hst1].
    + now rewrite <- app_assoc.
    + now replace (Z.of_nat (length pre + 1)) with (Z.of_nat (length pre) + 1) by lia.
Qed.

Lemma select_vertex_keeps (L_max : float) (st st' : list (list Z) * Worker) (i : Z) :
  select_vertex L_max m l2g st i = Ok st' ->
  staging m l2g st -> staging m l2g st'.
Proof.
  destruct st as [re w]. unfold select_vertex. intros Hrun (Hstep & Hnone & Hlinked).
  apply bind_ok in Hrun as (nn & Hnn & Hrun).
  apply bind_ok in Hrun as (row & Hrow & Hrun).
  apply bind_ok in Hrun as (re1 & Hre1 & Hrun).
  apply vget_inv in Hnn as [Hi Hnn]. apply vget_inv in Hrow as [_ Hrow].
  apply vset_inv in Hre1 as [_ ->].
  apply (select_edges_keeps L_max i nn Hnn nn [] _ st' eq_refl Hrun).
  split; [exact Hstep|]. split; [exact Hnone|]. cbn [fst snd] in *. intros Hsmall.
  specialize (Hlinked Hsmall).
  intros i' t row' off Hrow' Hoff Hset Hmark.
  destruct (decide (i' = Z.to_nat i)) as [->|Hother].
  - rewrite list_lookup_insert_eq in Hrow' by now apply lookup_lt_Some in Hrow.
    injection Hrow' as <-. apply lookup_resize_inv in Hoff; [|exact Hset].
    exact (Hlinked _ _ _ _ Hrow Hoff Hset Hmark).
  - rewrite list_lookup_insert_ne in Hrow' by lia.
    exact (Hlinked _ _ _ _ Hrow' Hoff Hset Hmark).
Qed.

Lemma edge_selection_keeps (L_max : float) (NNodes : Z) (st : list (list Z) * Worker) :
  edge_selection L_max m l2g NNodes = Ok st -> staging m l2g st.
Proof.
  unfold edge_selection. intros Hrun.
  apply (foldM_preserves (staging m l2g)) in Hrun; [exact Hrun| |].
  - intros s x s' Hs. exact (select_vertex_keeps L_max s s' x Hs).
  - split; [|split; [reflexivity|]]; cbn [fst snd].
    + unfold in_step, size. cbn. unfold to_size. rewrite Z.mod_0_l by lia. lia.
    + intros _ i t row off Hrow Hoff.
      apply lookup_replicate in Hrow as [-> _]. discriminate.
Qed.

Lemma scan_neighbours_nonneg (nn : list Z) (n1 : Z) :
  forall pos p : Z, scan_neighbours nn n1 pos = Ok p -> pos <= p.
Proof.
  induction nn as [|x nn IH]; intros pos p Hp; [discriminate|].
  cbn [scan_neighbours] in Hp. destruct (x =? n1).
  - injection Hp as <-. lia.
  - apply IH in Hp. lia.
Qed.

Lemma mark_edge_inv (a b : Z) (re re' : list (list Z)) :
  mark_edge m l2g a b re = Ok re' ->
  exists (lo pos : nat) (row : list Z),
    re !! lo = Some row /\ (2 * pos < length row)%nat /\
    re' = <[lo := <[(2 * pos)%nat := index_max]> row]> re.
Proof.
  unfold mark_edge. destruct (lesser_first l2g a b) as [n0 n1]. intros Hrun.
  apply bind_ok in Hrun as (nn & _ & Hrun).
  apply bind_ok in Hrun as (pos & Hpos & Hrun).
  apply scan_neighbours_nonneg in Hpos.
  apply set_slot_inv in Hrun as (row & Hn0 & Hrow & Hk & ->).
  exists (Z.to_nat n0), (Z.to_nat pos), row.
  split; [exact Hrow|]. split; [unfold size in Hk; lia|].
  now replace (2 * Z.to_nat pos)%nat with (Z.to_nat (2 * pos)) by lia.
Qed.

Lemma mark_edge_keeps (a b : Z) (re re' : list (list Z)) (w : Worker) :
  mark_edge m l2g a b re = Ok re' -> linked m l2g re w -> linked m l2g re' w.
Proof.
  intros Hrun Hlinked.
  apply mark_edge_inv in Hrun as (lo & pos & row & Hrow & Hfit & ->).
  intros i t row' off Hrow' Hoff Hset Hmark.
  destruct (decide (i = lo)) as [->|Hother].
  - rewrite list_lookup_insert_eq in Hrow' by now apply lookup_lt_Some in Hrow.
    injection Hrow' as <-.
    destruct (decide (t = pos)) as [->|Ht].
    + rewrite list_lookup_insert_eq in Hoff by exact Hfit.
      injection Hoff as <-. now contradict Hmark.
    + rewrite list_lookup_insert_ne in Hoff by lia.
      exact (Hlinked _ _ _ _ Hrow Hoff Hset Hmark).
  - rewrite list_lookup_insert_ne in Hrow' by lia.
    exact (Hlinked _ _ _ _ Hrow' Hoff Hset Hmark).
Qed.

Lemma mark_unsplit_keeps (n : list Z) (splits : list Edge)
    (re re' : list (list Z)) (marked : Z) (w : Worker) :
  mark_unsplit m l2g n splits re = Ok (re', marked) ->
  linked m l2g re w -> linked m l2g re' w.
Proof.
  unfold mark_unsplit. intros Hrun Hlinked.
  apply (foldM_preserves (fun s => linked m l2g (fst s) w)) in Hrun;
    [exact Hrun| |exact Hlinked].
  intros [re0 k] [a b] [re1 k'] Hone Hre0. cbn [fst] in *.
  destruct (existsb _ _); [now injection Hone as <- _|].
  apply bind_ok in Hone as (re2 & Hmark & Hone). injection Hone as <- _.
  exact (mark_edge_keeps _ _ _ _ _ Hmark Hre0).
Qed.

Lemma propagate_element_keeps (st st' : list (list Z) * Z) (i : Z) (w : Worker) :
  propagate_element m l2g st i = Ok st' ->
  linked m l2g (fst st) w -> linked m l2g (fst st') w.
Proof.
  destruct st as [re k]. unfold propagate_element. intros Hrun Hlinked.
  cbn [fst] in Hlinked.
  apply bind_ok in Hrun as (n & _ & Hrun).
  apply bind_ok in Hrun as (first & _ & Hrun).
  destruct (first <? 0); [now injection Hrun as <-|].
  apply bind_ok in Hrun as (splits & _ & Hrun).
  destruct splits as [|s0 [|s1 [|s2 [|s3 [|s4 [|s5 rest]]]]]];
    try (now injection Hrun as <-).
  - destruct (connected s0 s1 >=? 0); [|now injection Hrun as <-].
    apply bind_ok in Hrun as (re' & Hmark & Hrun). injection Hrun as <-.
    exact (mark_edge_keeps _ _ _ _ _ Hmark Hlinked).
  - destruct (size (shared_vertices s0 s1 s2) =? 3); [now injection Hrun as <-|].
    apply bind_ok in Hrun as ([re' k'] & Hmark & Hrun). injection Hrun as <-.
    exact (mark_unsplit_keeps _ _ _ _ _ _ Hmark Hlinked).
  - apply bind_ok in Hrun as ([re' k'] & Hmark & Hrun). injection Hrun as <-.
    exact (mark_unsplit_keeps _ _ _ _ _ _ Hmark Hlinked).
  - apply bind_ok in Hrun as ([re' k'] & Hmark & Hrun). injection Hrun as <-.
    exact (mark_unsplit_keeps _ _ _ _ _ _ Hmark Hlinked).
Qed.

Lemma propagate_sweep_keeps (NElements : Z) (re re' : list (list Z)) (k : Z)
    (w : Worker) :
  propagate_sweep m l2g NElements re = Ok (re', k) ->
  linked m l2g re w -> linked m l2g re' w.
Proof.
  unfold propagate_sweep. intros Hrun Hlinked.
  apply (foldM_preserves (fun s => linked m l2g (fst s) w)) in Hrun;
    [exact Hrun| |exact Hlinked].
  intros s x s' Hs. exact (propagate_element_keeps s s' x w Hs).
Qed.

Lemma realise_edges_keeps (i : Z) (nn : list Z) :
  NNList m !! Z.to_nat i = Some nn ->
  forall (rest pre : list Z) (st st' : list (list Z) * Worker),
    nn = pre ++ rest ->
    realise_edges m l2g i (Z.of_nat (length pre)) rest st = Ok st' ->
    staging m l2g st -> staging m l2g st'.
Proof.
  intros Hnn. induction rest as [|u rest IH]; intros pre st st' Hsplit Hrun Hst.
  - now injection Hrun as <-.
  - cbn [realise_edges] in Hrun. apply bind_ok in Hrun as (v & _ & Hrun).
    apply bind_ok in Hrun as (st1 & Hone & Hrun).
    assert (Hst1 : staging m l2g st1).
    { destruct (v =? index_max); [|now injection Hone as <-].
      apply (stage_edge_keeps m l2g dims i (Z.of_nat (length pre)) u nn st st1);
        [exact Hnn| |exact Hone|exact Hst].
      rewrite Nat2Z.id, Hsplit. now apply list_lookup_middle. }
    apply (IH (pre ++ [u]) st1 st'); [|rewrite length_app; cbn|exact Hst1].
    + now rewrite <- app_assoc.
    + now replace (Z.of_nat (length pre + 1)) with (Z.of_nat (length pre) + 1) by lia.
Qed.

Lemma realise_vertex_keeps (st st' : list (list Z) * Worker) (i : Z) :
  realise_vertex m l2g st i = Ok st' ->
  staging m l2g st -> staging m l2g st'.
Proof.
  unfold realise_vertex. intros Hrun Hst.
  apply bind_ok in Hrun as (nn & Hnn & Hrun).
  apply vget_inv in Hnn as [Hi Hnn].
  exact (realise_edges_keeps i nn Hnn nn [] st st' eq_refl Hrun Hst).
Qed.

Lemma propagate_keeps (fuel : nat) :
  forall (sweep : nat) (nprocs NNodes NElements : Z)
         (st st' : list (list Z) * Worker),
    propagate fuel sweep nprocs m l2g NNodes NElements st = Ok st' ->
    staging m l2g st -> staging m l2g st'.
Proof.
  induction fuel as [|fuel IH]; intros sweep nprocs NNodes NElements st st' Hrun Hst;
    [discriminate|].
  cbn [propagate] in Hrun.
  apply bind_ok in Hrun as ([re k] & Hsweep & Hrun).
  assert (Hmarked : staging m l2g (re, snd st)).
  { destruct Hst as (Hstep & Hnone & Hlinked). split; [exact Hstep|].
    split; [exact Hnone|]. cbn [fst snd].
    intros Hsmall. exact (propagate_sweep_keeps _ _ _ _ _ Hsweep (Hlinked Hsmall)). }
  destruct (_ =? 0); [now injection Hrun as <-|].
  apply bind_ok in Hrun as (st1 & Hrealise & Hrun).
  apply (IH _ _ _ _ _ _ Hrun).
  apply (foldM_preserves (staging m l2g)) in Hrealise; [exact Hrealise| |exact Hmarked].
  intros s x s' Hs. exact (realise_vertex_keeps s s' x Hs).
Qed.

End Passes.

Lemma mapM_inv {A B : Type} (f : A -> result B) (l : list A) :
  forall l' : list B, mapM f l = Ok l' -> Forall2 (fun x y => f x = Ok y) l l'.
Proof.
  induction l as [|x l IH]; intros l' Hrun.
  - injection Hrun as <-. constructor.
  - cbn [mapM] in Hrun. apply bind_ok in Hrun as (y & Hy & Hrun).
    apply bind_ok in Hrun as (ys & Hys & Hrun). injection Hrun as <-.
    constructor; [exact Hy|]. now apply IH.
Qed.

Lemma fix_ids_inv (idx : Z) (row : list Z) :
  forall row' : list Z,
    fix_ids [idx] row = Ok row' ->
    length row' = length row /\
    forall (t : nat) (v : Z),
      row !! (2 * t)%nat = Some v ->
      row' !! (2 * t)%nat = Some (if v =? -1 then v else to_index (v + idx)).
Proof.
  induction row as [row IH] using (induction_ltof1 _ (@length Z)).
  unfold ltof in IH. intros row' Hrun.
  destruct row as [|v [|tag rest]]; [|discriminate|].
  - injection Hrun as <-. split; [reflexivity|]. intros t v Hv. discriminate.
  - cbn [fix_ids] in Hrun. apply bind_ok in Hrun as (v' & Hv' & Hrun).
    apply bind_ok in Hrun as (rest' & Hrest & Hrun). injection Hrun as <-.
    destruct (IH rest ltac:(cbn; lia) _ Hrest) as [Hlen Hslots].
    split; [cbn; lia|]. intros t x Hx. destruct t as [|t].
    + cbn in Hx. injection Hx as <-. cbn. f_equal.
      destruct (v =? -1); [now injection Hv' as <-|].
      apply bind_ok in Hv' as (t & Ht & Hv'). injection Hv' as <-.
      apply vget_inv in Ht as [Htag Ht].
      destruct (Z.to_nat tag) as [|k]; [now injection Ht as <-|].
      destruct k; discriminate.
    + replace (2 * S t)%nat with (S (S (2 * t))) in * by lia.
      cbn in Hx. cbn. exact (Hslots t x Hx).
Qed.

Lemma insert_vertices_arrays (m m1 : Mesh) (owner owner1 : list Z) (NNodes : Z)
    (re re1 : list (list Z)) (w w1 : Worker) :
  0 < ndims m -> 0 <= NNodes < 2 ^ 31 ->
  in_step m w ->
  insert_vertices m owner NNodes re w = Ok (m1, owner1, re1, w1) ->
  let cnt := size (newVertices w) in
  mapM (fix_ids [NNodes]) re = Ok re1 /\
  ndims m1 = ndims m /\ _ENList m1 = _ENList m /\
  recv m1 = recv m /\ send m1 = send m /\
  recv_halo m1 = recv_halo m /\ send_halo m1 = send_halo m /\
  _coords m1 = resize (Z.to_nat (ndims m * NNodes)) 0%float (_coords m) ++ newCoords w /\
  metric m1
  = resize (Z.to_nat (ndims m * ndims m * NNodes)) 0%float (metric m) ++ newMetric w /\
  NNList m1 = resize (Z.to_nat (NNodes + cnt)) [] (NNList m) /\
  NEList m1 = resize (Z.to_nat (NNodes + cnt)) [] (NEList m) /\
  newCoords w1 = newCoords w /\ newMetric w1 = newMetric w /\
  newElements w1 = newElements w /\ cerr w1 = cerr w.
Proof.
  intros Hd HN (Hcount & Hcoords & Hmetric) Hrun.
  destruct (insert_vertices_inv _ _ _ _ _ _ _ _ _ Hd HN Hrun) as (Hfew & _ & _).
  unfold insert_vertices in Hrun.
  rewrite block_start_count in Hrun by lia.
  assert (Hcnt : splitCnt w = size (newVertices w)).
  { rewrite Hcount. unfold to_size. apply Z.mod_small. unfold size in *. lia. }
  rewrite Hcnt in Hrun. set (cnt := size (newVertices w)) in *.
  assert (Hcnt0 : 0 <= cnt) by (unfold cnt, size; lia).
  assert (Hnew : to_index (to_size (NNodes + cnt)) = NNodes + cnt).
  { unfold to_size. rewrite Z.mod_small by lia. apply to_index_small. lia. }
  rewrite Hnew in Hrun.
  apply bind_ok in Hrun as (coords & Hc & Hrun).
  apply bind_ok in Hrun as (met & Hm & Hrun).
  apply bind_ok in Hrun as (nelist & Hne & Hrun).
  apply bind_ok in Hrun as (nnlist & Hnn & Hrun).
  apply bind_ok in Hrun as (owner' & _ & Hrun).
  apply bind_ok in Hrun as (coords' & Hcopy & Hrun).
  apply bind_ok in Hrun as (met' & Hcopy' & Hrun).
  rewrite Z.eqb_refl in Hrun. cbn [negb] in Hrun.
  apply bind_ok in Hrun as (re' & Hre & Hrun).
  injection Hrun as <- <- <- <-.
  apply vresize_inv in Hc as [_ ->]. apply vresize_inv in Hm as [_ ->].
  apply vresize_inv in Hne as [_ ->]. apply vresize_inv in Hnn as [_ ->].
  cbn zeta. cbn [set_vertex_arrays ndims _ENList recv send recv_halo send_halo
                 _coords metric NNList NEList newCoords newMetric newElements cerr].
  repeat (split; [reflexivity || assumption|]).
  assert (Hcopied : forall (len : Z) (old buf : list float),
             0 <= len -> size buf = len * cnt ->
             forall r, memcpy (resize (Z.to_nat (len * (NNodes + cnt))) 0%float old)
                              (len * NNodes) buf (len * cnt) = Ok r ->
             r = resize (Z.to_nat (len * NNodes)) 0%float old ++ buf).
  { intros len old buf Hlen Hbuf r Hr. unfold memcpy in Hr.
    destruct (_ && _); [|discriminate]. injection Hr as <-.
    rewrite take_resize_le by nia. f_equal.
    rewrite (take_ge buf) by (unfold size in Hbuf; lia).
    rewrite drop_ge; [apply app_nil_r|]. rewrite length_resize. nia. }
  split; [|split; [|split; [reflexivity|]]].
  - apply (Hcopied (ndims m)); [lia|lia|exact Hcopy].
  - apply (Hcopied (ndims m * ndims m)); [nia|lia|].
    now rewrite <- !Z.mul_assoc in Hcopy' |- *.
  - repeat split; reflexivity.
Qed.

Lemma to_index_pending (N : Z) : 1 <= N < 2 ^ 31 -> to_index (index_max + N) < 0.
Proof.
  intros HN. unfold to_index, index_max.
  replace (2147483647 + N + 2 ^ 31) with (N - 1 + 1 * 2 ^ 32) by lia.
  rewrite Z.mod_add by lia. rewrite Z.mod_small by lia. lia.
Qed.

Lemma slice_app_block (old buf : list float) (N k len : Z) :
  size old = N * len -> 0 <= N -> 0 <= k -> 0 <= len ->
  (k + 1) * len <= size buf ->
  slice (old ++ buf) ((N + k) * len) len = Ok (block buf k len).
Proof.
  intros Hold HN Hk Hlen Hfit. unfold size in *.
  rewrite slice_ok; [|nia|lia|unfold size; rewrite length_app; nia].
  unfold block. f_equal.
  replace (Z.to_nat ((N + k) * len)) with (length old + Z.to_nat (k * len))%nat by nia.
  now rewrite drop_app_add.
Qed.

Section Runs.
Context `{Collaborators}.

Lemma staging_before_insertion (fuel : nat) (nprocs : Z) (L_max : float)
    (m : Mesh) (l2g : list Z) (NNodes NElements : Z)
    (st : list (list Z) * Worker) (re : list (list Z)) (w : Worker) :
  0 <= ndims m ->
  edge_selection L_max m l2g NNodes = Ok st ->
  (if ndims m =? 3 then propagate fuel 0 nprocs m l2g NNodes NElements st else Ok st)
  = Ok (re, w) ->
  staging m l2g (re, w).
Proof.
  intros Hd Hsel Hprop. apply (edge_selection_keeps m l2g Hd) in Hsel.
  destruct (ndims m =? 3).
  - exact (propagate_keeps m l2g Hd _ _ _ _ _ _ _ Hprop Hsel).
  - now injection Hprop as <-.
Qed.

(** X5. The buffers of the worker stay in step through the edge selection
    and the conforming propagation: when the vertices are about to be
    inserted, [splitCnt] is the number of staged vertices (modulo 2^64), the
    coordinate buffer holds d entries and the metric buffer d*d entries for
    each of them, and no element has been produced yet. So the [assert] on
    the number of new vertices holds and the two [memcpy] calls copy whole
    vertices. *)
Theorem worker_buffers_stay_in_step (fuel : nat) (nprocs : Z) (L_max : float)
    (m : Mesh) (l2g : list Z) (NNodes NElements : Z)
    (st : list (list Z) * Worker) (re : list (list Z)) (w : Worker) :
  0 <= ndims m ->
  edge_selection L_max m l2g NNodes = Ok st ->
  (if ndims m =? 3 then propagate fuel 0 nprocs m l2g NNodes NElements st else Ok st)
  = Ok (re, w) ->
  splitCnt w = to_size (size (newVertices w)) /\
  size (newCoords w) = ndims m * size (newVertices w) /\
  size (newMetric w) = ndims m * ndims m * size (newVertices w) /\
  newElements w = [].
Proof.
  intros Hd Hsel Hprop.
  destruct (staging_before_insertion _ _ _ _ _ _ _ _ _ _ Hd Hsel Hprop)
    as ((? & ? & ?) & ? & _).
  repeat split; assumption.
Qed.

(** X6. What [refine] does to the vertex arrays of a well-formed mesh: the
    coordinates, the metric, and the two adjacency lists of the vertices the
    mesh had are kept as they are; behind them come d coordinates, d*d
    metric entries and two empty adjacency lists for every new vertex; the
    vertex count and the size of [node_owner] grow by the number of new
    vertices. *)
Theorem refine_appends_vertex_data (fuel : nat) (r : Refine) (m : Mesh)
    (surface : Surface) (L_max : float) (o : Refined) :
  well_formed m ->
  refine fuel r m surface L_max = Ok o ->
  let count := size (out_newVertices o) in
  exists (m' : Mesh) (coords' metric' : list float),
    out_mesh o = create_adjancy m' /\
    ndims m' = ndims m /\
    _coords m' = _coords m ++ coords' /\
    metric m' = metric m ++ metric' /\
    size coords' = ndims m * count /\
    size metric' = ndims m * ndims m * count /\
    NNList m' = NNList m ++ replicate (Z.to_nat count) [] /\
    NEList m' = NEList m ++ replicate (Z.to_nat count) [] /\
    get_number_nodes m' = get_number_nodes m + count /\
    size (node_owner (out_driver o)) = get_number_nodes m + count.
Proof.
  intros wf Hrun count. apply refine_inv in Hrun. cbn zeta in Hrun.
  destruct Hrun as (owner & st & re & w & m1 & owner1 & re1 & w1 & m2 & w2 & m3
                    & owner3 & Howner & Hsel & Hprop & Hinsert & Helems & Hsize
                    & Hhalo & ->).
  pose proof (wf_dims m wf) as Hd.
  assert (HN : 0 <= get_number_nodes m < 2 ^ 31).
  { pose proof (wf_nodes m wf) as Hlt. pose proof (wf_NNList m wf) as Hnn0.
    unfold size in Hnn0. lia. }
  assert (Hd0 : 0 <= ndims m) by lia.
  destruct (staging_before_insertion _ _ _ _ _ _ _ _ _ _ Hd0 Hsel Hprop)
    as (Hstep & _ & _). cbn [snd] in Hstep.
  destruct (insert_vertices_inv _ _ _ _ _ _ _ _ _ Hd HN Hinsert)
    as (Hfew & Howner1 & Hids).
  destruct (insert_vertices_arrays _ _ _ _ _ _ _ _ _ Hd HN Hstep Hinsert)
    as (_ & Hd1 & _ & _ & _ & _ & _ & Hcoords & Hmetric & Hnn & Hne & _).
  apply element_refinement_vertices in Helems as Hvs.
  apply element_refinement_keeps in Helems as ((Hd2 & Hc2 & Hm2 & Hnn2 & Hne2) & _).
  apply halo_phase_length in Hhalo as Hlen.
  apply halo_phase_keeps_mesh in Hhalo as ((Hd3 & Hc3 & Hm3 & Hnn3 & Hne3) & _).
  cbn [out_newVertices out_mesh out_driver node_owner] in *.
  assert (Hcount : count = size (newVertices w)).
  { unfold count. cbn [out_newVertices]. rewrite Hvs, Hids. unfold size.
    now rewrite length_imap. }
  destruct Hstep as (_ & Hsc & Hsm).
  exists m3, (newCoords w), (newMetric w).
  split; [reflexivity|]. split; [congruence|].
  assert (Hcoords3 : _coords m3 = _coords m ++ newCoords w).
  { rewrite Hc3, Hc2, Hcoords. f_equal. apply resize_all_alt.
    pose proof (wf_coords m wf). unfold size in *. lia. }
  split; [exact Hcoords3|]. split.
  { rewrite Hm3, Hm2, Hmetric. f_equal. apply resize_all_alt.
    pose proof (wf_metric m wf). unfold size in *. lia. }
  split; [lia|]. split; [lia|]. split.
  { rewrite Hnn3, Hnn2, Hnn. rewrite resize_ge.
    - f_equal. f_equal. pose proof (wf_NNList m wf). unfold size in *. lia.
    - pose proof (wf_NNList m wf). unfold size in *. lia. }
  split.
  { rewrite Hne3, Hne2, Hne. rewrite resize_ge.
    - f_equal. f_equal. pose proof (wf_NEList m wf). unfold size in *. lia.
    - pose proof (wf_NEList m wf). unfold size in *. lia. }
  split.
  { unfold get_number_nodes at 1. rewrite Hcoords3, Hd3, Hd2, Hd1.
    unfold size. rewrite length_app. pose proof (wf_coords m wf) as Hwf.
    unfold size in *.
    replace (Z.of_nat (length (_coords m) + length (newCoords w)))
      with ((get_number_nodes m + count) * ndims m) by lia.
    apply Z.div_mul. lia. }
  unfold size. rewrite Hlen, Howner1, length_resize. unfold size in *. lia.
Qed.

End Runs.

(** X7. A slot of [refined_edges] that holds a vertex id after [refine]
    names the new vertex of its edge: for the slot at position [t] of vertex
    [i], with [u] the neighbour at that position, the id is behind the
    original vertices, the record of [newVertices] with that id is the one of
    the edge between [i] and [u] (lesser GID first), and in the mesh that is
    handed to [create_adjancy] the vertex with that id has the coordinates
    and the metric that [refine_edge] computes for that edge. *)
Theorem refined_edges_name_new_vertices `{Collaborators} (fuel : nat) (r : Refine)
    (m : Mesh) (surface : Surface) (L_max : float) (o : Refined) :
  0 < ndims m ->
  0 < get_number_nodes m < 2 ^ 31 ->
  refine fuel r m surface L_max = Ok o ->
  forall (i t : nat) (row : list Z) (id : Z),
    out_refined_edges o !! i = Some row ->
    row !! (2 * t)%nat = Some id ->
    0 <= id ->
    exists (nn : list Z) (u : Z) (x mm : list float) (m' : Mesh),
      NNList m !! i = Some nn /\ nn !! t = Some u /\
      get_number_nodes m <= id /\
      out_newVertices o !! Z.to_nat (id - get_number_nodes m)
      = Some (with_id (edge_record (lnn2gnn (out_driver o)) (Z.of_nat i) u) id) /\
      new_point m (lnn2gnn (out_driver o)) (Z.of_nat i) u = Ok (x, mm) /\
      out_mesh o = create_adjancy m' /\
      get_coords m' id = Ok x /\ get_metric m' id = Ok mm.
Proof.
  intros Hd HN Hrun i t row id Hrow Hid Hnonneg.
  apply refine_inv in Hrun. cbn zeta in Hrun.
  destruct Hrun as (owner & st & re & w & m1 & owner1 & re1 & w1 & m2 & w2 & m3
                    & owner3 & Howner & Hsel & Hprop & Hinsert & Helems & Hsize
                    & Hhalo & ->).
  cbn [out_refined_edges out_newVertices out_driver lnn2gnn out_mesh] in *.
  set (N := get_number_nodes m) in *.
  set (l2g := init_lnn2gnn (nprocs r) N) in *.
  assert (Hd0 : 0 <= ndims m) by lia.
  destruct (staging_before_insertion _ _ _ _ _ _ _ _ _ _ Hd0 Hsel Hprop)
    as (Hstep & _ & Hlinked). cbn [fst snd] in Hstep, Hlinked.
  assert (HN0 : 0 <= N < 2 ^ 31) by lia.
  destruct (insert_vertices_inv _ _ _ _ _ _ _ _ _ Hd HN0 Hinsert)
    as (Hfew & _ & Hids).
  destruct (insert_vertices_arrays _ _ _ _ _ _ _ _ _ Hd HN0 Hstep Hinsert)
    as (Hfix & Hd1 & _ & _ & _ & _ & _ & Hcoords & Hmetric & _).
  apply element_refinement_vertices in Helems as Hvs.
  apply element_refinement_keeps in Helems as ((Hd2 & Hc2 & Hm2 & _) & _).
  apply halo_phase_keeps_mesh in Hhalo as ((Hd3 & Hc3 & Hm3 & _) & _).
  specialize (Hlinked ltac:(lia)).
  apply mapM_inv in Hfix.
  destruct (Forall2_lookup_r _ _ _ _ _ Hfix Hrow) as (row0 & Hrow0 & Hfixed).
  apply fix_ids_inv in Hfixed as [Hlen Hslots].
  destruct (lookup_lt_is_Some_2 row0 (2 * t)) as [v Hv].
  { rewrite <- Hlen. now apply lookup_lt_Some in Hid. }
  rewrite (Hslots _ _ Hv) in Hid. injection Hid as Hid.
  destruct (Z.eqb_spec v (-1)) as [Hunset|Hset]; [lia|].
  destruct (Z.eq_dec v index_max) as [Hpending|Hmark].
  { rewrite Hpending in Hid. pose proof (to_index_pending N ltac:(lia)). lia. }
  destruct (Hlinked _ _ _ _ Hrow0 Hv Hset Hmark)
    as (Hrange & nn & u & x & mm & Hnn & Hu & Hvertex & Hpoint & Hx & Hmm).
  rewrite to_index_small in Hid by lia. subst id.
  destruct Hstep as (_ & Hsc & Hsm).
  exists nn, u, x, mm, m3.
  split; [exact Hnn|]. split; [exact Hu|]. split; [lia|].
  split; [|split; [exact Hpoint|split; [reflexivity|]]].
  - rewrite Hvs, Hids, list_lookup_imap.
    replace (Z.to_nat (v + N - N)) with (Z.to_nat v) by lia.
    rewrite Hvertex. cbn. do 2 f_equal. lia.
  - unfold get_coords, get_metric.
    rewrite Hc3, Hc2, Hcoords, Hm3, Hm2, Hmetric, Hd3, Hd2, Hd1.
    replace (v + N) with (N + v) by lia. split.
    + rewrite <- Hx. apply slice_app_block; try lia.
      * unfold size. rewrite length_resize. lia.
      * unfold size in *. nia.
    + rewrite <- Hmm. apply slice_app_block; try lia.
      * unfold size. rewrite length_resize. nia.
      * unfold size in *. nia.
Qed.

Lemma worker_buffers_stay_in_step_witness :
  exists (st : list (list Z) * Worker) (re : list (list Z)) (w : Worker),
    @edge_selection Example.serial 1.25%float Example.unit_triangle [0; 1; 2] 3 = Ok st /\
    (if ndims Example.unit_triangle =? 3
     then @propagate Example.serial 1 0 1 Example.unit_triangle [0; 1; 2] 3 1 st
     else Ok st) = Ok (re, w) /\
    splitCnt w = to_size (size (newVertices w)) /\
    size (newCoords w) = ndims Example.unit_triangle * size (newVertices w) /\
    size (newMetric w)
    = ndims Example.unit_triangle * ndims Example.unit_triangle * size (newVertices w) /\
    newElements w = [].
Proof.
  eexists _, _, _. split; [vm_compute; reflexivity|].
  split; [vm_compute; reflexivity|].
  eapply (@worker_buffers_stay_in_step Example.serial 1 1 1.25%float
            Example.unit_triangle [0; 1; 2] 3 1).
  - vm_compute. discriminate.
  - vm_compute. reflexivity.
  - vm_compute. reflexivity.
Defined.

Lemma refine_appends_vertex_data_witness :
  exists o : @Refined Example.serial,
    @refine Example.serial 1 Example.driver Example.unit_triangle tt 1.25%float = Ok o /\
    let count := size (out_newVertices o) in
    exists (m' : Mesh) (coords' metric' : list float),
      out_mesh o = @create_adjancy Example.serial m' /\
      ndims m' = ndims Example.unit_triangle /\
      _coords m' = _coords Example.unit_triangle ++ coords' /\
      metric m' = metric Example.unit_triangle ++ metric' /\
      size coords' = ndims Example.unit_triangle * count /\
      size metric' = ndims Example.unit_triangle * ndims Example.unit_triangle * count /\
      NNList m' = NNList Example.unit_triangle ++ replicate (Z.to_nat count) [] /\
      NEList m' = NEList Example.unit_triangle ++ replicate (Z.to_nat count) [] /\
      get_number_nodes m' = get_number_nodes Example.unit_triangle + count /\
      size (node_owner (out_driver o)) = get_number_nodes Example.unit_triangle + count.
Proof.
  eexists. split; [vm_compute; reflexivity|].
  apply (@refine_appends_vertex_data Example.serial 1 Example.driver
           Example.unit_triangle tt 1.25%float).
  - exact unit_triangle_well_formed.
  - vm_compute. reflexivity.
Defined.

Lemma refined_edges_name_new_vertices_witness :
  exists o : @Refined Example.serial,
    @refine Example.serial 1 Example.driver Example.unit_triangle tt 1.25%float = Ok o /\
    forall (i t : nat) (row : list Z) (id : Z),
      out_refined_edges o !! i = Some row ->
      row !! (2 * t)%nat = Some id ->
      0 <= id ->
      exists (nn : list Z) (u : Z) (x mm : list float) (m' : Mesh),
        NNList Example.unit_triangle !! i = Some nn /\ nn !! t = Some u /\
        get_number_nodes Example.unit_triangle <= id /\
        out_newVertices o !! Z.to_nat (id - get_number_nodes Example.unit_triangle)
        = Some (with_id (@edge_record Example.serial (lnn2gnn (out_driver o))
                                      (Z.of_nat i) u) id) /\
        @new_point Example.serial Example.unit_triangle (lnn2gnn (out_driver o))
                   (Z.of_nat i) u = Ok (x, mm) /\
        out_mesh o = @create_adjancy Example.serial m' /\
        get_coords m' id = Ok x /\ get_metric m' id = Ok mm.
Proof.
  eexists. split; [vm_compute; reflexivity|].
  apply (@refined_edges_name_new_vertices Example.serial 1 Example.driver
           Example.unit_triangle tt 1.25%float).
  - reflexivity.
  - vm_compute. split; reflexivity.
  - vm_compute. reflexivity.
Defined.

(** *** The new elements *)

Lemma foldM_counted {A T : Type} (P : nat -> T -> Prop) (f : T -> A -> result T) :
  (forall n s x s', f s x = Ok s' -> P n s -> P (S n) s') ->
  forall (l : list A) (n : nat) (s s' : T),
    foldM f s l = Ok s' -> P n s -> P (n + length l)%nat s'.
Proof.
  intros Hstep. induction l as [|x l IH]; intros n s s' Hrun Hs.
  - injection Hrun as <-. now rewrite Nat.add_0_r.
  - cbn [foldM] in Hrun. apply bind_ok in Hrun as (s1 & Hs1 & Hrun).
    cbn [length]. replace (n + S (length l))%nat with (S n + length l)%nat by lia.
    apply (IH _ _ _ Hrun). exact (Hstep _ _ _ _ Hs1 Hs).
Qed.

Lemma emit_emitted (nloc : Z) (children : list (list Z)) (w : Worker) :
  Forall (fun c => size c = nloc) children ->
  emitted nloc w (emit children (size children) w) (size children).
Proof.
  intros Hall. unfold emitted, emit. cbn.
  split; [unfold size; lia|]. split; [|repeat split].
  exists (concat children). split.
  - generalize (newElements w) as acc.
    induction children as [|c children IH]; intros acc; cbn; [now rewrite app_nil_r|].
    apply Forall_cons in Hall as [_ Hall]. rewrite (IH Hall). now rewrite app_assoc.
  - induction Hall as [|c children Hc Hall IH]; cbn; [unfold size; cbn; lia|].
    unfold size in *. rewrite length_app. cbn [length]. lia.
Qed.

Lemma emitted_none (nloc : Z) (w : Worker) :
  0 <= splitCnt w < 2 ^ 64 -> emitted nloc w w 0.
Proof.
  intros Hcnt. unfold emitted. split; [lia|]. split; [|repeat split].
  - exists []. split; [now rewrite app_nil_r|]. unfold size. cbn. lia.
  - unfold to_size. rewrite Z.add_0_r. symmetry. now apply Z.mod_small.
Qed.

Lemma emitted_trans (nloc : Z) (w w1 w2 : Worker) (c1 c2 : Z) :
  emitted nloc w w1 c1 -> emitted nloc w1 w2 c2 -> emitted nloc w w2 (c1 + c2).
Proof.
  intros (Hc1 & (a1 & Ha1 & Hs1) & Hn1 & ? & ? & ? & ? & ?)
         (Hc2 & (a2 & Ha2 & Hs2) & Hn2 & ? & ? & ? & ? & ?).
  split; [lia|]. split; [|repeat split; try congruence].
  - exists (a1 ++ a2). rewrite Ha2, Ha1, app_assoc. split; [reflexivity|].
    unfold size in *. rewrite length_app. lia.
  - rewrite Hn2, Hn1. unfold to_size. rewrite Zplus_mod_idemp_l. f_equal. lia.
Qed.

Lemma erased_from_refl (nloc : Z) (l : list Z) : erased_from nloc l l.
Proof. split; [reflexivity|]. intros k x Hx. now left. Qed.

Lemma nloc_of_pos (d : Z) : 0 < nloc_of d.
Proof. unfold nloc_of. destruct (d =? 2); lia. Qed.

Section Elements.
Context `{Collaborators}.

Lemma refine_2d_emits (m : Mesh) (l2g : list Z) (re : list (list Z))
    (n : list Z) (w w' : Worker) :
  0 <= splitCnt w < 2 ^ 64 ->
  refine_2d m l2g re n w = Ok (Some w') ->
  exists count : Z, count <= 4 /\ emitted 3 w w' count.
Proof.
  intros Hcnt. unfold refine_2d. intros Hrun.
  apply bind_ok in Hrun as (n0 & _ & Hrun).
  apply bind_ok in Hrun as (n1 & _ & Hrun).
  apply bind_ok in Hrun as (n2 & _ & Hrun).
  apply bind_ok in Hrun as (nv0 & _ & Hrun).
  apply bind_ok in Hrun as (nv1 & _ & Hrun).
  apply bind_ok in Hrun as (nv2 & _ & Hrun).
  cbv zeta in Hrun.
  destruct (_ =? 0); [discriminate|].
  destruct (_ =? 1).
  { destruct (find_first _ _ _) as [[j vertexID]|]; [|discriminate].
    apply bind_ok in Hrun as (r0 & _ & Hrun).
    apply bind_ok in Hrun as (r1 & _ & Hrun).
    apply bind_ok in Hrun as (r2 & _ & Hrun).
    injection Hrun as <-. exists 2. split; [lia|].
    apply (emit_emitted 3 [[r0; r1; vertexID]; [r0; vertexID; r2]]).
    repeat constructor. }
  destruct (_ =? 2).
  { destruct (find_first _ _ _) as [[j x]|]; [|discriminate].
    apply bind_ok in Hrun as (v0 & _ & Hrun).
    apply bind_ok in Hrun as (v1 & _ & Hrun).
    apply bind_ok in Hrun as (r0 & _ & Hrun).
    apply bind_ok in Hrun as (r1 & _ & Hrun).
    apply bind_ok in Hrun as (r2 & _ & Hrun).
    destruct (diagonal0_args _ _ _) as [a0 b0].
    destruct (diagonal1_args _ _ _) as [a1 b1].
    apply bind_ok in Hrun as (children & Hchildren & Hrun).
    injection Hrun as <-.
    unfold two_split_children in Hchildren.
    apply bind_ok in Hchildren as (? & _ & Hchildren).
    apply bind_ok in Hchildren as (? & _ & Hchildren).
    apply bind_ok in Hchildren as (? & _ & Hchildren).
    apply bind_ok in Hchildren as (? & _ & Hchildren).
    apply bind_ok in Hchildren as (? & _ & Hchildren).
    apply bind_ok in Hchildren as (? & _ & Hchildren).
    apply bind_ok in Hchildren as (? & _ & Hchildren).
    injection Hchildren as <-. exists 3. split; [lia|].
    apply (emit_emitted 3 [[_; _; _]; [_; _; _]; [_; _; _]]).
    repeat constructor. }
  destruct (_ =? 3).
  { injection Hrun as <-. exists 4. split; [lia|].
    apply (emit_emitted 3 [[_; _; _]; [_; _; _]; [_; _; _]; [_; _; _]]).
    repeat constructor. }
  injection Hrun as <-. exists 0. split; [lia|]. now apply emitted_none.
Qed.

Lemma apply_3d_template_emits (n newVertex : list Z) (splitEdges : list Edge)
    (w w' : Worker) :
  0 <= splitCnt w < 2 ^ 64 ->
  apply_3d_template n newVertex splitEdges w = Ok (Some w') ->
  exists count : Z, count <= 8 /\ emitted 4 w w' count.
Proof.
  intros Hcnt. unfold apply_3d_template. intros Hrun.
  assert (Hnone : Ok (Some w) = Ok (Some w') ->
                  exists count : Z, count <= 8 /\ emitted 4 w w' count).
  { intros Heq. injection Heq as <-. exists 0. split; [lia|]. now apply emitted_none. }
  destruct newVertex as [|v0 [|v1 [|v2 [|v3 [|v4 [|v5 [|v6 rest]]]]]]];
    try discriminate; try (destruct splitEdges; exact (Hnone Hrun)).
  - destruct splitEdges as [|s0 rest]; [exact (Hnone Hrun)|].
    destruct (filter _ n) as [|oe0 [|oe1 [|oe2 others]]]; try discriminate.
    injection Hrun as <-. exists 2. split; [lia|].
    apply (emit_emitted 4 [[_; _; _; _]; [_; _; _; _]]). repeat constructor.
  - destruct splitEdges as [|s0 [|s1 rest]]; try exact (Hnone Hrun).
    injection Hrun as <-. exists 4. split; [lia|].
    apply (emit_emitted 4 [[_; _; _; _]; [_; _; _; _]; [_; _; _; _]; [_; _; _; _]]).
    repeat constructor.
  - destruct splitEdges as [|s0 [|s1 [|s2 rest]]]; try exact (Hnone Hrun).
    destruct (if contains s1 (e_second s0) then _ else _) as [[m3 m4] m5].
    injection Hrun as <-. exists 4. split; [lia|].
    apply (emit_emitted 4 [[_; _; _; _]; [_; _; _; _]; [_; _; _; _]; [_; _; _; _]]).
    repeat constructor.
  - apply bind_ok in Hrun as (n0 & _ & Hrun).
    apply bind_ok in Hrun as (n1 & _ & Hrun).
    apply bind_ok in Hrun as (n2 & _ & Hrun).
    apply bind_ok in Hrun as (n3 & _ & Hrun).
    injection Hrun as <-. exists 8. split; [lia|].
    apply (emit_emitted 4 [[_; _; _; _]; [_; _; _; _]; [_; _; _; _]; [_; _; _; _];
                           [_; _; _; _]; [_; _; _; _]; [_; _; _; _]; [_; _; _; _]]).
    repeat constructor.
Qed.

Lemma refine_element_step (m : Mesh) (w : Worker) (l2g : list Z)
    (re : list (list Z)) (n : nat) (st st' : Mesh * Worker) (i : Z) :
  refine_element l2g re st i = Ok st' ->
  refining m w n st -> refining m w (S n) st'.
Proof.
  destruct st as [m1 w1]. unfold refine_element, refining. cbn [fst snd].
  intros Hrun (Hsame & Hhalo & Herased & count & Hcount & Hemitted).
  assert (Hkept : same_vertices m m1 /\ same_halo m m1 /\
                  erased_from (nloc_of (ndims m)) (_ENList m) (_ENList m1) /\
                  exists count' : Z,
                    count' <= 8 * Z.of_nat (S n) /\
                    emitted (nloc_of (ndims m)) w w1 count').
  { repeat (split; [assumption|]). exists count. split; [lia|exact Hemitted]. }
  apply bind_ok in Hrun as (elem & _ & Hrun).
  apply bind_ok in Hrun as (first & _ & Hrun).
  destruct (first <? 0); [now injection Hrun as <-|].
  apply bind_ok in Hrun as ([w2|] & Htemplate & Hrun); [|now injection Hrun as <-].
  apply bind_ok in Hrun as (m2 & Herase & Hrun). injection Hrun as <-. cbn [fst snd].
  assert (Hcnt : 0 <= splitCnt w1 < 2 ^ 64).
  { destruct Hemitted as (_ & _ & -> & _). unfold to_size.
    apply Z.mod_pos_bound. lia. }
  destruct Hsame as (Hd & Hsame).
  assert (Hnew : exists c : Z, c <= 8 /\ emitted (nloc_of (ndims m)) w1 w2 c).
  { unfold nloc_of. rewrite <- Hd. destruct (ndims m1 =? 2).
    - destruct (refine_2d_emits _ _ _ _ _ _ Hcnt Htemplate) as (c & Hc & Hemit).
      exists c. split; [lia|exact Hemit].
    - unfold refine_3d in Htemplate.
      apply bind_ok in Htemplate as ([newVertex splitEdges] & _ & Htemplate).
      exact (apply_3d_template_emits _ _ _ _ _ Hcnt Htemplate). }
  destruct Hnew as (c & Hc & Hemit).
  pose proof Herase as Herase'.
  apply erase_element_vertices in Herase as (Hv & _ & Hh).
  split; [exact (same_vertices_trans _ _ _ (conj Hd Hsame) Hv)|].
  split; [exact (same_halo_trans _ _ _ Hhalo Hh)|].
  split.
  - unfold erase_element in Herase'.
    apply bind_ok in Herase' as (l & Hl & Herase'). injection Herase' as <-.
    apply vset_inv in Hl as [Hrange ->]. cbn [set_ENList _ENList].
    destruct Herased as [Hlen Hslots]. split; [now rewrite length_insert|].
    intros k x Hx.
    destruct (decide (k = Z.to_nat (i * nloc_of (ndims m1)))) as [->|Hk].
    + rewrite list_lookup_insert_eq in Hx by (unfold size in Hrange; lia).
      injection Hx as <-. right. split; [reflexivity|].
      rewrite Z2Nat.id, Hd by lia. apply Z.mod_mul.
      pose proof (nloc_of_pos (ndims m)). lia.
    + rewrite list_lookup_insert_ne in Hx by lia. exact (Hslots k x Hx).
  - exists (count + c). split; [lia|].
    exact (emitted_trans _ _ _ _ _ _ Hemitted Hemit).
Qed.

(** X8. What the element refinement does to the element array of a mesh
    whose array holds [nloc] entries for each of fewer than 2^31 elements:
    the entries of the elements the mesh had are kept, but for first entries
    overwritten with -1 (the erased parents); behind them comes the buffer of
    the worker, which holds [nloc] entries for each of the [splitCnt]
    children; the element count grows by [splitCnt]. The vertex data and the
    halo are not touched. *)
Theorem element_refinement_appends_children (m m' : Mesh) (l2g : list Z) (re : list (list Z))
    (w w' : Worker) :
  0 <= get_number_elements m < 2 ^ 31 ->
  size (_ENList m) = nloc_of (ndims m) * get_number_elements m ->
  newElements w = [] ->
  element_refinement m l2g re (get_number_elements m) w = Ok (m', w') ->
  same_vertices m m' /\ same_halo m m' /\
  (exists parents : list Z,
      _ENList m' = parents ++ newElements w' /\
      erased_from (nloc_of (ndims m)) (_ENList m) parents) /\
  0 <= splitCnt w' /\
  size (newElements w') = nloc_of (ndims m) * splitCnt w' /\
  get_number_elements m' = get_number_elements m + splitCnt w' /\
  newVertices w' = newVertices w /\ newCoords w' = newCoords w /\
  newMetric w' = newMetric w /\ cerr w' = cerr w.
Proof.
  set (NE := get_number_elements m). set (nloc := nloc_of (ndims m)).
  intros HNE Hsize Hnone Hrun. unfold element_refinement in Hrun.
  apply bind_ok in Hrun as ([m1 w1] & Hloop & Hrun).
  apply (foldM_counted (refining m (reset_splitCnt w))) with (n := 0%nat) in Hloop.
  2:{ intros n s x s' Hs. exact (refine_element_step _ _ _ _ _ _ _ _ Hs). }
  2:{ split; [apply same_vertices_refl|]. split; [repeat split|].
      split; [apply erased_from_refl|]. exists 0. split; [lia|].
      apply emitted_none. cbn. lia. }
  rewrite length_seqZ in Hloop. cbn [Nat.add] in Hloop.
  destruct Hloop as (Hsame & Hhalo & Herased & count & Hcount & Hemitted).
  cbn [fst snd] in *.
  destruct Hemitted as (Hcount0 & (added & Hadded & Hlen) & Hcnt & Hvs & Hcs & Hms
                        & _ & Herr).
  cbn [reset_splitCnt newElements splitCnt newVertices newCoords newMetric cerr] in *.
  rewrite Hnone in Hadded. cbn [app] in Hadded. subst added.
  assert (Hsplit : splitCnt w1 = count).
  { rewrite Hcnt. unfold to_size. apply Z.mod_small. lia. }
  rewrite Hsplit in *. clear Hcnt.
  rewrite block_start_count in Hrun by (fold NE; lia).
  pose proof Hsame as (Hd & _). rewrite Hd in Hrun. fold nloc in Hrun, Hlen, Herased.
  pose proof (nloc_of_pos (ndims m)) as Hnloc. fold nloc in Hnloc.
  set (newSize := to_index (to_size (NE + count))) in Hrun.
  apply bind_ok in Hrun as (enlist & Hresize & Hrun).
  apply bind_ok in Hrun as (enlist' & Hcopy & Hrun).
  injection Hrun as <- <-.
  apply vresize_inv in Hresize as [Hnonneg ->].
  pose proof Hcopy as Hfit. apply memcpy_inv in Hfit as (_ & _ & Hfit).
  unfold size in Hfit at 1. rewrite length_resize in Hfit.
  pose proof (to_size_le (NE + count) ltac:(lia)) as Hs.
  pose proof (to_index_le (to_size (NE + count)) ltac:(lia)) as Hi.
  fold newSize in Hi.
  assert (Hexact : newSize = NE + count) by nia.
  rewrite Hexact in Hcopy.
  destruct Herased as [Hlen1 Hslots].
  assert (Hcopied : enlist' = _ENList m1 ++ newElements w1).
  { unfold memcpy in Hcopy. destruct (_ && _); [|discriminate].
    injection Hcopy as <-.
    rewrite take_resize_le by nia.
    rewrite resize_all_alt by (unfold size in Hsize; lia).
    f_equal. rewrite (take_ge (newElements w1)) by (unfold size in Hlen; lia).
    rewrite drop_ge; [apply app_nil_r|]. rewrite length_resize. nia. }
  subst enlist'.
  cbn [set_ENList _ENList newElements splitCnt newVertices newCoords newMetric cerr].
  split.
  { destruct Hsame as (? & ? & ? & ? & ?). repeat split; assumption. }
  split.
  { destruct Hhalo as (? & ? & ? & ?). repeat split; assumption. }
  split; [exists (_ENList m1); split; [reflexivity|split; assumption]|].
  split; [lia|]. split; [exact Hlen|]. split; [|repeat split; assumption].
  unfold get_number_elements at 1. cbn [_ENList ndims set_ENList]. rewrite Hd.
  fold nloc. unfold size in *. rewrite length_app.
  replace (Z.of_nat (length (_ENList m1) + length (newElements w1)))
    with ((NE + count) * nloc) by lia.
  now rewrite Z.div_mul by lia.
Qed.

End Elements.

Lemma element_refinement_appends_children_witness :
  exists (m' : Mesh) (w' : Worker),
    @element_refinement Example.serial Example.isosceles_with_new_vertices [0; 1; 2]
      Example.isosceles_refined_edges
      (get_number_elements Example.isosceles_with_new_vertices) empty_worker
    = Ok (m', w') /\
    same_vertices Example.isosceles_with_new_vertices m' /\
    same_halo Example.isosceles_with_new_vertices m' /\
    (exists parents : list Z,
        _ENList m' = parents ++ newElements w' /\
        erased_from (nloc_of (ndims Example.isosceles_with_new_vertices))
                    (_ENList Example.isosceles_with_new_vertices) parents) /\
    0 <= splitCnt w' /\
    size (newElements w')
    = nloc_of (ndims Example.isosceles_with_new_vertices) * splitCnt w' /\
    get_number_elements m'
    = get_number_elements Example.isosceles_with_new_vertices + splitCnt w' /\
    newVertices w' = newVertices empty_worker /\
    newCoords w' = newCoords empty_worker /\
    newMetric w' = newMetric empty_worker /\ cerr w' = cerr empty_worker.
Proof.
  eexists _, _. split; [vm_compute; reflexivity|].
  apply (@element_refinement_appends_children Example.serial
           Example.isosceles_with_new_vertices _ [0; 1; 2]
           Example.isosceles_refined_edges empty_worker).
  - vm_compute. split; [discriminate|reflexivity].
  - reflexivity.
  - reflexivity.
  - vm_compute. reflexivity.
Defined.

(** *** The halo *)

Lemma set_insert_elem (x y : Z) (s : list Z) :
  y ∈ set_insert x s <-> y = x \/ y ∈ s.
Proof.
  induction s as [|z s IH]; cbn [set_insert].
  - rewrite list_elem_of_singleton, elem_of_nil. tauto.
  - destruct (Z.ltb_spec x z); [rewrite !elem_of_cons; tauto|].
    destruct (Z.ltb_spec z x).
    + rewrite !elem_of_cons, IH. tauto.
    + assert (x = z) by lia. subst. rewrite !elem_of_cons. tauto.
Qed.

Lemma de_insert_Forall (P : DirectedEdge -> Prop) (x : DirectedEdge)
    (s : list DirectedEdge) :
  P x -> Forall P s -> Forall P (de_insert x s).
Proof.
  intros Hx. induction 1 as [|y s Hy Hs IH]; cbn [de_insert].
  - now repeat constructor.
  - destruct (de_ltb x y); [now repeat constructor|].
    destruct (de_ltb y x); now repeat constructor.
Qed.

Lemma add_to_Forall (P : DirectedEdge -> Prop) (sets sets' : list (list DirectedEdge))
    (p : Z) (v : DirectedEdge) :
  add_to sets p v = Ok sets' -> P v -> Forall (Forall P) sets -> Forall (Forall P) sets'.
Proof.
  unfold add_to. intros Hrun Hv Hsets.
  apply bind_ok in Hrun as (s & Hs & Hrun).
  apply vget_inv in Hs as [_ Hs]. apply vset_inv in Hrun as [_ ->].
  apply Forall_insert; [exact Hsets|].
  apply de_insert_Forall; [exact Hv|].
  exact (Forall_lookup_1 _ _ _ _ Hsets Hs).
Qed.

Lemma assign_owners_lut (g2l : gmap Z Z) (vertices : list DirectedEdge) :
  forall (lut lut' : gmap Z DirectedEdge) (owner owner' : list Z),
    foldM (assign_owner g2l) (lut, owner) vertices = Ok (lut', owner') ->
    map_Forall (fun id v => de_id v = Some id) lut ->
    map_Forall (fun id v => de_id v = Some id) lut'.
Proof.
  induction vertices as [|vert rest IH]; intros lut lut' owner owner' Hrun Hlut.
  - now injection Hrun as <- _.
  - cbn [foldM] in Hrun. apply bind_ok in Hrun as ([lut1 owner1] & Hone & Hrun).
    apply (IH _ _ _ _ Hrun).
    unfold assign_owner in Hone.
    destruct (de_id vert) as [id|] eqn:Hid; [|discriminate].
    destruct (lut !! id); [discriminate|].
    apply bind_ok in Hone as (o0 & _ & Hone).
    apply bind_ok in Hone as (o1 & _ & Hone).
    apply bind_ok in Hone as (owner2 & _ & Hone).
    injection Hone as <- _. now apply map_Forall_insert_2.
Qed.

Section Halo.
Variables (rank origNNodes : Z) (node_owner : list Z) (lut : gmap Z DirectedEdge).
Hypothesis lut_ids : map_Forall (fun id v => de_id v = Some id) lut.

(** Every entry of the two additional sets is a new vertex with its id. *)
Let ok (additional : list (list DirectedEdge) * list (list DirectedEdge)) : Prop :=
  Forall (Forall (identified origNNodes)) (fst additional) /\
  Forall (Forall (identified origNNodes)) (snd additional).

Lemma halo_vertex_ids (processes : list Z)
    (st st' : list (list DirectedEdge) * list (list DirectedEdge)) (nj : Z) :
  halo_vertex rank origNNodes node_owner lut processes st nj = Ok st' ->
  ok st -> ok st'.
Proof.
  destruct st as [sa ra]. unfold halo_vertex, ok. cbn [fst snd].
  intros Hrun [Hsa Hra].
  destruct (Z.ltb_spec nj origNNodes) as [|Hnew]; [now injection Hrun as <-|].
  apply bind_ok in Hrun as (owner & _ & Hrun).
  apply bind_ok in Hrun as (v & Hv & Hrun).
  assert (Hid : identified origNNodes v).
  { unfold lut_get in Hv. destruct (lut !! nj) as [v'|] eqn:Hlut; [|discriminate].
    injection Hv as ->. exists nj. split; [|lia].
    exact (map_Forall_lookup_1 _ _ _ _ lut_ids Hlut). }
  destruct (owner =? rank).
  - apply bind_ok in Hrun as (sends & Hsends & Hrun). injection Hrun as <-.
    cbn [fst snd]. split; [|exact Hra].
    apply (foldM_preserves (Forall (Forall (identified origNNodes)))) in Hsends;
      [exact Hsends| |exact Hsa].
    intros s ip s' Hs Hall. destruct (ip =? rank); [now injection Hs as <-|].
    exact (add_to_Forall _ _ _ _ _ Hs Hid Hall).
  - apply bind_ok in Hrun as (recvs & Hrecvs & Hrun). injection Hrun as <-.
    cbn [fst snd]. split; [exact Hsa|].
    exact (add_to_Forall _ _ _ _ _ Hrecvs Hid Hra).
Qed.

Lemma halo_element_ids
    (st st' : Mesh * (list (list DirectedEdge) * list (list DirectedEdge))) (i : Z) :
  halo_element rank origNNodes node_owner lut st i = Ok st' ->
  same_halo (fst st) (fst st') /\ (ok (snd st) -> ok (snd st')).
Proof.
  destruct st as [m additional]. unfold halo_element. cbn [fst snd]. intros Hst.
  assert (Hrefl : same_halo m m) by (repeat split).
  apply bind_ok in Hst as (n & _ & Hst).
  apply bind_ok in Hst as (first & _ & Hst).
  destruct (first <? 0); [now injection Hst as <-|].
  apply bind_ok in Hst as (owners & _ & Hst).
  destruct (existsb _ _); [discriminate|].
  destruct (negb _).
  - apply bind_ok in Hst as (m' & Hm' & Hst). injection Hst as <-. cbn [fst snd].
    apply erase_element_vertices in Hm' as (_ & _ & Hh). split; [exact Hh|auto].
  - destruct (_ =? 1); [now injection Hst as <-|].
    apply bind_ok in Hst as (a' & Hloop & Hst). injection Hst as <-. cbn [fst snd].
    split; [exact Hrefl|]. intros Hok.
    apply (foldM_preserves ok) in Hloop; [exact Hloop| |exact Hok].
    intros s x s' Hs. exact (halo_vertex_ids _ _ _ _ Hs).
Qed.

End Halo.

Lemma appended_refl (from : Z) (halo : list Z) (lists : list (list Z)) :
  appended from halo lists lists.
Proof.
  split; [reflexivity|]. intros p l Hl. exists []. now rewrite app_nil_r.
Qed.

Lemma extend_halo_appends (from nprocs : Z) (additional : list (list DirectedEdge))
    (lists lists' : list (list Z)) (halo halo' : list Z) :
  Forall (Forall (identified from)) additional ->
  extend_halo nprocs additional lists halo = Ok (lists', halo') ->
  appended from halo' lists lists' /\ (forall x, x ∈ halo -> x ∈ halo').
Proof.
  intros Hids. unfold extend_halo. intros Hrun.
  set (P := fun st : list (list Z) * list Z =>
              length (fst st) = length lists /\
              (forall x, x ∈ halo -> x ∈ snd st) /\
              forall (p : nat) (l : list Z),
                lists !! p = Some l ->
                exists ids : list Z,
                  fst st !! p = Some (l ++ ids) /\
                  Forall (fun id => from <= id /\ id ∈ snd st) ids).
  assert (Hfinal : P (lists', halo')).
  { apply (foldM_preserves P) in Hrun; [exact Hrun| |].
    - intros [ls h] i [ls' h'] Hstep HP.
      apply bind_ok in Hstep as (entries & Hentries & Hstep).
      apply vget_inv in Hentries as [_ Hentries].
      pose proof (Forall_lookup_1 _ _ _ _ Hids Hentries) as Hentry.
      clear Hentries. revert ls h HP Hstep.
      induction Hentry as [|it entries Hit _ IH]; intros ls h HP Hstep.
      + now injection Hstep as <- <-.
      + cbn [foldM] in Hstep. apply bind_ok in Hstep as ([ls1 h1] & Hone & Hstep).
        apply (IH ls1 h1); [|exact Hstep]. clear IH Hstep.
        apply bind_ok in Hone as (id & Hid & Hone).
        apply bind_ok in Hone as (l & Hl & Hone).
        apply bind_ok in Hone as (ls2 & Hls2 & Hone). injection Hone as <- <-.
        apply vget_inv in Hl as [Hi Hl]. apply vset_inv in Hls2 as [Hrange ->].
        destruct Hit as (id' & Hid' & Hfrom).
        unfold id_of in Hid. rewrite Hid' in Hid. injection Hid as <-.
        unfold P in HP |- *. destruct HP as (Hlen & Hsub & Hext). cbn [fst snd] in *.
        split; [now rewrite length_insert|]. split.
        * intros x Hx. apply set_insert_elem. right. auto.
        * intros p l0 Hl0. destruct (Hext p l0 Hl0) as (ids & Hp & Hall).
          assert (Hall' : Forall (fun id => from <= id /\ id ∈ set_insert id' h) ids).
          { eapply Forall_impl; [exact Hall|]. intros x [? ?]. split; [assumption|].
            apply set_insert_elem. now right. }
          destruct (decide (p = Z.to_nat i)) as [->|Hp'].
          -- rewrite Hp in Hl. injection Hl as <-.
             exists (ids ++ [id']).
             rewrite list_lookup_insert_eq by (unfold size in Hrange; lia).
             split; [now rewrite app_assoc|].
             apply Forall_app. split; [exact Hall'|].
             constructor; [|constructor]. split; [exact Hfrom|].
             apply set_insert_elem. now left.
          -- exists ids. rewrite list_lookup_insert_ne by lia. now split.
    - unfold P. cbn [fst snd]. split; [reflexivity|]. split; [auto|].
      intros p l Hl. exists []. now rewrite app_nil_r. }
  destruct Hfinal as (Hlen & Hsub & Hext). split; [split; assumption|exact Hsub].
Qed.

Lemma amend_halo_appends (rank nprocs : Z) (g2l : gmap Z Z) (m m' : Mesh)
    (owner owner' : list Z) (w : Worker) (origNNodes origNElements NElements : Z) :
  amend_halo rank nprocs g2l m owner w origNNodes origNElements NElements
  = Ok (m', owner') ->
  appended origNNodes (send_halo m') (send m) (send m') /\
  appended origNNodes (recv_halo m') (recv m) (recv m') /\
  (forall x, x ∈ send_halo m -> x ∈ send_halo m') /\
  (forall x, x ∈ recv_halo m -> x ∈ recv_halo m').
Proof.
  unfold amend_halo. intros Hm.
  apply bind_ok in Hm as ([lut owner1] & Hassign & Hm).
  apply bind_ok in Hm as ([m1 [sa ra]] & Hloop & Hm).
  apply bind_ok in Hm as ([sends send_set] & Hsends & Hm).
  apply bind_ok in Hm as ([recvs recv_set] & Hrecvs & Hm).
  injection Hm as <- <-. cbn [set_halo send recv send_halo recv_halo].
  apply assign_owners_lut in Hassign; [|apply map_Forall_empty].
  assert (Hinv : same_halo m m1 /\
                 Forall (Forall (identified origNNodes)) sa /\
                 Forall (Forall (identified origNNodes)) ra).
  { apply (foldM_preserves
             (fun st => same_halo m (fst st) /\
                        Forall (Forall (identified origNNodes)) (fst (snd st)) /\
                        Forall (Forall (identified origNNodes)) (snd (snd st))))
      in Hloop; [exact Hloop| |].
    - intros s x s' Hs (Hh & Hok).
      destruct (halo_element_ids _ _ _ _ Hassign _ _ _ Hs) as [Hh' Hok'].
      split; [exact (same_halo_trans _ _ _ Hh Hh')|exact (Hok' Hok)].
    - cbn [fst snd]. split; [repeat split|].
      split; apply Forall_replicate; constructor. }
  destruct Hinv as ((Hr & Hs & Hrh & Hsh) & Hsa & Hra).
  rewrite Hs, Hsh in Hsends. rewrite Hr, Hrh in Hrecvs.
  destruct (extend_halo_appends _ _ _ _ _ _ _ Hsa Hsends) as [Ha1 Hb1].
  destruct (extend_halo_appends _ _ _ _ _ _ _ Hra Hrecvs) as [Ha2 Hb2].
  split; [exact Ha1|]. split; [exact Ha2|]. split; [exact Hb1|exact Hb2].
Qed.

(** X9. [refine] only appends to the halo: in the mesh that is handed to
    [create_adjancy] every send list and every receive list is the list the
    mesh had, followed by ids of new vertices, each of which is also in the
    send (receive) set; the two sets keep all their members; in a run on one
    partition the lists and the sets are unchanged. *)
Theorem refine_only_appends_to_halo `{Collaborators} (fuel : nat) (r : Refine)
    (m : Mesh) (surface : Surface) (L_max : float) (o : Refined) :
  refine fuel r m surface L_max = Ok o ->
  exists m' : Mesh,
    out_mesh o = create_adjancy m' /\
    appended (get_number_nodes m) (send_halo m') (send m) (send m') /\
    appended (get_number_nodes m) (recv_halo m') (recv m) (recv m') /\
    (forall x, x ∈ send_halo m -> x ∈ send_halo m') /\
    (forall x, x ∈ recv_halo m -> x ∈ recv_halo m') /\
    (nprocs r <= 1 ->
     send m' = send m /\ recv m' = recv m /\
     send_halo m' = send_halo m /\ recv_halo m' = recv_halo m).
Proof.
  intros Hrun. apply refine_inv in Hrun. cbn zeta in Hrun.
  destruct Hrun as (owner & st & re & w & m1 & owner1 & re1 & w1 & m2 & w2 & m3
                    & owner3 & _ & _ & _ & Hinsert & Helems & _ & Hhalo & ->).
  cbn [out_mesh]. exists m3. split; [reflexivity|].
  apply insert_vertices_halo in Hinsert.
  apply element_refinement_keeps in Helems as [_ Helems].
  destruct (same_halo_trans _ _ _ Hinsert Helems) as (Hr & Hs & Hrh & Hsh).
  rewrite <- Hr, <- Hs, <- Hrh, <- Hsh.
  unfold halo_phase in Hhalo. destruct (Z.gtb_spec (nprocs r) 1) as [Hmulti|Hserial].
  - apply amend_halo_appends in Hhalo as (Ha & Hb & Hc & Hd).
    repeat (split; [assumption|]). lia.
  - injection Hhalo as <- _.
    split; [apply appended_refl|]. split; [apply appended_refl|].
    split; [auto|]. split; [auto|]. intros _. repeat split.
Qed.

Lemma refine_only_appends_to_halo_witness :
  exists o : @Refined Example.second_rank_with_ghost,
    @refine Example.second_rank_with_ghost 1 Example.driver_of_second_rank
            Example.skew_triangle_with_ghost tt 0.75%float = Ok o /\
    exists m' : Mesh,
      out_mesh o = @create_adjancy Example.second_rank_with_ghost m' /\
      appended (get_number_nodes Example.skew_triangle_with_ghost) (send_halo m')
               (send Example.skew_triangle_with_ghost) (send m') /\
      appended (get_number_nodes Example.skew_triangle_with_ghost) (recv_halo m')
               (recv Example.skew_triangle_with_ghost) (recv m') /\
      (forall x, x ∈ send_halo Example.skew_triangle_with_ghost -> x ∈ send_halo m') /\
      (forall x, x ∈ recv_halo Example.skew_triangle_with_ghost -> x ∈ recv_halo m') /\
      (nprocs Example.driver_of_second_rank <= 1 ->
       send m' = send Example.skew_triangle_with_ghost /\
       recv m' = recv Example.skew_triangle_with_ghost /\
       send_halo m' = send_halo Example.skew_triangle_with_ghost /\
       recv_halo m' = recv_halo Example.skew_triangle_with_ghost).
Proof.
  eexists. split; [vm_compute; reflexivity|].
  apply (@refine_only_appends_to_halo Example.second_rank_with_ghost 1
           Example.driver_of_second_rank Example.skew_triangle_with_ghost tt
           0.75%float).
  vm_compute. reflexivity.
Defined.

(** *** The conforming propagation keeps what is staged *)

Lemma foldM_preserves_in {A T : Type} (P : T -> Prop) (f : T -> A -> result T)
    (l : list A) :
  (forall s x s', x ∈ l -> f s x = Ok s' -> P s -> P s') ->
  forall s s', foldM f s l = Ok s' -> P s -> P s'.
Proof.
  induction l as [|x l IH]; intros Hstep s s' Hrun Hs.
  - now injection Hrun as <-.
  - cbn [foldM] in Hrun. apply bind_ok in Hrun as (s1 & Hs1 & Hrun).
    apply (IH (fun s0 y s0' Hy => Hstep s0 y s0' (list_elem_of_further _ _ _ Hy))
              s1 s' Hrun).
    exact (Hstep s x s1 (list_elem_of_here _ _) Hs1 Hs).
Qed.

Lemma proper_element_inv `{Collaborators} (l2g n : list Z) :
  proper_element l2g n ->
  NoDup n /\ forall a b : Z, a ∈ n -> b ∈ n -> gnn l2g a = gnn l2g b -> a = b.
Proof.
  unfold proper_element. intros Hdup. split; [exact (NoDup_fmap_1 _ _ Hdup)|].
  intros a b Ha Hb Heq.
  apply list_elem_of_lookup in Ha as [i Hi]. apply list_elem_of_lookup in Hb as [j Hj].
  assert (Hij : i = j).
  { apply (NoDup_lookup _ i j (gnn l2g a) Hdup).
    - change (map (gnn l2g) n) with (gnn l2g <$> n). now rewrite list_lookup_fmap, Hi.
    - change (map (gnn l2g) n) with (gnn l2g <$> n).
      now rewrite list_lookup_fmap, Hj, Heq. }
  subst j. congruence.
Qed.

Lemma grown_refl (w : Worker) : grown w w.
Proof. now repeat split. Qed.

Lemma grown_trans (w w' w'' : Worker) : grown w w' -> grown w' w'' -> grown w w''.
Proof.
  intros (Hv & Hc & Hm) (Hv' & Hc' & Hm').
  repeat split; etransitivity; eassumption.
Qed.

Lemma marks_only_refl (re : list (list Z)) : marks_only re re.
Proof.
  split; [reflexivity|]. intros i row Hrow. exists row.
  split; [exact Hrow|]. split; [reflexivity|]. intros j x Hx. now left.
Qed.

Lemma marks_only_trans (re re' re'' : list (list Z)) :
  marks_only re re' -> marks_only re' re'' -> marks_only re re''.
Proof.
  intros [Hlen Hrows] [Hlen' Hrows']. split; [congruence|].
  intros i row Hrow.
  destruct (Hrows i row Hrow) as (row' & Hrow' & Hl & Hslots).
  destruct (Hrows' i row' Hrow') as (row'' & Hrow'' & Hl' & Hslots').
  exists row''. split; [exact Hrow''|]. split; [congruence|].
  intros j x Hx. destruct (Hslots j x Hx) as [Hkept|[Hneg Hmarked]].
  - exact (Hslots' j x Hkept).
  - right. split; [exact Hneg|].
    destruct (Hslots' j _ Hmarked) as [Hkept|[Hneg' _]]; [exact Hkept|].
    unfold index_max in Hneg'. lia.
Qed.

Lemma marks_only_staged_kept (re re' : list (list Z)) :
  marks_only re re' -> staged_kept re re'.
Proof.
  intros [Hlen Hrows]. split; [exact Hlen|]. intros i row Hrow.
  destruct (Hrows i row Hrow) as (row' & Hrow' & Hl & Hslots).
  exists row'. split; [exact Hrow'|]. split; [exact Hl|].
  intros t x Hx Hpos _. destruct (Hslots _ x Hx) as [Hkept|[Hneg _]]; [exact Hkept|lia].
Qed.

Lemma staged_kept_refl (re : list (list Z)) : staged_kept re re.
Proof. apply marks_only_staged_kept, marks_only_refl. Qed.

Lemma staged_kept_trans (re re' re'' : list (list Z)) :
  staged_kept re re' -> staged_kept re' re'' -> staged_kept re re''.
Proof.
  intros [Hlen Hrows] [Hlen' Hrows']. split; [congruence|].
  intros i row Hrow.
  destruct (Hrows i row Hrow) as (row' & Hrow' & Hl & Hslots).
  destruct (Hrows' i row' Hrow') as (row'' & Hrow'' & Hl' & Hslots').
  exists row''. split; [exact Hrow''|]. split; [congruence|].
  intros t x Hx Hpos Hmax. apply Hslots'; auto.
Qed.

(** The edges of an element. *)

Lemma element_edges_spec (n : list Z) (a b : Z) :
  (a, b) ∈ element_edges n <->
  exists i j : nat, (i < j)%nat /\ n !! i = Some a /\ n !! j = Some b.
Proof.
  induction n as [|x rest IH]; cbn [element_edges].
  - split; [intros Hin; now apply elem_of_nil in Hin|].
    intros (i & j & _ & Hi & _). discriminate.
  - rewrite elem_of_app, list_elem_of_fmap, IH. split.
    + intros [(y & Heq & Hy)|(i & j & Hij & Hi & Hj)].
      * injection Heq as -> ->. apply list_elem_of_lookup in Hy as [j Hj].
        exists 0%nat, (S j). split; [lia|]. split; [reflexivity|exact Hj].
      * exists (S i), (S j). split; [lia|]. now split.
    + intros (i & j & Hij & Hi & Hj). destruct j as [|j]; [lia|]. cbn in Hj.
      destruct i as [|i].
      * injection Hi as ->. left. exists b. split; [reflexivity|].
        now apply list_elem_of_lookup_2 in Hj.
      * right. exists i, j. split; [lia|]. now split.
Qed.

Lemma element_edges_distinct (n : list Z) (a b : Z) :
  NoDup n -> (a, b) ∈ element_edges n -> a <> b /\ (b, a) ∉ element_edges n.
Proof.
  intros Hn Hab. apply element_edges_spec in Hab as (i & j & Hij & Hi & Hj).
  split.
  - intros ->. pose proof (NoDup_lookup _ _ _ _ Hn Hi Hj). lia.
  - intros Hba. apply element_edges_spec in Hba as (i' & j' & Hij' & Hi' & Hj').
    pose proof (NoDup_lookup _ _ _ _ Hn Hi Hj').
    pose proof (NoDup_lookup _ _ _ _ Hn Hj Hi'). lia.
Qed.

Lemma element_edges_cover (n : list Z) (a b : Z) :
  a ∈ n -> b ∈ n -> a <> b ->
  (a, b) ∈ element_edges n \/ (b, a) ∈ element_edges n.
Proof.
  intros Ha Hb Hab.
  apply list_elem_of_lookup in Ha as [i Hi]. apply list_elem_of_lookup in Hb as [j Hj].
  destruct (Nat.lt_trichotomy i j) as [Hlt|[->|Hgt]].
  - left. apply element_edges_spec. now exists i, j.
  - congruence.
  - right. apply element_edges_spec. now exists j, i.
Qed.

Lemma element_edges_NoDup (n : list Z) : NoDup n -> NoDup (element_edges n).
Proof.
  induction 1 as [|x rest Hx Hrest IH]; cbn [element_edges]; [constructor|].
  apply NoDup_app. split; [|split; [|exact IH]].
  - apply NoDup_fmap_2; [|exact Hrest]. intros y z Heq. now injection Heq.
  - intros [a b] Hin Hin'. apply list_elem_of_fmap in Hin as (y & Heq & _).
    injection Heq as -> ->. apply element_edges_in in Hin' as [Hin' _]. contradiction.
Qed.

(** Edges as pairs. *)

Lemma Edge_of_eq (a b a' b' : Z) :
  Edge_of a b = Edge_of a' b' <-> (a = a' /\ b = b') \/ (a = b' /\ b = a').
Proof.
  unfold Edge_of. split.
  - intros Heq. injection Heq as Hmin Hmax. lia.
  - intros [[-> ->]|[-> ->]]; [reflexivity|]. f_equal; lia.
Qed.

Lemma Edge_eqb_eq (s s' : Edge) : Edge_eqb s s' = true <-> s = s'.
Proof.
  destruct s as [a b], s' as [a' b']. unfold Edge_eqb. cbn.
  rewrite andb_true_iff, !Z.eqb_eq. split; [intros [-> ->]; reflexivity|].
  intros Heq. now injection Heq.
Qed.

(** The vertex that two edges with distinct ends share, and their other
    ends. *)
Lemma connected_ends (a0 b0 a1 b1 : Z) :
  a0 <> b0 -> a1 <> b1 ->
  0 <= connected (Edge_of a0 b0) (Edge_of a1 b1) ->
  exists n0 : Z,
    connected (Edge_of a0 b0) (Edge_of a1 b1) = n0 /\
    (n0 = a0 \/ n0 = b0) /\ (n0 = a1 \/ n0 = b1) /\
    other_end (Edge_of a0 b0) n0 = a0 + b0 - n0 /\
    other_end (Edge_of a1 b1) n0 = a1 + b1 - n0.
Proof.
  intros H0 H1 Hpos. eexists. split; [reflexivity|]. revert Hpos.
  unfold connected, other_end, Edge_of.
  cbn [e_first e_second].
  destruct (Z.min_spec a0 b0) as [[? ->]|[? ->]],
           (Z.max_spec a0 b0) as [[? ->]|[? ->]],
           (Z.min_spec a1 b1) as [[? ->]|[? ->]],
           (Z.max_spec a1 b1) as [[? ->]|[? ->]]; try lia;
  repeat match goal with
         | |- context [?x =? ?y] => destruct (Z.eqb_spec x y)
         end; cbn [orb] in *; intros; lia.
Qed.

Section Marks.
Context `{Collaborators}.
Variables (m : Mesh) (l2g : list Z).

Lemma find_neighbour_scan (nn : list Z) (n1 : Z) :
  forall pos p : Z,
    scan_neighbours nn n1 pos = Ok p -> find_neighbour nn n1 pos = Some p.
Proof.
  induction nn as [|x nn IH]; intros pos p Hp; [discriminate|].
  cbn [scan_neighbours find_neighbour] in *. destruct (x =? n1).
  - now injection Hp as <-.
  - now apply IH.
Qed.

(** The slot that [mark_edge] writes is the one that [get_new_vertex] reads
    for the same edge. *)
Lemma mark_edge_slot (a b : Z) (re re' : list (list Z)) :
  mark_edge m l2g a b re = Ok re' ->
  exists (lo pos : nat) (row : list Z),
    re !! lo = Some row /\ (2 * pos < length row)%nat /\
    re' = <[lo := <[(2 * pos)%nat := index_max]> row]> re /\
    forall (re0 : list (list Z)) (v : Z),
      get_new_vertex m l2g a b re0 = Ok v ->
      exists row0 : list Z, re0 !! lo = Some row0 /\ row0 !! (2 * pos)%nat = Some v.
Proof.
  unfold mark_edge, get_new_vertex.
  destruct (lesser_first l2g a b) as [n0 n1]. intros Hrun.
  apply bind_ok in Hrun as (nn & Hnn & Hrun).
  apply bind_ok in Hrun as (pos & Hpos & Hrun).
  pose proof (scan_neighbours_nonneg _ _ _ _ Hpos) as Hpos0.
  apply find_neighbour_scan in Hpos.
  apply set_slot_inv in Hrun as (row & Hn0 & Hrow & Hk & ->).
  exists (Z.to_nat n0), (Z.to_nat pos), row.
  replace (2 * Z.to_nat pos)%nat with (Z.to_nat (2 * pos)) by lia.
  split; [exact Hrow|]. split; [unfold size in Hk; lia|]. split; [reflexivity|].
  intros re0 v Hv. rewrite Hnn in Hv. cbn [bind] in Hv. rewrite Hpos in Hv.
  unfold get_slot in Hv. apply bind_ok in Hv as (row0 & Hrow0 & Hv).
  apply vget_inv in Hrow0 as [_ Hrow0]. apply vget_inv in Hv as [_ Hv].
  now exists row0.
Qed.

Lemma mark_edge_marks (a b v : Z) (re0 re re' : list (list Z)) :
  marks_only re0 re ->
  get_new_vertex m l2g a b re0 = Ok v -> v < 0 ->
  mark_edge m l2g a b re = Ok re' ->
  marks_only re0 re'.
Proof.
  intros [Hlen Hrows] Hv Hneg Hmark.
  apply mark_edge_slot in Hmark as (lo & pos & row & Hrow & Hfit & -> & Hread).
  destruct (Hread _ _ Hv) as (row0 & Hrow0 & Hslot).
  split; [now rewrite length_insert|]. intros i r Hr.
  destruct (Hrows i r Hr) as (r' & Hr' & Hl & Hslots).
  destruct (decide (i = lo)) as [->|Hother].
  - rewrite Hrow in Hr'. injection Hr' as <-.
    rewrite Hrow0 in Hr. injection Hr as <-.
    exists (<[(2 * pos)%nat := index_max]> row).
    split; [apply list_lookup_insert_eq; now apply lookup_lt_Some in Hrow|].
    split; [now rewrite length_insert|]. intros j x Hx.
    destruct (decide (j = (2 * pos)%nat)) as [->|Hj].
    + rewrite Hslot in Hx. injection Hx as <-. right. split; [exact Hneg|].
      now apply list_lookup_insert_eq.
    + rewrite list_lookup_insert_ne by lia. exact (Hslots j x Hx).
  - exists r'. rewrite list_lookup_insert_ne by lia. now split.
Qed.

Lemma get_new_vertex_sym (a b : Z) (re : list (list Z)) :
  gnn l2g a <> gnn l2g b ->
  get_new_vertex m l2g a b re = get_new_vertex m l2g b a re.
Proof.
  intros Hne. unfold get_new_vertex, lesser_first.
  destruct (Z.gtb_spec (gnn l2g a) (gnn l2g b)), (Z.gtb_spec (gnn l2g b) (gnn l2g a));
    try reflexivity; lia.
Qed.

(** The value of [get_new_vertex] for a pair of vertices, -1 when it has
    none. *)
Let nv (re0 : list (list Z)) (p : Z * Z) : Z :=
  match get_new_vertex m l2g (fst p) (snd p) re0 with
  | Ok v => v
  | Fail _ => -1
  end.

Lemma split_set_inv (re0 : list (list Z)) (n : list Z) (splits : list Edge) :
  split_set m l2g re0 n = Ok splits ->
  (forall a b : Z, (a, b) ∈ element_edges n ->
     get_new_vertex m l2g a b re0 = Ok (nv re0 (a, b))) /\
  splits = map (fun p => Edge_of (fst p) (snd p))
               (filter (fun p => 0 <= nv re0 p) (element_edges n)).
Proof.
  unfold split_set.
  assert (Hgen : forall (l : list (Z * Z)) (acc r : list Edge),
             foldM (fun acc '(a, b) =>
                      do v <- get_new_vertex m l2g a b re0;
                      Ok (if v >=? 0 then acc ++ [Edge_of a b] else acc)) acc l = Ok r ->
             (forall a b : Z, (a, b) ∈ l ->
                get_new_vertex m l2g a b re0 = Ok (nv re0 (a, b))) /\
             r = acc ++ map (fun p => Edge_of (fst p) (snd p))
                            (filter (fun p => 0 <= nv re0 p) l)).
  { induction l as [|[a b] l IH]; intros acc r Hrun.
    - injection Hrun as <-. split; [|now rewrite app_nil_r].
      intros a b Hin. now apply elem_of_nil in Hin.
    - cbn [foldM] in Hrun. apply bind_ok in Hrun as (acc1 & Hone & Hrun).
      apply bind_ok in Hone as (v & Hv & Hone). injection Hone as <-.
      destruct (IH _ _ Hrun) as [Hall ->].
      assert (Hnv : nv re0 (a, b) = v) by (unfold nv; cbn [fst snd]; now rewrite Hv).
      split.
      + intros a' b' Hin. apply elem_of_cons in Hin as [Heq|Hin]; [|now apply Hall].
        injection Heq as -> ->. now rewrite Hnv.
      + rewrite filter_cons. destruct (decide (0 <= nv re0 (a, b))) as [Hok|Hno].
        * destruct (Z.geb_spec v 0); [|lia]. cbn [map fst snd].
          now rewrite <- app_assoc.
        * destruct (Z.geb_spec v 0); [lia|]. reflexivity. }
  intros Hrun. destruct (Hgen _ _ _ Hrun) as [Hall ->]. now split.
Qed.

(** Two split edges that share a vertex: the edge between their other ends
    is an edge of the element that has no new vertex. *)
Lemma third_edge_unsplit (re0 : list (list Z)) (n : list Z) (s0 s1 : Edge) :
  proper_element l2g n ->
  split_set m l2g re0 n = Ok [s0; s1] ->
  0 <= connected s0 s1 ->
  exists v : Z,
    get_new_vertex m l2g (other_end s0 (connected s0 s1))
                   (other_end s1 (connected s0 s1)) re0 = Ok v /\ v < 0.
Proof.
  intros Hproper Hsplit Hshared.
  destruct (proper_element_inv l2g n Hproper) as [Hdup Hinj].
  apply split_set_inv in Hsplit as [Hall Hsplits].
  pose proof (element_edges_NoDup n Hdup) as Hpairs.
  pose proof (NoDup_filter (fun p => 0 <= nv re0 p) _ Hpairs) as Hsel.
  assert (Hin : forall p, p ∈ filter (fun p => 0 <= nv re0 p) (element_edges n) <->
                          0 <= nv re0 p /\ p ∈ element_edges n)
    by (intros p; apply (list_elem_of_filter (fun p => 0 <= nv re0 p))).
  destruct (filter (fun p => 0 <= nv re0 p) (element_edges n))
    as [|[a0 b0] [|[a1 b1] [|p2 sel]]]; try discriminate.
  cbn [map fst snd] in Hsplits. injection Hsplits as -> ->.
  assert (H0 : (a0, b0) ∈ element_edges n)
    by (apply Hin; apply elem_of_cons; now left).
  assert (H1 : (a1, b1) ∈ element_edges n)
    by (apply Hin; apply elem_of_cons; right; apply elem_of_cons; now left).
  assert (Hne : (a0, b0) <> (a1, b1)).
  { apply NoDup_cons in Hsel as [Hnot _]. intros Heq. apply Hnot. rewrite Heq.
    apply elem_of_cons. now left. }
  destruct (element_edges_distinct n a0 b0 Hdup H0) as [Hab0 Hrev0].
  destruct (element_edges_distinct n a1 b1 Hdup H1) as [Hab1 Hrev1].
  destruct (element_edges_in n a0 b0 H0) as [Ha0 Hb0].
  destruct (element_edges_in n a1 b1 H1) as [Ha1 Hb1].
  destruct (connected_ends a0 b0 a1 b1 Hab0 Hab1 Hshared)
    as (n0 & -> & Hn0 & Hn0' & -> & ->).
  set (n1 := a0 + b0 - n0). set (n2 := a1 + b1 - n0).
  assert (Hn1 : n1 ∈ n) by (unfold n1; destruct Hn0 as [->| ->];
    [replace (a0 + b0 - a0) with b0 by lia|replace (a0 + b0 - b0) with a0 by lia];
    assumption).
  assert (Hn2 : n2 ∈ n) by (unfold n2; destruct Hn0' as [->| ->];
    [replace (a1 + b1 - a1) with b1 by lia|replace (a1 + b1 - b1) with a1 by lia];
    assumption).
  assert (Hdiff : n1 <> n2).
  { unfold n1, n2. intros Heq.
    destruct Hn0 as [Hn0|Hn0], Hn0' as [Hn0'|Hn0'].
    - apply Hne. f_equal; lia.
    - apply Hrev0. replace b0 with a1 by lia. replace a0 with b1 by lia. exact H1.
    - apply Hrev0. replace b0 with a1 by lia. replace a0 with b1 by lia. exact H1.
    - apply Hne. f_equal; lia. }
  assert (Hunsplit : forall p, p ∈ element_edges n ->
                       p = (n1, n2) \/ p = (n2, n1) ->
                       nv re0 p < 0).
  { intros p Hp Hform.
    destruct (Z.lt_ge_cases (nv re0 p) 0) as [|Hok]; [assumption|exfalso].
    assert (Hsel' : p ∈ [(a0, b0); (a1, b1)]) by (apply Hin; now split).
    apply elem_of_cons in Hsel' as [->|Hsel'].
    - unfold n1, n2 in Hform. destruct Hform as [Heq|Heq]; injection Heq; lia.
    - apply list_elem_of_singleton in Hsel'. subst p.
      unfold n1, n2 in Hform. destruct Hform as [Heq|Heq]; injection Heq; lia. }
  destruct (element_edges_cover n n1 n2 Hn1 Hn2 Hdiff) as [Hp|Hp].
  - exists (nv re0 (n1, n2)). split; [now apply Hall|]. apply Hunsplit; auto.
  - exists (nv re0 (n2, n1)). split; [|apply Hunsplit; auto].
    rewrite get_new_vertex_sym; [now apply Hall|].
    intros Hgnn. apply Hdiff. now apply Hinj.
Qed.

Lemma mark_unsplit_marks (re0 : list (list Z)) (n : list Z) (splits : list Edge)
    (re re' : list (list Z)) (marked : Z) :
  split_set m l2g re0 n = Ok splits ->
  mark_unsplit m l2g n splits re = Ok (re', marked) ->
  marks_only re0 re -> marks_only re0 re'.
Proof.
  intros Hsplit Hrun Hre. apply split_set_inv in Hsplit as [Hall Hsplits].
  unfold mark_unsplit in Hrun.
  apply (foldM_preserves_in (fun s => marks_only re0 (fst s))) in Hrun;
    [exact Hrun| |exact Hre].
  intros [re1 k] [a b] [re2 k'] Hin Hone Hre1. cbn [fst] in *.
  destruct (existsb (Edge_eqb (Edge_of a b)) splits) eqn:Hsel;
    [now injection Hone as <- _|].
  apply bind_ok in Hone as (re3 & Hmark & Hone). injection Hone as <- _.
  apply (mark_edge_marks a b (nv re0 (a, b)) re0 re1 re3 Hre1 (Hall a b Hin));
    [|exact Hmark].
  destruct (Z.lt_ge_cases (nv re0 (a, b)) 0) as [|Hok]; [assumption|exfalso].
  apply not_true_iff_false in Hsel. apply Hsel. apply existsb_exists.
  exists (Edge_of a b). split; [|now apply Edge_eqb_eq].
  rewrite Hsplits. apply list_elem_of_In, list_elem_of_fmap.
  exists (a, b). split; [reflexivity|].
  apply (list_elem_of_filter (fun p => 0 <= nv re0 p)). now split.
Qed.

Variable NElements : Z.

Hypothesis proper :
  forall (i : Z) (n : list Z) (first : Z),
    0 <= i < NElements ->
    get_element m i = Ok n -> vget n 0 = Ok first -> 0 <= first ->
    proper_element l2g n.

Lemma propagate_element_marks (st st' : list (list Z) * Z) (i : Z) :
  0 <= i < NElements ->
  propagate_element m l2g st i = Ok st' -> marks_only (fst st) (fst st').
Proof.
  destruct st as [re k]. unfold propagate_element. intros Hi Hrun. cbn [fst].
  apply bind_ok in Hrun as (n & Hn & Hrun).
  apply bind_ok in Hrun as (first & Hfirst & Hrun).
  destruct (Z.ltb_spec first 0) as [|Hlive];
    [injection Hrun as <-; apply marks_only_refl|].
  apply bind_ok in Hrun as (splits & Hsplits & Hrun).
  destruct splits as [|s0 [|s1 [|s2 [|s3 [|s4 [|s5 rest]]]]]];
    try (injection Hrun as <-; apply marks_only_refl).
  - destruct (Z.geb_spec (connected s0 s1) 0) as [Hshared|];
      [|injection Hrun as <-; apply marks_only_refl].
    apply bind_ok in Hrun as (re' & Hmark & Hrun). injection Hrun as <-. cbn [fst].
    destruct (third_edge_unsplit re n s0 s1 (proper i n first Hi Hn Hfirst Hlive)
                Hsplits ltac:(lia)) as (v & Hv & Hneg).
    exact (mark_edge_marks _ _ v re re re' (marks_only_refl re) Hv Hneg Hmark).
  - destruct (size (shared_vertices s0 s1 s2) =? 3);
      [injection Hrun as <-; apply marks_only_refl|].
    apply bind_ok in Hrun as ([re' k'] & Hmark & Hrun). injection Hrun as <-.
    exact (mark_unsplit_marks re n _ re re' k' Hsplits Hmark (marks_only_refl re)).
  - apply bind_ok in Hrun as ([re' k'] & Hmark & Hrun). injection Hrun as <-.
    exact (mark_unsplit_marks re n _ re re' k' Hsplits Hmark (marks_only_refl re)).
  - apply bind_ok in Hrun as ([re' k'] & Hmark & Hrun). injection Hrun as <-.
    exact (mark_unsplit_marks re n _ re re' k' Hsplits Hmark (marks_only_refl re)).
Qed.

Lemma propagate_sweep_marks (re re' : list (list Z)) (k : Z) :
  propagate_sweep m l2g NElements re = Ok (re', k) -> marks_only re re'.
Proof.
  unfold propagate_sweep. intros Hrun.
  apply (foldM_preserves_in (fun s => marks_only re (fst s))) in Hrun;
    [exact Hrun| |apply marks_only_refl].
  intros s x s' Hin Hs Hre. apply (marks_only_trans _ _ _ Hre).
  apply elem_of_seqZ in Hin. apply (propagate_element_marks s s' x); [lia|exact Hs].
Qed.

Lemma realise_edges_kept (i : Z) :
  forall (rest : list Z) (it : Z) (st st' : list (list Z) * Worker),
    realise_edges m l2g i it rest st = Ok st' ->
    staged_kept (fst st) (fst st') /\ grown (snd st) (snd st').
Proof.
  induction rest as [|u rest IH]; intros it st st' Hrun.
  - injection Hrun as <-. split; [apply staged_kept_refl|apply grown_refl].
  - cbn [realise_edges] in Hrun. apply bind_ok in Hrun as (v & Hv & Hrun).
    apply bind_ok in Hrun as (st1 & Hone & Hrun).
    destruct (IH _ _ _ Hrun) as [Hkept Hgrown].
    enough (staged_kept (fst st) (fst st1) /\ grown (snd st) (snd st1)) as [Hk Hg].
    { split; [exact (staged_kept_trans _ _ _ Hk Hkept)
             |exact (grown_trans _ _ _ Hg Hgrown)]. }
    destruct (Z.eqb_spec v index_max) as [->|];
      [|injection Hone as <-; split; [apply staged_kept_refl|apply grown_refl]].
    destruct st as [re w], st1 as [re1 w1]. cbn [fst snd] in *.
    apply stage_edge_inv in Hone as (row & Hi & Hrow & Hit & Hfit & -> & Hedge).
    apply refine_edge_inv in Hedge as (x & mm & _ & _ & _ & Hvs & Hcs & Hms & _).
    split; [|repeat split; eexists; eassumption].
    unfold get_slot in Hv. apply bind_ok in Hv as (row' & Hrow' & Hv).
    apply vget_inv in Hrow' as [_ Hrow']. rewrite Hrow in Hrow'. injection Hrow' as <-.
    apply vget_inv in Hv as [_ Hv].
    split; [now rewrite length_insert|]. intros i' r Hr.
    destruct (decide (i' = Z.to_nat i)) as [->|Hother].
    + rewrite Hrow in Hr. injection Hr as <-.
      eexists. split; [apply list_lookup_insert_eq; now apply lookup_lt_Some in Hrow|].
      split; [now rewrite !length_insert|]. intros t x0 Hx Hpos Hmax.
      destruct (decide (t = Z.to_nat it)) as [->|Ht].
      * replace (2 * Z.to_nat it)%nat with (Z.to_nat (2 * it)) in Hx by lia.
        rewrite Hv in Hx. injection Hx as <-. contradiction.
      * rewrite !list_lookup_insert_ne by lia. exact Hx.
    + exists r. rewrite list_lookup_insert_ne by lia. split; [exact Hr|].
      split; [reflexivity|]. auto.
Qed.

Lemma propagate_kept (fuel : nat) :
  forall (sweep : nat) (nprocs NNodes : Z)
         (st st' : list (list Z) * Worker),
    propagate fuel sweep nprocs m l2g NNodes NElements st = Ok st' ->
    staged_kept (fst st) (fst st') /\ grown (snd st) (snd st').
Proof.
  induction fuel as [|fuel IH]; intros sweep nprocs NNodes st st' Hrun;
    [discriminate|].
  cbn [propagate] in Hrun.
  apply bind_ok in Hrun as ([re k] & Hsweep & Hrun).
  apply propagate_sweep_marks, marks_only_staged_kept in Hsweep.
  destruct (_ =? 0);
    [injection Hrun as <-; split; [exact Hsweep|apply grown_refl]|].
  apply bind_ok in Hrun as (st1 & Hrealise & Hrun).
  destruct (IH _ _ _ _ _ Hrun) as [Hkept Hgrown].
  apply (foldM_preserves
           (fun s => staged_kept re (fst s) /\ grown (snd st) (snd s))) in Hrealise.
  - destruct Hrealise as [Hk Hg].
    split; [|exact (grown_trans _ _ _ Hg Hgrown)].
    exact (staged_kept_trans _ _ _ Hsweep (staged_kept_trans _ _ _ Hk Hkept)).
  - intros s x s' Hs [Hre Hw].
    unfold realise_vertex in Hs. apply bind_ok in Hs as (nn & _ & Hs).
    destruct (realise_edges_kept _ _ _ _ _ Hs) as [Hk Hg].
    split; [exact (staged_kept_trans _ _ _ Hre Hk)|exact (grown_trans _ _ _ Hw Hg)].
  - split; [apply staged_kept_refl|apply grown_refl].
Qed.

End Marks.

(** X10. The conforming propagation of a 3D mesh never takes back a staged
    vertex. When every live element has vertices with pairwise distinct
    GIDs and the propagation loop returns, [refined_edges] has the same rows
    of the same lengths, every even slot that held the offset of a staged
    vertex (not negative and not the sentinel) still holds that offset, and
    the worker's vertex, coordinate and metric buffers have only been
    appended to: the sweep over the elements writes the sentinel only into
    slots of edges without a new vertex, and the pass over the vertices
    stages only slots that hold the sentinel. *)
Theorem propagation_keeps_staged_vertices `{Collaborators}
    (fuel sweep : nat) (nprocs : Z) (m : Mesh) (l2g : list Z)
    (NNodes NElements : Z) (st st' : list (list Z) * Worker) :
  (forall (i : Z) (n : list Z) (first : Z),
     0 <= i < NElements ->
     get_element m i = Ok n -> vget n 0 = Ok first -> 0 <= first ->
     proper_element l2g n) ->
  propagate fuel sweep nprocs m l2g NNodes NElements st = Ok st' ->
  staged_kept (fst st) (fst st') /\ grown (snd st) (snd st').
Proof.
  intros Hproper Hrun.
  exact (propagate_kept m l2g NElements Hproper fuel sweep nprocs NNodes st st' Hrun).
Qed.

Lemma propagation_keeps_staged_vertices_witness :
  exists st st' : list (list Z) * Worker,
    @edge_selection Example.serial 1 Example.needle_tetrahedron [0; 1; 2; 3] 4 = Ok st /\
    @propagate Example.serial 1 0 1 Example.needle_tetrahedron [0; 1; 2; 3] 4 1 st
    = Ok st' /\
    staged_kept (fst st) (fst st') /\ grown (snd st) (snd st').
Proof.
  eexists _, _. split; [vm_compute; reflexivity|].
  split; [vm_compute; reflexivity|].
  eapply (@propagation_keeps_staged_vertices Example.serial 1 0 1
            Example.needle_tetrahedron [0; 1; 2; 3] 4 1).
  - intros i n first Hi Hn Hfirst _. assert (i = 0) as -> by lia.
    vm_compute in Hn. injection Hn as <-.
    unfold proper_element. vm_compute.
    refine (bool_decide_unpack (NoDup [0; 1; 2; 3]) _). vm_compute. exact I.
  - vm_compute. reflexivity.
Defined.

(** *** The constructor *)




(** *** The children of an element *)

Lemma emit_appends (children : list (list Z)) (k : Z) (w : Worker) :
  newElements (emit children k w) = newElements w ++ concat children.
Proof.
  unfold emit. cbn [newElements]. generalize (newElements w) as acc.
  induction children as [|c children IH]; intros acc; cbn [fold_left concat];
    [now rewrite app_nil_r|].
  now rewrite IH, app_assoc.
Qed.

Ltac member := repeat (apply elem_of_cons; first [left; reflexivity | right]).
Ltac some_of tac :=
  first [apply Exists_cons_hd; tac | apply Exists_cons_tl; some_of tac].
Ltac child_ok :=
  split; [reflexivity|]; split;
  [repeat (apply Forall_cons; split;
           [first [left; now member | right; now member]|]);
   constructor
  |some_of ltac:(now member)].
Ltac read H :=
  let x := fresh "x" in
  let Hx := fresh "Hx" in
  apply bind_ok in H as (x & Hx & H); vm_compute in Hx; injection Hx as <-.

Ltac vertex :=
  first [left; first [assumption | now member] | right; now member].
Ltac tetrahedron :=
  split; [reflexivity|]; split;
  [repeat (apply Forall_cons; split; [vertex|]); constructor
  |some_of ltac:(now member)].

Lemma find_first_elem (p : Z -> bool) (l : list Z) :
  forall (pos j x : Z), find_first p l pos = Some (j, x) -> x ∈ l.
Proof.
  induction l as [|y l IH]; intros pos j x Hfind; [discriminate|].
  cbn [find_first] in Hfind. destruct (p y).
  - injection Hfind as _ <-. apply elem_of_cons. now left.
  - apply elem_of_cons. right. exact (IH _ _ _ Hfind).
Qed.

Lemma find_fourth (n : list Z) (a b c : Z) :
  NoDup n -> length n = 4%nat ->
  exists j x : Z,
    find_first (fun x => negb (x =? a) && negb (x =? b) && negb (x =? c)) n 0
    = Some (j, x).
Proof.
  intros Hdup Hlen.
  destruct n as [|p [|q [|r [|s [|t rest]]]]]; try discriminate.
  apply NoDup_cons in Hdup as [Hp Hdup]. apply NoDup_cons in Hdup as [Hq Hdup].
  apply NoDup_cons in Hdup as [Hr _].
  repeat setoid_rewrite not_elem_of_cons in Hp.
  repeat setoid_rewrite not_elem_of_cons in Hq.
  repeat setoid_rewrite not_elem_of_cons in Hr.
  destruct Hp as (Hpq & Hpr & Hps & _), Hq as (Hqr & Hqs & _), Hr as (Hrs & _).
  assert (Hone : forall x : Z,
             negb (x =? a) && negb (x =? b) && negb (x =? c) = false ->
             x = a \/ x = b \/ x = c).
  { intros x. destruct (Z.eqb_spec x a), (Z.eqb_spec x b), (Z.eqb_spec x c);
      cbn [negb andb]; intros Hx; try discriminate; auto. }
  cbn [find_first].
  destruct (negb (p =? a) && _ && _) eqn:Ep; [eexists _, _; reflexivity|].
  destruct (negb (q =? a) && _ && _) eqn:Eq; [eexists _, _; reflexivity|].
  destruct (negb (r =? a) && _ && _) eqn:Er; [eexists _, _; reflexivity|].
  destruct (negb (s =? a) && _ && _) eqn:Es; [eexists _, _; reflexivity|].
  apply Hone in Ep, Eq, Er, Es. lia.
Qed.

Section Triangles.
Context `{Collaborators}.

(** X12. The templates of a triangle. When the body of the loop over the
    elements returns for a triangle [n0 n1 n2], it has read the new vertices
    of the three edges; with no new vertex the triangle is kept ([continue]);
    with k = 1, 2 or 3 new vertices k + 1 children are appended to the
    worker's buffer and counted in [splitCnt]. Every child has three
    vertices, each a vertex of the parent or a new vertex of one of its
    edges, and at least one new vertex; every new vertex of the parent's
    edges is a vertex of some child. The buffers of the new vertices are not
    touched. *)
Theorem triangle_children (m : Mesh) (l2g : list Z) (re : list (list Z))
    (n : list Z) (w : Worker) (r : option Worker) :
  refine_2d m l2g re n w = Ok r ->
  exists n0 n1 n2 nv0 nv1 nv2 : Z,
    n !! 0%nat = Some n0 /\ n !! 1%nat = Some n1 /\ n !! 2%nat = Some n2 /\
    get_new_vertex m l2g n1 n2 re = Ok nv0 /\
    get_new_vertex m l2g n2 n0 re = Ok nv1 /\
    get_new_vertex m l2g n0 n1 re = Ok nv2 /\
    let split := filter (fun v => 0 <= v) [nv0; nv1; nv2] in
    match r with
    | None => split = []
    | Some w' =>
        split <> [] /\
        exists children : list (list Z),
          length children = S (length split) /\
          Forall (child_of 3 [n0; n1; n2] split) children /\
          (forall v : Z, v ∈ split -> exists c : list Z, c ∈ children /\ v ∈ c) /\
          newElements w' = newElements w ++ concat children /\
          splitCnt w' = to_size (splitCnt w + size children) /\
          newVertices w' = newVertices w /\ newCoords w' = newCoords w /\
          newMetric w' = newMetric w
    end.
Proof.
  unfold refine_2d. intros Hrun.
  apply bind_ok in Hrun as (n0 & Hn0 & Hrun).
  apply bind_ok in Hrun as (n1 & Hn1 & Hrun).
  apply bind_ok in Hrun as (n2 & Hn2 & Hrun).
  apply bind_ok in Hrun as (nv0 & Hnv0 & Hrun).
  apply bind_ok in Hrun as (nv1 & Hnv1 & Hrun).
  apply bind_ok in Hrun as (nv2 & Hnv2 & Hrun).
  apply vget_inv in Hn0 as [_ Hn0]. apply vget_inv in Hn1 as [_ Hn1].
  apply vget_inv in Hn2 as [_ Hn2].
  change (Z.to_nat 0) with 0%nat in Hn0. change (Z.to_nat 1) with 1%nat in Hn1.
  change (Z.to_nat 2) with 2%nat in Hn2.
  exists n0, n1, n2, nv0, nv1, nv2. repeat (split; [assumption|]).
  destruct n as [|a [|b [|c rest]]]; try discriminate.
  cbn in Hn0, Hn1, Hn2. injection Hn0 as ->. injection Hn1 as ->. injection Hn2 as ->.
  cbv zeta in Hrun |- *. rewrite !filter_cons, filter_nil in Hrun |- *.
  destruct (decide (0 <= nv0)) as [H0|H0], (decide (0 <= nv1)) as [H1|H1],
           (decide (0 <= nv2)) as [H2|H2];
    repeat match type of Hrun with
           | context [size ?l =? ?k] =>
               let b := eval vm_compute in (size l =? k) in
               change (size l =? k) with b in Hrun
           end;
    cbv iota in Hrun; cbn [find_first] in Hrun;
    repeat match type of Hrun with
           | context [?v >=? 0] => destruct (Z.geb_spec v 0); [|try lia]; try lia
           | context [?v <? 0] => destruct (Z.ltb_spec v 0); [try lia|]; try lia
           end;
    try (injection Hrun as <-; reflexivity);
    repeat read Hrun;
    try (destruct (diagonal0_args _ _ _) as [a0 b0], (diagonal1_args _ _ _) as [a1 b1];
         unfold diagonal_offset, two_split_children in Hrun;
         destruct (_ <? _)%float; repeat read Hrun);
    match type of Hrun with
    | Ok (Some (emit ?ch _ _)) = _ =>
        injection Hrun as <-; split; [discriminate|]; exists ch
    end;
    (split; [reflexivity|]);
    (split; [repeat (apply Forall_cons; split; [child_ok|]); constructor|]);
    (split; [intros v Hv; apply Exists_exists;
             repeat (apply elem_of_cons in Hv as [->|Hv]);
             try (now apply elem_of_nil in Hv); some_of ltac:(now member)|]);
    (split; [apply emit_appends|]); repeat split.
Qed.

End Triangles.

Lemma triangle_children_witness :
  exists (r : option Worker) (n0 n1 n2 nv0 nv1 nv2 : Z),
    @refine_2d Example.serial Example.isosceles_with_new_vertices [0; 1; 2]
               Example.isosceles_refined_edges [0; 1; 2] empty_worker = Ok r /\
    [0; 1; 2] !! 0%nat = Some n0 /\ [0; 1; 2] !! 1%nat = Some n1 /\
    [0; 1; 2] !! 2%nat = Some n2 /\
    @get_new_vertex Example.serial Example.isosceles_with_new_vertices [0; 1; 2] n1 n2
                    Example.isosceles_refined_edges = Ok nv0 /\
    @get_new_vertex Example.serial Example.isosceles_with_new_vertices [0; 1; 2] n2 n0
                    Example.isosceles_refined_edges = Ok nv1 /\
    @get_new_vertex Example.serial Example.isosceles_with_new_vertices [0; 1; 2] n0 n1
                    Example.isosceles_refined_edges = Ok nv2 /\
    let split := filter (fun v => 0 <= v) [nv0; nv1; nv2] in
    match r with
    | None => split = []
    | Some w' =>
        split <> [] /\
        exists children : list (list Z),
          length children = S (length split) /\
          Forall (child_of 3 [n0; n1; n2] split) children /\
          (forall v : Z, v ∈ split -> exists c : list Z, c ∈ children /\ v ∈ c) /\
          newElements w' = newElements empty_worker ++ concat children /\
          splitCnt w' = to_size (splitCnt empty_worker + size children) /\
          newVertices w' = newVertices empty_worker /\
          newCoords w' = newCoords empty_worker /\
          newMetric w' = newMetric empty_worker
    end.
Proof.
  eexists.
  assert (Hrun : @refine_2d Example.serial Example.isosceles_with_new_vertices [0; 1; 2]
                   Example.isosceles_refined_edges [0; 1; 2] empty_worker
                 = Ok (Some (emit [[0; 3; 4]; [3; 1; 2]; [4; 3; 2]] 3 empty_worker)))
    by (vm_compute; reflexivity).
  destruct (@triangle_children Example.serial Example.isosceles_with_new_vertices
              [0; 1; 2] Example.isosceles_refined_edges [0; 1; 2] empty_worker _ Hrun)
    as (n0 & n1 & n2 & nv0 & nv1 & nv2 & Hall).
  exists n0, n1, n2, nv0, nv1, nv2. split; [exact Hrun|exact Hall].
Defined.

Section Tetrahedra.
Context `{Collaborators}.
Variables (m : Mesh) (l2g : list Z) (re : list (list Z)).

Lemma split_edges_inv (n : list Z) (newVertex : list Z) (splitEdges : list Edge) :
  split_edges m l2g re n = Ok (newVertex, splitEdges) ->
  exists vals : list Z,
    mapM (fun p => get_new_vertex m l2g (fst p) (snd p) re) (element_edges n)
    = Ok vals /\
    newVertex = filter (fun v => 0 <= v) vals /\
    length splitEdges = length newVertex /\
    Forall (fun s => e_first s ∈ n /\ e_second s ∈ n) splitEdges.
Proof.
  unfold split_edges.
  assert (Hgen : forall (l : list (Z * Z)) (nv nv' : list Z) (se se' : list Edge),
             Forall (fun p => fst p ∈ n /\ snd p ∈ n) l ->
             foldM (fun '(newVertex, splitEdges) '(a, b) =>
                      do vertexID <- get_new_vertex m l2g a b re;
                      Ok (if vertexID >=? 0
                          then (newVertex ++ [vertexID], splitEdges ++ [Edge_of a b])
                          else (newVertex, splitEdges))) (nv, se) l = Ok (nv', se') ->
             exists vals : list Z,
               mapM (fun p => get_new_vertex m l2g (fst p) (snd p) re) l = Ok vals /\
               nv' = nv ++ filter (fun v => 0 <= v) vals /\
               (length se = length nv -> length se' = length nv') /\
               (Forall (fun s => e_first s ∈ n /\ e_second s ∈ n) se ->
                Forall (fun s => e_first s ∈ n /\ e_second s ∈ n) se')).
  { induction l as [|[a b] l IH]; intros nv nv' se se' Hin Hrun.
    - injection Hrun as <- <-. exists []. rewrite filter_nil, app_nil_r. now repeat split.
    - cbn [foldM] in Hrun. apply bind_ok in Hrun as ([nv1 se1] & Hone & Hrun).
      apply bind_ok in Hone as (v & Hv & Hone).
      apply Forall_cons in Hin as [[Ha Hb] Hin]. cbn [fst snd] in Ha, Hb.
      destruct (IH _ _ _ _ Hin Hrun) as (vals & Hvals & -> & Hlen & Hends).
      exists (v :: vals). cbn [mapM fst snd].
      rewrite Hv. cbn [bind]. rewrite Hvals. cbn [bind].
      split; [reflexivity|]. rewrite filter_cons.
      destruct (Z.geb_spec v 0), (decide (0 <= v)); try lia;
        injection Hone as <- <-.
      + split; [now rewrite <- app_assoc|]. split.
        * intros Heq. apply Hlen. rewrite !length_app. cbn [length]. lia.
        * intros Hse. apply Hends. apply Forall_app. split; [exact Hse|].
          apply Forall_cons. split; [|constructor]. unfold Edge_of. cbn [e_first e_second].
          split; [destruct (Z.min_spec a b) as [[_ ->]|[_ ->]]; assumption
                 |destruct (Z.max_spec a b) as [[_ ->]|[_ ->]]; assumption].
      + now split. }
  intros Hrun.
  destruct (Hgen (element_edges n) [] newVertex [] splitEdges) as (vals & Hv & Hnv & Hl & Hf).
  - apply Forall_forall. intros [a b] Hin. cbn [fst snd].
    exact (element_edges_in n a b Hin).
  - exact Hrun.
  - exists vals. split; [exact Hv|]. split; [exact Hnv|].
    split; [now apply Hl|]. apply Hf. constructor.
Qed.

(** X13. The templates of a tetrahedron with four distinct vertices. When
    the body of the loop over the elements returns, it has read the new
    vertices of the six edges; with no new vertex the tetrahedron is kept
    ([continue]); with 1, 2, 3 or 6 new vertices 2, 4, 4 or 8 children are
    appended to the worker's buffer and counted in [splitCnt]; with any
    other number nothing is appended. Every child has four vertices, each a
    vertex of the parent or a new vertex of one of its edges, and at least
    one new vertex; every new vertex of the parent's edges is a vertex of
    some child. The buffers of the new vertices are not touched. *)
Theorem tetrahedron_children (n : list Z) (w : Worker) (r : option Worker) :
  NoDup n -> length n = 4%nat ->
  refine_3d m l2g re n w = Ok r ->
  exists vals : list Z,
    mapM (fun p => get_new_vertex m l2g (fst p) (snd p) re) (element_edges n) = Ok vals /\
    let split := filter (fun v => 0 <= v) vals in
    match r with
    | None => split = []
    | Some w' =>
        split <> [] /\
        match template_size (length split) with
        | None => w' = w
        | Some k =>
            exists children : list (list Z),
              length children = k /\
              Forall (child_of 4 n split) children /\
              (forall v : Z, v ∈ split -> exists c : list Z, c ∈ children /\ v ∈ c) /\
              newElements w' = newElements w ++ concat children /\
              splitCnt w' = to_size (splitCnt w + Z.of_nat k) /\
              newVertices w' = newVertices w /\ newCoords w' = newCoords w /\
              newMetric w' = newMetric w
        end
    end.
Proof.
  intros Hdup Hlen. unfold refine_3d. intros Hrun.
  apply bind_ok in Hrun as ([newVertex splitEdges] & Hsplit & Hrun).
  apply split_edges_inv in Hsplit as (vals & Hvals & Hnv & Hse & Hends).
  exists vals. split; [exact Hvals|]. cbv zeta. rewrite <- Hnv. clear Hnv Hvals vals.
  unfold apply_3d_template in Hrun.
  destruct newVertex as [|v0 [|v1 [|v2 [|v3 [|v4 [|v5 [|v6 others]]]]]]];
    [now injection Hrun as <-|..];
    cbn [length template_size].
  - destruct splitEdges as [|s0 [|s1 rest]]; try discriminate.
    apply Forall_cons in Hends as [[Hf0 Hs0] _].
    destruct (filter _ n) as [|oe0 [|oe1 [|oe2 rest]]] eqn:Hopp; try discriminate.
    assert (Hsub : forall x : Z, x ∈ [oe0; oe1] -> x ∈ n).
    { intros x Hx. rewrite <- Hopp in Hx. now apply list_elem_of_filter in Hx as [_ Hx]. }
    assert (Hoe0 : oe0 ∈ n) by (apply Hsub; now member).
    assert (Hoe1 : oe1 ∈ n) by (apply Hsub; now member).
    match type of Hrun with
    | Ok (Some (emit ?ch _ _)) = _ =>
        injection Hrun as <-; split; [discriminate|]; exists ch
    end.
    split; [reflexivity|].
    split; [repeat (apply Forall_cons; split; [tetrahedron|]); constructor|].
    split; [intros v Hv; apply Exists_exists;
            repeat (apply elem_of_cons in Hv as [->|Hv]);
            try (now apply elem_of_nil in Hv); some_of ltac:(now member)|].
    split; [apply emit_appends|]. now repeat split.
  - destruct splitEdges as [|s0 [|s1 [|s2 rest]]]; try discriminate.
    apply Forall_cons in Hends as [[Hf0 Hs0] Hends].
    apply Forall_cons in Hends as [[Hf1 Hs1] _].
    match type of Hrun with
    | Ok (Some (emit ?ch _ _)) = _ =>
        injection Hrun as <-; split; [discriminate|]; exists ch
    end.
    split; [reflexivity|].
    split; [repeat (apply Forall_cons; split; [tetrahedron|]); constructor|].
    split; [intros v Hv; apply Exists_exists;
            repeat (apply elem_of_cons in Hv as [->|Hv]);
            try (now apply elem_of_nil in Hv); some_of ltac:(now member)|].
    split; [apply emit_appends|]. now repeat split.
  - destruct splitEdges as [|s0 [|s1 [|s2 [|s3 rest]]]]; try discriminate.
    apply Forall_cons in Hends as [[Hf0 Hs0] Hends].
    apply Forall_cons in Hends as [[Hf1 Hs1] Hends].
    apply Forall_cons in Hends as [[Hf2 Hs2] _].
    cbv zeta in Hrun.
    assert (Hm6 : forall a b c : Z,
               match find_first (fun x => negb (x =? a) && negb (x =? b) && negb (x =? c))
                                n 0 with
               | Some (_, x) => x
               | None => -1
               end ∈ n).
    { intros a b c. destruct (find_fourth n a b c Hdup Hlen) as (j & x & Hfind).
      rewrite Hfind. exact (find_first_elem _ _ _ _ _ Hfind). }
    destruct (contains s1 (e_second s0));
      [destruct (negb (e_first s1 =? e_second s0))
      |destruct (negb (e_first s2 =? e_second s0))];
      match type of Hrun with
      | Ok (Some (emit [[_; _; _; ?m6]; _; _; _] _ _)) = _ =>
          match m6 with
          | context [find_first (fun x => negb (x =? ?a) && negb (x =? ?b) && negb (x =? ?c))] =>
              pose proof (Hm6 a b c) as Hin6
          end
      end;
      match type of Hrun with
    | Ok (Some (emit ?ch _ _)) = _ =>
        injection Hrun as <-; split; [discriminate|]; exists ch
    end;
      (split; [reflexivity|]);
      (split; [repeat (apply Forall_cons; split; [tetrahedron|]); constructor|]);
      (split; [intros v Hv; apply Exists_exists;
               repeat (apply elem_of_cons in Hv as [->|Hv]);
               try (now apply elem_of_nil in Hv); some_of ltac:(now member)|]);
      (split; [apply emit_appends|]); now repeat split.
  - destruct splitEdges as [|s0 [|s1 [|s2 [|s3 [|s4 rest]]]]]; try discriminate;
      now injection Hrun as <-.
  - destruct splitEdges as [|s0 [|s1 [|s2 [|s3 [|s4 [|s5 rest]]]]]]; try discriminate;
      now injection Hrun as <-.
  - apply bind_ok in Hrun as (n0 & Hn0 & Hrun).
    apply bind_ok in Hrun as (n1 & Hn1 & Hrun).
    apply bind_ok in Hrun as (n2 & Hn2 & Hrun).
    apply bind_ok in Hrun as (n3 & Hn3 & Hrun).
    apply vget_inv in Hn0 as [_ Hn0%list_elem_of_lookup_2].
    apply vget_inv in Hn1 as [_ Hn1%list_elem_of_lookup_2].
    apply vget_inv in Hn2 as [_ Hn2%list_elem_of_lookup_2].
    apply vget_inv in Hn3 as [_ Hn3%list_elem_of_lookup_2].
    match type of Hrun with
    | Ok (Some (emit ?ch _ _)) = _ =>
        injection Hrun as <-; split; [discriminate|]; exists ch
    end.
    split; [reflexivity|].
    split; [repeat (apply Forall_cons; split; [tetrahedron|]); constructor|].
    split; [intros v Hv; apply Exists_exists;
            repeat (apply elem_of_cons in Hv as [->|Hv]);
            try (now apply elem_of_nil in Hv); some_of ltac:(now member)|].
    split; [apply emit_appends|]. now repeat split.
  - destruct splitEdges; now injection Hrun as <-.
Qed.

End Tetrahedra.

Lemma tetrahedron_children_witness :
  exists (r : option Worker) (vals : list Z),
    @refine_3d Example.serial Example.unit_tetrahedron [0; 1; 2; 3]
               Example.three_split_edges [0; 1; 2; 3] empty_worker = Ok r /\
    mapM (fun p => @get_new_vertex Example.serial Example.unit_tetrahedron [0; 1; 2; 3]
                     (fst p) (snd p) Example.three_split_edges)
         (element_edges [0; 1; 2; 3]) = Ok vals /\
    let split := filter (fun v => 0 <= v) vals in
    match r with
    | None => split = []
    | Some w' =>
        split <> [] /\
        match template_size (length split) with
        | None => w' = empty_worker
        | Some k =>
            exists children : list (list Z),
              length children = k /\
              Forall (child_of 4 [0; 1; 2; 3] split) children /\
              (forall v : Z, v ∈ split -> exists c : list Z, c ∈ children /\ v ∈ c) /\
              newElements w' = newElements empty_worker ++ concat children /\
              splitCnt w' = to_size (splitCnt empty_worker + Z.of_nat k) /\
              newVertices w' = newVertices empty_worker /\
              newCoords w' = newCoords empty_worker /\
              newMetric w' = newMetric empty_worker
        end
    end.
Proof.
  assert (Hrun : exists r, @refine_3d Example.serial Example.unit_tetrahedron [0; 1; 2; 3]
                   Example.three_split_edges [0; 1; 2; 3] empty_worker = Ok r)
    by (eexists; vm_compute; reflexivity).
  destruct Hrun as [r Hrun]. exists r.
  destruct (@tetrahedron_children Example.serial Example.unit_tetrahedron [0; 1; 2; 3]
              Example.three_split_edges [0; 1; 2; 3] empty_worker r) as (vals & Hall).
  - refine (bool_decide_unpack (NoDup [0; 1; 2; 3]) _). vm_compute. exact I.
  - reflexivity.
  - exact Hrun.
  - exists vals. split; [exact Hrun|exact Hall].
Defined.
